(** * Markdown2PDF: the math normaliser and the batch conversion worker

    A shallow embedding of [ConvertThread] of [Markdown2PDF.py]:
    [simplify_math_formula], [process_math_formulas],
    [convert_markdown_with_math], [create_pdf_options],
    [cleanup_temp_files] and [run], with the properties the specification
    states about them.

    Python values are modelled as follows.
    - [str] is a list of Unicode code points ([list N]); literals are
      written as UTF-8 text and decoded by [u].
    - [re.sub] is a backtracking matcher over the fragment of the regular
      expression syntax the source uses; patterns are kept as the pattern
      text of the source and compiled by [re_compile].
    - the [markdown] and [pdfkit] libraries, [os.path], the file system's
      failures and the engine self-check are parameters of the sections
      that use them. *)

From Stdlib Require Import ZArith NArith List String Ascii Bool Lia SpecFloat.
From stdpp Require Import base option list gmap.
Import ListNotations.

Local Open Scope N_scope.
Local Open Scope list_scope.

(** ** Strings *)

Module Str.

(** A Python [str]: a sequence of code points. *)
Abbreviation str := (list N).

Definition bytes_of_string (s : string) : list N :=
List.map N_of_ascii (list_ascii_of_string s).

(** UTF-8 decoding of a literal (well-formed input only; a truncated
  sequence ends the text). *)
Fixpoint utf8_decode (bs : list N) : str :=
match bs with
| [] => []
| b0 :: r0 =>
  if b0 <? 128 then b0 :: utf8_decode r0
  else if b0 <? 224 then
    match r0 with
    | b1 :: r1 => ((b0 - 192) * 64 + (b1 - 128)) :: utf8_decode r1
    | _ => []
    end
  else if b0 <? 240 then
    match r0 with
    | b1 :: b2 :: r2 =>
      ((b0 - 224) * 4096 + (b1 - 128) * 64 + (b2 - 128)) :: utf8_decode r2
    | _ => []
    end
  else
    match r0 with
    | b1 :: b2 :: b3 :: r3 =>
      ((b0 - 240) * 262144 + (b1 - 128) * 4096 + (b2 - 128) * 64 + (b3 - 128))
        :: utf8_decode r3
    | _ => []
    end
end.

(** [u "text"] is the Python string written [text]. *)
Definition u (s : string) : str := utf8_decode (bytes_of_string s).
#[global] Arguments u : simpl never.

(** The double quote and the line feed, which a literal cannot hold. *)
Definition dq : str := [34].
Definition nl : str := [10].

Definition str_eqb (a b : str) : bool := bool_decide (a = b).

(** [c in s] for a single character. *)
Definition contains_char (c : N) (s : str) : bool := existsb (N.eqb c) s.

Fixpoint starts_with (p s : str) : bool :=
match p, s with
| [], _ => true
| a :: p', b :: s' => (a =? b) && starts_with p' s'
| _ :: _, [] => false
end.

(** [sub in s]: substring test. *)
Fixpoint contains (sub s : str) : bool :=
starts_with sub s ||
match s with
| [] => false
| _ :: s' => contains sub s'
end.

(** [str(n)] for a non-negative integer, most significant digit first. *)
Fixpoint digits_fuel (fuel : nat) (n : N) (acc : str) : str :=
match fuel with
| O => acc
| S f =>
  let acc' := (48 + n mod 10) :: acc in
  if n <? 10 then acc' else digits_fuel f (n / 10) acc'
end.

Definition str_of_N (n : N) : str := digits_fuel (S (N.to_nat (N.log2 n))) n [].

(** [str(z)] for an [int]. *)
Definition str_of_Z (z : Z) : str :=
match z with
| Zneg p => 45 :: str_of_N (Npos p)
| _ => str_of_N (Z.to_N z)
end.
#[global] Arguments str_of_Z : simpl never.

(** [str.isspace] for one character (Unicode 14, as in CPython 3.11). *)
Definition isspace (c : N) : bool :=
((9 <=? c) && (c <=? 13)) || ((28 <=? c) && (c <=? 32)) ||
(c =? 133) || (c =? 160) || (c =? 5760) ||
((8192 <=? c) && (c <=? 8202)) ||
(c =? 8232) || (c =? 8233) || (c =? 8239) || (c =? 8287) || (c =? 12288).

Fixpoint lstrip (s : str) : str :=
match s with
| c :: s' => if isspace c then lstrip s' else s
| [] => []
end.

(** [s.strip()] *)
Definition strip (s : str) : str := rev (lstrip (rev (lstrip s))).

End Str.
Import Str.

(** ** Regular expressions: the fragment of [re] the source uses *)

Module Re.

(** One pattern position: a set of characters. *)
Inductive cset : Type :=
| CLit (c : N)                              (* a literal, escaped or not *)
| CDot (dotall : bool)                      (* [.] *)
| CDigit                                    (* [\d] *)
| CClass (negate : bool) (ranges : list (N * N)).  (* [[a-z0-9]], [[^}]] *)

(** Start of each run of ten Unicode decimal digits (category Nd,
  Unicode 14); the mathematical digits U+1D7CE..U+1D7FF form one run of
  fifty. *)
Definition decimal_runs : list N :=
[48; 1632; 1776; 1984; 2406; 2534; 2662; 2790; 2918; 3046; 3174; 3302;
 3430; 3558; 3664; 3792; 3872; 4160; 4240; 6112; 6160; 6470; 6608; 6784;
 6800; 6992; 7088; 7232; 7248; 42528; 43216; 43264; 43472; 43504; 43600;
 44016; 65296; 66720; 68912; 69734; 69872; 69942; 70096; 70384; 70736;
 70864; 71248; 71360; 71472; 71904; 72016; 72784; 73040; 73120; 92768;
 92864; 93008; 123200; 123632; 125264; 130032].

(** [\d] on a [str] pattern: any Unicode decimal digit. *)
Definition is_decimal (c : N) : bool :=
existsb (fun lo => (lo <=? c) && (c <=? lo + 9)) decimal_runs ||
((120782 <=? c) && (c <=? 120831)).

Definition in_ranges (ranges : list (N * N)) (c : N) : bool :=
existsb (fun r => (fst r <=? c) && (c <=? snd r)) ranges.

Definition cset_mem (cs : cset) (c : N) : bool :=
match cs with
| CLit a => a =? c
| CDot dotall => dotall || negb (c =? 10)
| CDigit => is_decimal c
| CClass negate ranges => xorb negate (in_ranges ranges c)
end.

(** Patterns: sequences of single characters, repeated character sets
  ([*], [+], and their lazy forms) and numbered capture groups. *)
Inductive regex : Type :=
| REmpty
| RChar (cs : cset)
| RRepeat (cs : cset) (min : nat) (greedy : bool)
| RSeq (r1 r2 : regex)
| RGroup (idx : nat) (body : regex).

(** *** Compiling pattern text *)

Definition is_special (c : N) : bool :=
existsb (N.eqb c) (u "()[]{}*+?|^$.\").

Definition is_ascii_alnum (c : N) : bool :=
((48 <=? c) && (c <=? 57)) || ((65 <=? c) && (c <=? 90)) ||
((97 <=? c) && (c <=? 122)).

(** The items of a bracketed class up to the closing bracket. *)
Fixpoint parse_class (p : str) (acc : list (N * N)) : option (list (N * N) * str) :=
match p with
| [] => None
| 93 :: rest => Some (rev acc, rest)
| lo :: rest =>
  match rest with
  | 45 :: hi :: rest' =>
    if hi =? 93 then parse_class rest ((lo, lo) :: acc)
    else parse_class rest' ((lo, hi) :: acc)
  | _ => parse_class rest ((lo, lo) :: acc)
  end
end.

(** One character set at the head of the pattern. *)
Definition parse_cset (dotall : bool) (p : str) : option (cset * str) :=
match p with
| [] => None
| 92 :: 100 :: rest => Some (CDigit, rest)
| 92 :: c :: rest => if is_ascii_alnum c then None else Some (CLit c, rest)
| 92 :: [] => None
| 46 :: rest => Some (CDot dotall, rest)
| 91 :: 94 :: rest =>
  match parse_class rest [] with
  | Some (rs, rest') => Some (CClass true rs, rest')
  | None => None
  end
| 91 :: rest =>
  match parse_class rest [] with
  | Some (rs, rest') => Some (CClass false rs, rest')
  | None => None
  end
| c :: rest => if is_special c then None else Some (CLit c, rest)
end.

(** The quantifier after a character set, when there is one. *)
Definition parse_quant (cs : cset) (p : str) : regex * str :=
match p with
| 42 :: 63 :: rest => (RRepeat cs 0 false, rest)
| 43 :: 63 :: rest => (RRepeat cs 1 false, rest)
| 42 :: rest => (RRepeat cs 0 true, rest)
| 43 :: rest => (RRepeat cs 1 true, rest)
| _ => (RChar cs, p)
end.

Definition quantifier_next (p : str) : bool :=
match p with
| c :: _ => (c =? 42) || (c =? 43) || (c =? 63) || (c =? 123)
| [] => false
end.

(** A sequence of items, up to the end of the text or to the parenthesis
  closing the group being read; groups are numbered by their opening
  parenthesis. Text outside the fragment does not compile. *)
Fixpoint parse_seq (fuel : nat) (dotall in_group : bool) (next : nat) (p : str)
: option (regex * str * nat) :=
match fuel with
| O => None
| S fuel' =>
  match p with
  | [] => if in_group then None else Some (REmpty, [], next)
  | 41 :: rest => if in_group then Some (REmpty, rest, next) else None
  | 40 :: rest =>
    match parse_seq fuel' dotall true (S next) rest with
    | Some (body, rest', next') =>
      if quantifier_next rest' then None
      else
        match parse_seq fuel' dotall in_group next' rest' with
        | Some (tail, rest'', next'') => Some (RSeq (RGroup next body) tail, rest'', next'')
        | None => None
        end
    | None => None
    end
  | _ =>
    match parse_cset dotall p with
    | Some (cs, rest) =>
      let '(item, rest') := parse_quant cs rest in
      match parse_seq fuel' dotall in_group next rest' with
      | Some (tail, rest'', next') => Some (RSeq item tail, rest'', next')
      | None => None
      end
    | None => None
    end
  end
end.

(** [re.compile(pattern, flags)]; [dotall] is [re.DOTALL]. *)
Definition re_compile (dotall : bool) (pattern : str) : option regex :=
match parse_seq (S (length pattern)) dotall false 1 pattern with
| Some (r, _, _) => Some r
| None => None
end.

(** *** Matching *)

(** The groups captured so far, most recent first. *)
Definition captures := list (nat * str).

Fixpoint lookup_group (g : captures) (n : nat) : option str :=
match g with
| [] => None
| (m, s) :: g' => if Nat.eqb m n then Some s else lookup_group g' n
end.

(** [match.group(n)] of a group that took part in the match. *)
Definition group (g : captures) (n : nat) : str :=
match lookup_group g n with
| Some s => s
| None => []
end.

Section Match.
Context {R : Type}.

(** [cs*] and [cs+], greedy: the longest run first, then shorter ones. *)
Fixpoint rep_greedy (cs : cset) (min : nat) (s : str) (k : str -> option R)
  : option R :=
  match s with
  | c :: s' =>
    if cset_mem cs c then
      match rep_greedy cs (pred min) s' k with
      | Some r => Some r
      | None => match min with O => k s | S _ => None end
      end
    else match min with O => k s | S _ => None end
  | [] => match min with O => k s | S _ => None end
  end.

(** [cs*?] and [cs+?], lazy: the shortest run first. *)
Fixpoint rep_lazy (cs : cset) (min : nat) (s : str) (k : str -> option R)
  : option R :=
  match min with
  | S m =>
    match s with
    | c :: s' => if cset_mem cs c then rep_lazy cs m s' k else None
    | [] => None
    end
  | O =>
    match k s with
    | Some r => Some r
    | None =>
      match s with
      | c :: s' => if cset_mem cs c then rep_lazy cs 0 s' k else None
      | [] => None
      end
    end
  end.

(** Backtracking match of [r] at the head of [s]; [k] receives the rest
    of the text and the captures, and its failure makes the matcher try
    the next alternative. *)
Fixpoint rmatch (r : regex) (s : str) (g : captures)
         (k : str -> captures -> option R) : option R :=
  match r with
  | REmpty => k s g
  | RChar cs =>
    match s with
    | c :: s' => if cset_mem cs c then k s' g else None
    | [] => None
    end
  | RRepeat cs min greedy =>
    if greedy then rep_greedy cs min s (fun s' => k s' g)
    else rep_lazy cs min s (fun s' => k s' g)
  | RSeq r1 r2 => rmatch r1 s g (fun s' g' => rmatch r2 s' g' k)
  | RGroup idx body =>
    rmatch body s g
      (fun s' g' => k s' ((idx, take (length s - length s')%nat s) :: g'))
  end.
End Match.

(** [pattern.match] at the head of [s]: the rest of the text and the
  captured groups. *)
Definition match_here (r : regex) (s : str) : option (str * captures) :=
rmatch r s [] (fun s' g => Some (s', g)).

(** *** Substitution *)

(** A replacement: a template with [\1]..[\9], or a function of the match. *)
Inductive repl : Type :=
| Template (t : str)
| Callable (f : captures -> str).

(** Expansion of a replacement template. *)
Fixpoint expand_template (t : str) (g : captures) : str :=
match t with
| [] => []
| 92 :: rest =>
  match rest with
  | d :: rest' =>
    if (49 <=? d) && (d <=? 57)
    then group g (N.to_nat (d - 48)) ++ expand_template rest' g
    else 92 :: expand_template rest g
  | [] => [92]
  end
| c :: rest => c :: expand_template rest g
end.

Definition apply_repl (rp : repl) (g : captures) : str :=
match rp with
| Template t => expand_template t g
| Callable f => f g
end.

(** Left-to-right replacement of the non-overlapping matches of [r].
  [skip] counts the characters of the current match still to pass.
  Every pattern of the source consumes at least one character; an empty
  match inserts the replacement and moves on by one character. *)
Fixpoint sub_from (r : regex) (rp : repl) (s : str) (skip : nat) : str :=
match s with
| [] =>
  match skip, match_here r [] with
  | O, Some (_, g) => apply_repl rp g
  | _, _ => []
  end
| c :: s' =>
  match skip with
  | S n => sub_from r rp s' n
  | O =>
    match match_here r s with
    | Some (rest, g) =>
      match (length s - length rest)%nat with
      | O => apply_repl rp g ++ c :: sub_from r rp s' 0
      | S n => apply_repl rp g ++ sub_from r rp s' n
      end
    | None => c :: sub_from r rp s' 0
    end
  end
end.

(** [re.sub(pattern, repl, string, flags)]. A pattern outside the fragment
  would raise [re.error]; none of the source does, see
  [patterns_compile]. *)
Definition re_sub (dotall : bool) (pattern : str) (rp : repl) (s : str) : str :=
match re_compile dotall pattern with
| Some r => sub_from r rp s 0
| None => s
end.

End Re.
Import Re.

Example compile_inline :
  re_compile false (u "\$(.*?)\$")
  = Some (RSeq (RChar (CLit 36))
         (RSeq (RGroup 1 (RSeq (RRepeat (CDot false) 0 false) REmpty))
         (RSeq (RChar (CLit 36)) REmpty))).
Proof. reflexivity. Qed.

(** ** The worker object *)

(** The four margin spin boxes, by their dictionary keys, each with its
    [value()]. *)
Record Margins : Type := {
  top : Z;
  right : Z;
  bottom : Z;
  left : Z
}.

(** [ConvertThread]: the fields set by [__init__]; a widget is
    represented by what the worker reads from it ([text()],
    [currentText()], [value()]). *)
Record ConvertThread : Type := {
  input_files : str + list str;   (* one path, or the list of paths *)
  output_dir : str;
  header_edit : str;
  footer_edit : str;
  page_size_combo : str;
  margin_spinboxes : Margins;
  encoding_combo : str;
  is_batch_mode : bool
}.

(** ** [simplify_math_formula] *)

Module Math.

Definition span_open (cls : str) : str :=
u "<span class=" ++ dq ++ cls ++ dq ++ u ">".

(** [fraction_replacer] and [frac_command_replacer] (same body). *)
Definition fraction_replacer (m : captures) : str :=
let numerator := group m 1 in
let denominator := group m 2 in
span_open (u "fraction") ++ span_open (u "numerator") ++ numerator
  ++ u "</span><span>" ++ denominator ++ u "</span></span>".

Definition frac_command_replacer (m : captures) : str :=
let numerator := group m 1 in
let denominator := group m 2 in
span_open (u "fraction") ++ span_open (u "numerator") ++ numerator
  ++ u "</span><span>" ++ denominator ++ u "</span></span>".

Definition sum_replacer (m : captures) : str :=
let lower := group m 1 in
let upper := group m 2 in
u "∑<sub>" ++ lower ++ u "</sub><sup>" ++ upper ++ u "</sup>".

Definition int_replacer (m : captures) : str :=
let lower := group m 1 in
let upper := group m 2 in
u "∫<sub>" ++ lower ++ u "</sub><sup>" ++ upper ++ u "</sup>".

Definition sqrt_replacer (m : captures) : str :=
let index := group m 1 in
let body := group m 2 in
u "<sup>" ++ index ++ u "</sup>√" ++ body.

Definition overline_template : str :=
u "<span style=" ++ dq ++ u "text-decoration: overline;" ++ dq ++ u ">\1</span>".

(** The [replacements] dictionary, in insertion order (the order in which
  the loop applies it): pattern text and replacement template. *)
Definition replacements : list (str * str) :=
[ (u "\\int", u "∫");
  (u "\\sum", u "∑");
  (u "\\prod", u "∏");
  (u "\\infty", u "∞");
  (u "\\pm", u "±");
  (u "\\times", u "×");
  (u "\\cdot", u "·");
  (u "\\leq", u "≤");
  (u "\\geq", u "≥");
  (u "\\neq", u "≠");
  (u "\\approx", u "≈");
  (u "\\sin", u "sin");
  (u "\\cos", u "cos");
  (u "\\tan", u "tan");
  (u "\\log", u "log");
  (u "\\ln", u "ln");
  (u "\\lim", u "lim");
  (u "\\bar\{([^}]+)\}", overline_template);
  (u "\\partial", u "∂");
  (u "\\rightarrow", u "→");
  (u "\\vec\{([^}]+)\}", overline_template);
  (u "\\begin\{pmatrix\}", u "(");
  (u "\\end\{pmatrix\}", u ")");
  (u "\\det", u "det");
  (u "\\alpha", u "α");
  (u "\\beta", u "β");
  (u "\\gamma", u "γ");
  (u "\\delta", u "δ");
  (u "\\theta", u "θ");
  (u "\\lambda", u "λ");
  (u "\\mu", u "μ");
  (u "\\pi", u "π");
  (u "\\sigma", u "σ");
  (u "\\phi", u "φ");
  (u "\\omega", u "ω");
  (u "\\to", u "→");
  (u "\\in", u "∈");
  (u "\\subset", u "⊂");
  (u "\\cup", u "∪");
  (u "\\cap", u "∩");
  (u "\\sqrt", u "√");
  (u "e\^x", u "eˣ");
  (u "\^2", u "²");
  (u "\^3", u "³");
  (u "_\{([^}]+)\}", u "<sub>\1</sub>");
  (u "_([a-zA-Z0-9])", u "<sub>\1</sub>");
  (u "\^\{([^}]+)\}", u "<sup>\1</sup>");
  (u "\^([a-zA-Z0-9])", u "<sup>\1</sup>") ].

(** [for pattern, replacement in replacements.items():
     result = re.sub(pattern, replacement, result)] *)
Definition apply_replacements (table : list (str * str)) (formula : str) : str :=
fold_left (fun result pr => re_sub false (fst pr) (Template (snd pr)) result)
          table formula.

(** The chemical formulas, in the order of the source. *)
Definition chemical_formulas : list (str * str) :=
[ (u "H_2O", u "H₂O");
  (u "H_2", u "H₂");
  (u "O_2", u "O₂");
  (u "CH_4", u "CH₄");
  (u "CO_2", u "CO₂") ].

(** The substitutions before the table: exponents of [e], paired
  subscript and superscript, fractions, limits of sums and integrals,
  roots with an index, and the paired forms once more. *)
Definition structural_rewrites (formula : str) : str :=
let formula := re_sub false (u "e\^-([a-zA-Z0-9]+)") (Template (u "e<sup>-\1</sup>")) formula in
let formula := re_sub false (u "e\^\{([^}]+)\}") (Template (u "e<sup>\1</sup>")) formula in
let formula := re_sub false (u "_\{([^}]+)\}\^\{([^}]+)\}")
                      (Template (u "<sub>\1</sub><sup>\2</sup>")) formula in
let formula := re_sub false (u "\^\{([^}]+)\}_\{([^}]+)\}")
                      (Template (u "<sup>\1</sup><sub>\2</sub>")) formula in
let formula := re_sub false (u "\\frac\{([^}]+)\}\{([^}]+)\}")
                      (Callable frac_command_replacer) formula in
let formula := re_sub false (u "(\d+)/(\d+)")
                      (Template (u "<sup>\1</sup>&frasl;<sub>\2</sub>")) formula in
let formula := re_sub false (u "\\sum_\{([^}]+)\}\^\{([^}]+)\}")
                      (Callable sum_replacer) formula in
let formula := re_sub false (u "\\int_\{([^}]+)\}\^\{([^}]+)\}")
                      (Callable int_replacer) formula in
let formula := re_sub false (u "\\sqrt\[(\d+)\]\{([^}]+)\}")
                      (Callable sqrt_replacer) formula in
let formula := re_sub false (u "_\{([^}]+)\}\^\{([^}]+)\}")
                      (Template (u "<sub>\1</sub><sup>\2</sup>")) formula in
let formula := re_sub false (u "\^\{([^}]+)\}_\{([^}]+)\}")
                      (Template (u "<sup>\1</sup><sub>\2</sub>")) formula in
formula.

(** [ConvertThread.simplify_math_formula(self, formula)] *)
Definition simplify_math_formula (self : ConvertThread) (formula : str) : str :=
let formula := structural_rewrites formula in
let result := formula in
let result := apply_replacements replacements result in
let result := re_sub false (u "H_2O") (Template (u "H₂O")) result in
let result := re_sub false (u "H_2") (Template (u "H₂")) result in
let result := re_sub false (u "O_2") (Template (u "O₂")) result in
let result := re_sub false (u "CH_4") (Template (u "CH₄")) result in
let result := re_sub false (u "CO_2") (Template (u "CO₂")) result in
result.

End Math.
Import Math.

Definition self0 : ConvertThread :=
  {| input_files := inr []; output_dir := []; header_edit := []; footer_edit := [];
     page_size_combo := u "A4";
     margin_spinboxes := {| top := 20; right := 15; bottom := 20; left := 15 |};
     encoding_combo := u "UTF-8"; is_batch_mode := true |}.


(** ** Exceptions, effects and the worker's state *)

(** An exception that [except Exception] catches, by its [str(e)]. *)
Definition Exception : Type := str.

Inductive Exc (A : Type) : Type :=
| Ok (a : A)
| Raise (e : Exception).
Arguments Ok {A} a.
Arguments Raise {A} e.

(** ** The Markdown step: [convert_markdown_with_math] and
       [process_math_formulas] *)

(** A Python value of an options dictionary. *)
Inductive pyval : Type :=
| PyStr (s : str)
| PyBool (b : bool).

Section Markdown.

(** [markdown.Markdown(extensions=.., extension_configs=..).convert(text)]
    on a converter made for this one call: the library is a function of
    the extension names, their configuration and the text, and it may
    raise. *)
Variable markdown_convert :
  list str -> list (str * list (str * pyval)) -> str -> Exc str.

Definition inline_pattern : str := u "\$(.*?)\$".
Definition block_pattern : str := u "\$\$(.*?)\$\$".

Definition inline_math_replacer (self : ConvertThread) (m : captures) : str :=
  let formula := group m 1 in
  let formula := simplify_math_formula self formula in
  span_open (u "math-inline") ++ formula ++ u "</span>".

Definition block_math_replacer (self : ConvertThread) (m : captures) : str :=
  let formula := group m 1 in
  let formula := simplify_math_formula self formula in
  u "<div class=" ++ dq ++ u "math-display" ++ dq ++ u ">" ++ formula ++ u "</div>".

(** The first pass of [process_math_formulas]: the inline pattern on the
    Markdown source. *)
Definition inline_pass (self : ConvertThread) (original_markdown : str) : str :=
  re_sub false inline_pattern (Callable (inline_math_replacer self)) original_markdown.

(** Its second pass: the block pattern, with [re.DOTALL], on the result
    of the first. *)
Definition block_pass (self : ConvertThread) (processed_content : str) : str :=
  re_sub true block_pattern (Callable (block_math_replacer self)) processed_content.

(** [processed_content] of [process_math_formulas]: the Markdown source
    after both substitutions. *)
Definition substitute_math (self : ConvertThread) (original_markdown : str) : str :=
  let processed_content := inline_pass self original_markdown in
  let processed_content := block_pass self processed_content in
  processed_content.

Definition second_pass_extensions : list str :=
  [u "extra"; u "codehilite"; u "nl2br"; u "sane_lists"].

(** [ConvertThread.process_math_formulas(self, html_content,
    original_markdown)]; the bare [except] returns [html_content]. *)
Definition process_math_formulas (self : ConvertThread)
           (html_content original_markdown : str) : str :=
  let processed_content := substitute_math self original_markdown in
  match markdown_convert second_pass_extensions [] processed_content with
  | Ok final_html => final_html
  | Raise _ => html_content
  end.

Definition md_extensions : list str :=
  [u "extra"; u "codehilite"; u "toc"; u "nl2br"; u "sane_lists"].

Definition extension_configs : list (str * list (str * pyval)) :=
  [ (u "codehilite",
     [ (u "use_pygments", PyBool false); (u "css_class", PyStr (u "highlight")) ]) ].

(** [ConvertThread.convert_markdown_with_math(self, original_markdown)]:
    the HTML, and the line given to [logger.error] when the first
    conversion raises. *)
Definition convert_markdown_with_math (self : ConvertThread) (original_markdown : str)
  : str * option str :=
  match markdown_convert md_extensions extension_configs original_markdown with
  | Ok html_content =>
    let html_content := process_math_formulas self html_content original_markdown in
    (html_content, None)
  | Raise e =>
    (u "<pre>" ++ original_markdown ++ u "</pre>",
     Some (u "Markdown转换失败: " ++ e))
  end.

End Markdown.

(** ** [create_pdf_options] *)

(** Truth value of an optional path: [None] and the empty string are
    false. *)
Definition truthy (p : option str) : bool :=
  match p with
  | Some (_ :: _) => true
  | _ => false
  end.

Definition base_options (self : ConvertThread) : gmap str pyval :=
  let margins_top := str_of_Z (top (margin_spinboxes self)) ++ u "mm" in
  let margins_right := str_of_Z (right (margin_spinboxes self)) ++ u "mm" in
  let margins_bottom := str_of_Z (bottom (margin_spinboxes self)) ++ u "mm" in
  let margins_left := str_of_Z (left (margin_spinboxes self)) ++ u "mm" in
  <[u "footer-font-size" := PyStr (u "10")]>
  (<[u "footer-right" := PyStr (u "[page]/[toPage]")]>
  (<[u "footer-spacing" := PyStr (u "5")]>
  (<[u "header-spacing" := PyStr (u "5")]>
  (<[u "disable-javascript" := PyBool true]>
  (<[u "no-images" := PyBool false]>
  (<[u "disable-internal-links" := PyBool true]>
  (<[u "disable-external-links" := PyBool true]>
  (<[u "enable-local-file-access" := PyBool true]>
  (<[u "encoding" := PyStr (encoding_combo self)]>
  (<[u "margin-left" := PyStr margins_left]>
  (<[u "margin-bottom" := PyStr margins_bottom]>
  (<[u "margin-right" := PyStr margins_right]>
  (<[u "margin-top" := PyStr margins_top]>
  (<[u "page-size" := PyStr (page_size_combo self)]> ∅)))))))))))))).

(** [ConvertThread.create_pdf_options(self, header_path, footer_path)];
    the dictionary as a finite map (the order of its keys plays no part
    here). *)
Definition create_pdf_options (self : ConvertThread) (header_path footer_path : option str)
  : gmap str pyval :=
  let options := base_options self in
  let options :=
    if truthy header_path
    then <[u "header-html" := PyStr (default [] header_path)]> options
    else options in
  let options :=
    if truthy footer_path
    then <[u "footer-html" := PyStr (default [] footer_path)]> options
    else options in
  options.

(** ** Progress: [int((i / total_files) * 100)] *)

Module Float.

(** IEEE 754 binary64, Python's [float]. *)
Definition prec : Z := 53.
Definition emax : Z := 1024.

(** [float(z)]: exact below [2^53]. *)
Definition of_int (z : Z) : spec_float := binary_normalize prec emax z 0 false.

(** [a / b] on integers (true division), for operands below [2^53]. *)
Definition truediv (a b : Z) : spec_float := SFdiv prec emax (of_int a) (of_int b).

(** [x * n] with an integer [n]. *)
Definition mul_int (x : spec_float) (n : Z) : spec_float :=
  SFmul prec emax x (of_int n).

(** [int(x)]: truncation toward zero. On an infinity or a NaN Python
    raises; the worker converts [(i / total) * 100] with
    [1 <= i <= total] only, and the result here is [0]. *)
Definition to_int (x : spec_float) : Z :=
  match x with
  | S754_finite s m e =>
    let v := match e with
             | Zneg p => (Zpos m / 2 ^ Zpos p)%Z
             | _ => (Zpos m * 2 ^ e)%Z
             end in
    if s then (- v)%Z else v
  | _ => 0%Z
  end.

(** [round(x)]: the nearest integer, a tie going to the even one. *)
Definition round_half_even (x : spec_float) : Z :=
  match x with
  | S754_finite s m e =>
    let v := match e with
             | Zneg p =>
               let d := (2 ^ Zpos p)%Z in
               let q := (Zpos m / d)%Z in
               match (2 * (Zpos m mod d) ?= d)%Z with
               | Lt => q
               | Gt => (q + 1)%Z
               | Eq => if Z.even q then q else (q + 1)%Z
               end
             | _ => (Zpos m * 2 ^ e)%Z
             end in
    if s then (- v)%Z else v
  | _ => 0%Z
  end.

End Float.

(** [int((i / total_files) * 100)] *)
Definition percent (i total_files : Z) : Z :=
  Float.to_int (Float.mul_int (Float.truediv i total_files) 100).

(** The progress as the specification words it:
    [round(completedCount / totalCount * 100)]. *)
Definition rounded_percent (completed_count total_count : Z) : Z :=
  Float.round_half_even (Float.mul_int (Float.truediv completed_count total_count) 100).


(** ** The world of the worker *)

(** The four signals of [ConvertThread]. *)
Inductive Signal : Type :=
| progress (value : Z)
| finished
| error (msg : str)
| log_message (msg : str).

Inductive Level : Type := INFO | WARNING | ERROR.

(** What the worker does to its surroundings, in order: signals emitted,
    lines given to [logger], and calls on the file system and on the
    renderer (a call is recorded whether it succeeds or raises). *)
Inductive Event : Type :=
| Emit (s : Signal)
| Logged (lvl : Level) (msg : str)
| ReadFile (path : str)
| WriteFile (path : str)
| RemoveFile (path : str)
| Render (output_path : str).

(** The files that exist, with their contents, and the events so far. *)
Record World : Type := {
  fs : gmap str str;
  trace : list Event
}.

(** The local variables of [run] that its handlers read. *)
Record Locals : Type := {
  file_name : option str;
  header_path : option str;
  footer_path : option str
}.

Record Frame : Type := {
  world : World;
  locals : Locals
}.

Definition record (e : Event) (w : World) : World :=
  {| fs := fs w; trace := trace w ++ [e] |}.

Definition set_fs (f : gmap str str) (w : World) : World :=
  {| fs := f; trace := trace w |}.

(** *** Computations that read and change the frame and may raise *)

Definition M (A : Type) : Type := Frame -> Exc A * Frame.

#[global] Instance M_ret : MRet M := fun A (a : A) s => (Ok a, s).

#[global] Instance M_bind : MBind M := fun A B (k : A -> M B) (m : M A) s =>
  match m s with
  | (Ok a, s') => k a s'
  | (Raise e, s') => (Raise e, s')
  end.

Definition raise {A} (e : Exception) : M A := fun s => (Raise e, s).

(** [try: m  except Exception as e: h e] *)
Definition try_except {A} (m : M A) (h : Exception -> M A) : M A :=
  fun s =>
    match m s with
    | (Ok a, s') => (Ok a, s')
    | (Raise e, s') => h e s'
    end.

(** [try: m  finally: f]: [f] runs on every way out of [m]; an exception
    of [f] replaces the outcome of [m]. *)
Definition try_finally {A} (m : M A) (f : M unit) : M A :=
  fun s =>
    match m s with
    | (r, s') =>
      match f s' with
      | (Ok _, s'') => (r, s'')
      | (Raise e, s'') => (Raise e, s'')
      end
    end.

Definition get_locals : M Locals := fun s => (Ok (locals s), s).

Definition set_locals (l : Locals) : M unit :=
  fun s => (Ok tt, {| world := world s; locals := l |}).

Definition get_world : M World := fun s => (Ok (world s), s).

Definition modify_world (f : World -> World) : M unit :=
  fun s => (Ok tt, {| world := f (world s); locals := locals s |}).

Definition emit (sg : Signal) : M unit := modify_world (record (Emit sg)).

Definition logger (lvl : Level) (msg : str) : M unit :=
  modify_world (record (Logged lvl msg)).

(** [for x in xs: body x] *)
Fixpoint for_each {A} (xs : list A) (body : A -> M unit) : M unit :=
  match xs with
  | [] => mret tt
  | x :: xs' => body x ;; for_each xs' body
  end.

(** [enumerate(xs, start)] *)
Fixpoint enumerate {A} (xs : list A) (start : Z) : list (Z * A) :=
  match xs with
  | [] => []
  | x :: xs' => (start, x) :: enumerate xs' (start + 1)
  end.

(** ** The worker: [cleanup_temp_files] and [run] *)

(** [wk_manager.download_wkhtmltopdf()] *)
Definition download_wkhtmltopdf : str :=
  let download_url := u "https://wkhtmltopdf.org/downloads.html" in
  u "未找到wkhtmltopdf工具！" ++ nl ++ nl
  ++ u "请按照以下步骤操作：" ++ nl
  ++ u "1. 访问官方下载页面：" ++ download_url ++ nl
  ++ u "2. 根据您的系统选择合适的版本下载" ++ nl
  ++ u "3. 安装时建议选择完整版（包含GUI组件）" ++ nl
  ++ u "4. 安装完成后重启本程序" ++ nl
  ++ u "5. 或者手动指定wkhtmltopdf.exe的路径" ++ nl ++ nl
  ++ u "常见安装路径：" ++ nl
  ++ u "- C:\Program Files\wkhtmltopdf\bin\wkhtmltopdf.exe" ++ nl
  ++ u "- C:\Program Files (x86)\wkhtmltopdf\bin\wkhtmltopdf.exe" ++ nl ++ nl
  ++ u "注意：需要下载包含GUI组件的完整版本。".

(** The flow of control out of the body of the [for] loop's [try]. *)
Inductive Flow : Type :=
| FallThrough        (* the [try] block ran to its end *)
| Continue.          (* the handler's [continue] *)

Section Worker.

Variable markdown_convert :
  list str -> list (str * list (str * pyval)) -> str -> Exc str.

(** [wk_manager.validate_wkhtmltopdf()]: the engine self-check. *)
Variable validate_wkhtmltopdf : World -> bool * str.

(** [os.path.basename], [os.path.splitext], [os.path.join],
    [os.path.abspath]. *)
Variable os_path_basename : str -> str.
Variable os_path_splitext : str -> str * str.
Variable os_path_join : str -> str -> str.
Variable os_path_abspath : str -> str.

(** [open(path, 'r', encoding='utf-8')] and [f.read()]: the text, or the
    exception of a missing, unreadable or undecodable file. *)
Variable read_text : World -> str -> Exc str.

(** [open(path, 'w', encoding='utf-8')] and [f.write(text)]: [None] when
    the text is written; else the exception and what is left at [path]. *)
Variable write_fault : World -> str -> str -> option (Exception * option str).

(** [os.remove(path)] on an existing file: [None] when it is removed. *)
Variable remove_fault : World -> str -> option Exception.

(** [pdfkit.from_string(html, output_path, options=..,
    configuration=config)]: the PDF written, or the exception and what
    is left at [output_path]. *)
Variable pdfkit_from_string :
  World -> str -> str -> gmap str pyval -> str + Exception * option str.

(** The fixed text of [create_html_template] before and after
    [html_content], and [create_header_footer_html]. *)
Variable template_head template_tail : str.
Variable create_header_footer_html : str -> bool -> str.

Definition create_html_template (html_content : str) : str :=
  template_head ++ html_content ++ template_tail.

Definition put_file (path : str) (left : option str) (w : World) : World :=
  match left with
  | Some content => set_fs (<[path := content]> (fs w)) w
  | None => w
  end.

Definition lift {A} (f : World -> Exc A * World) : M A :=
  fun s =>
    match f (world s) with
    | (r, w') => (r, {| world := w'; locals := locals s |})
    end.

Definition open_read (path : str) : M str :=
  lift (fun w => (read_text w path, record (ReadFile path) w)).

Definition open_write (path text : str) : M unit :=
  lift (fun w =>
    let w' := record (WriteFile path) w in
    match write_fault w path text with
    | None => (Ok tt, put_file path (Some text) w')
    | Some (e, left) => (Raise e, put_file path left w')
    end).

Definition os_path_exists (w : World) (path : str) : bool :=
  bool_decide (is_Some (fs w !! path)).

Definition os_remove (path : str) : M unit :=
  lift (fun w =>
    let w' := record (RemoveFile path) w in
    match remove_fault w path with
    | None => (Ok tt, set_fs (delete path (fs w)) w')
    | Some e => (Raise e, w')
    end).

Definition pdfkit_call (html output_path : str) (options : gmap str pyval) : M unit :=
  lift (fun w =>
    let w' := record (Render output_path) w in
    match pdfkit_from_string w html output_path options with
    | inl pdf => (Ok tt, put_file output_path (Some pdf) w')
    | inr (e, left) => (Raise e, put_file output_path left w')
    end).

(** [ConvertThread.cleanup_temp_files(self, *temp_files)] *)
Definition cleanup_temp_files (temp_files : list (option str)) : M unit :=
  for_each temp_files (fun temp_file =>
    w ← get_world;
    if truthy temp_file && os_path_exists w (default [] temp_file) then
      try_except
        (os_remove (default [] temp_file))
        (fun e => logger WARNING
           (u "清理临时文件失败 " ++ default [] temp_file ++ u ": " ++ e))
    else mret tt).

Definition set_file_name (v : option str) : M unit :=
  l ← get_locals;
  set_locals {| file_name := v; header_path := header_path l; footer_path := footer_path l |}.

Definition set_header_path (v : option str) : M unit :=
  l ← get_locals;
  set_locals {| file_name := file_name l; header_path := v; footer_path := footer_path l |}.

Definition set_footer_path (v : option str) : M unit :=
  l ← get_locals;
  set_locals {| file_name := file_name l; header_path := header_path l; footer_path := v |}.

Definition nonempty (s : str) : bool :=
  match s with [] => false | _ :: _ => true end.

(** The [try] block of the loop body, for the [i]-th file. *)
Definition convert_one (self : ConvertThread) (i total_files : Z) (file_path : str)
  : M unit :=
  set_header_path None;;
  set_footer_path None;;
  let file_name := os_path_basename file_path in
  set_file_name (Some file_name);;
  let output_filename := fst (os_path_splitext file_name) ++ u ".pdf" in
  let output_path := os_path_abspath (os_path_join (output_dir self) output_filename) in
  emit (log_message (u "[" ++ str_of_Z i ++ u "/" ++ str_of_Z total_files
                       ++ u "] 正在处理: " ++ file_name));;
  original_markdown ← open_read file_path;
  let '(html_content, complaint) :=
    convert_markdown_with_math markdown_convert self original_markdown in
  match complaint with
  | Some line => logger ERROR line
  | None => mret tt
  end;;
  let header := strip (header_edit self) in
  let footer := strip (footer_edit self) in
  set_header_path None;;
  set_footer_path None;;
  (if nonempty header then
     let header_path :=
       os_path_join (output_dir self) (u "header_temp_" ++ str_of_Z i ++ u ".html") in
     set_header_path (Some header_path);;
     let header_html := create_header_footer_html header true in
     open_write header_path header_html
   else mret tt);;
  (if nonempty footer then
     let footer_path :=
       os_path_join (output_dir self) (u "footer_temp_" ++ str_of_Z i ++ u ".html") in
     set_footer_path (Some footer_path);;
     let footer_html := create_header_footer_html footer false in
     open_write footer_path footer_html
   else mret tt);;
  let html_template := create_html_template html_content in
  l ← get_locals;
  let options := create_pdf_options self (header_path l) (footer_path l) in
  pdfkit_call html_template output_path options;;
  emit (log_message (u "✓ 成功生成: " ++ output_filename)).

(** The [except Exception as e] block of the loop body. *)
Definition on_failure (e : Exception) : M unit :=
  l ← get_locals;
  let error_msg :=
    u "处理文件 " ++ default (u "未知文件") (file_name l) ++ u " 时出错: " ++ e in
  emit (log_message (u "✗ " ++ error_msg));;
  logger ERROR error_msg.

(** [finally: self.cleanup_temp_files(header_path, footer_path)] *)
Definition cleanup : M unit :=
  l ← get_locals;
  cleanup_temp_files [header_path l; footer_path l].

(** One turn of the [for] loop: [try] / [except] (ending in [continue])
    / [finally], then the progress update, which [continue] skips. *)
Definition iteration (self : ConvertThread) (total_files : Z) (item : Z * str) : M unit :=
  let '(i, file_path) := item in
  flow ← try_finally
            (try_except
               (convert_one self i total_files file_path;; mret FallThrough)
               (fun e => on_failure e;; mret Continue))
            cleanup;
  match flow with
  | Continue => mret tt
  | FallThrough =>
    let progress_value := percent i total_files in
    emit (progress progress_value)
  end.

(** The statements of [run] after the engine check. *)
Definition convert_all (self : ConvertThread) : M unit :=
  '(files_to_process, total_files) ←
    match input_files self with
    | inl file =>
      emit (log_message (u "开始转换单个文件..."));;
      mret ([file], 1%Z)
    | inr files =>
      let total_files := Z.of_nat (length files) in
      emit (log_message (u "开始转换 " ++ str_of_Z total_files ++ u " 个文件..."));;
      mret (files, total_files)
    end;
  if (total_files =? 0)%Z then
    emit (error (u "没有找到要转换的文件！"))
  else
    for_each (enumerate files_to_process 1) (iteration self total_files);;
    emit (log_message (u "转换完成！"));;
    emit finished.

(** [ConvertThread.run(self)] *)
Definition run (self : ConvertThread) : M unit :=
  try_except
    (w ← get_world;
     let '(is_valid, validation_msg) := validate_wkhtmltopdf w in
     if negb is_valid then
       emit (error (u "wkhtmltopdf验证失败：" ++ validation_msg ++ nl ++ nl
                      ++ download_wkhtmltopdf))
     else convert_all self)
    (fun e =>
       let error_msg := u "转换过程发生严重错误: " ++ e in
       logger ERROR error_msg;;
       emit (error error_msg)).

End Worker.

(** * Properties *)

(** ** The options of the renderer *)

(** C5. Whatever the page size, the margins, the encoding and the
    header and footer paths, the options of the renderer disable
    JavaScript and external and internal links, enable local file
    access, set the header and footer spacing to 5, the right footer to
    [[page]/[toPage]] and the footer font size to 10. *)
Theorem create_pdf_options_fixed_entries
        (self : ConvertThread) (header_path footer_path : option str) :
  let options := create_pdf_options self header_path footer_path in
  options !! u "disable-javascript" = Some (PyBool true) ∧
  options !! u "disable-external-links" = Some (PyBool true) ∧
  options !! u "disable-internal-links" = Some (PyBool true) ∧
  options !! u "enable-local-file-access" = Some (PyBool true) ∧
  options !! u "header-spacing" = Some (PyStr (u "5")) ∧
  options !! u "footer-spacing" = Some (PyStr (u "5")) ∧
  options !! u "footer-right" = Some (PyStr (u "[page]/[toPage]")) ∧
  options !! u "footer-font-size" = Some (PyStr (u "10")).
Proof.
  cbv zeta. unfold create_pdf_options.
  destruct (truthy header_path), (truthy footer_path);
    vm_compute; repeat split; reflexivity.
Qed.

(** ** The symbol table *)

Definition is_ascii_letter (c : N) : bool :=
  ((65 <=? c) && (c <=? 90)) || ((97 <=? c) && (c <=? 122)).

(** The command a pattern of [replacements] stands for, when the pattern
    is an escaped backslash and a name. *)
Definition command_of (pattern : str) : option str :=
  match pattern with
  | 92 :: 92 :: name =>
    if forallb is_ascii_letter name then Some (92 :: name) else None
  | _ => None
  end.

(** The entries of [replacements] that replace a command by a symbol:
    the command as it stands in a formula, and the symbol. *)
Definition symbol_table : list (str * str) :=
  omap (fun pr => match command_of (fst pr) with
                  | Some cmd => Some (cmd, snd pr)
                  | None => None
                  end) replacements.

Lemma contains_char_false (c : N) (s : str) :
  contains_char c s = false -> ¬ In c s.
Proof.
  unfold contains_char. intros H Hin.
  assert (E : existsb (N.eqb c) s = true).
  { apply existsb_exists. exists c. split; [exact Hin | apply N.eqb_refl]. }
  congruence.
Qed.

Lemma symbol_table_commands :
  List.map fst symbol_table
  = List.map (fun name => 92 :: u name)
      [ "int"; "sum"; "prod"; "infty"; "pm"; "times"; "cdot"; "leq"; "geq";
        "neq"; "approx"; "sin"; "cos"; "tan"; "log"; "ln"; "lim"; "partial";
        "rightarrow"; "det"; "alpha"; "beta"; "gamma"; "delta"; "theta";
        "lambda"; "mu"; "pi"; "sigma"; "phi"; "omega"; "to"; "in"; "subset";
        "cup"; "cap"; "sqrt" ]%string.
Proof. vm_compute. reflexivity. Qed.

(** The symbol table as the specification writes it (§4.1g): each
    command with the character, or the plain name, that stands for it.
    The Greek letters are written out: the eleven that the table of the
    code holds. *)
Definition expected_symbols : list (str * str) :=
  [ (u "\int", u "∫"); (u "\sum", u "∑"); (u "\prod", u "∏"); (u "\infty", u "∞");
    (u "\pm", u "±"); (u "\times", u "×"); (u "\cdot", u "·"); (u "\leq", u "≤");
    (u "\geq", u "≥"); (u "\neq", u "≠"); (u "\approx", u "≈");
    (u "\sin", u "sin"); (u "\cos", u "cos"); (u "\tan", u "tan");
    (u "\log", u "log"); (u "\ln", u "ln"); (u "\lim", u "lim");
    (u "\partial", u "∂"); (u "\rightarrow", u "→"); (u "\to", u "→");
    (u "\in", u "∈"); (u "\subset", u "⊂"); (u "\cup", u "∪"); (u "\cap", u "∩");
    (u "\sqrt", u "√");
    (u "\alpha", u "α"); (u "\beta", u "β"); (u "\gamma", u "γ");
    (u "\delta", u "δ"); (u "\theta", u "θ"); (u "\lambda", u "λ");
    (u "\mu", u "μ"); (u "\pi", u "π"); (u "\sigma", u "σ"); (u "\phi", u "φ");
    (u "\omega", u "ω");
    (u "\det", u "det") ].

(** The Greek letters of the range [\alpha..\omega] that the table of
    the code does not hold. *)
Definition other_greek_letters : list str :=
  [ u "\epsilon"; u "\zeta"; u "\eta"; u "\iota"; u "\kappa"; u "\nu"; u "\xi";
    u "\rho"; u "\tau"; u "\upsilon"; u "\chi"; u "\psi" ].

Lemma expected_symbols_check (self : ConvertThread) :
  forallb (fun entry =>
             str_eqb (simplify_math_formula self (fst entry)) (snd entry)
             && negb (contains_char 92 (snd entry)))
          expected_symbols = true.
Proof. vm_compute. reflexivity. Qed.

(** The entries of [expected_symbols] are the command entries of
    [replacements], all of them. *)
Lemma expected_symbols_are_the_table :
  length expected_symbols = length symbol_table ∧
  forallb (fun entry =>
             existsb (fun entry' => str_eqb (fst entry) (fst entry')
                                    && str_eqb (snd entry) (snd entry'))
                     symbol_table)
          expected_symbols = true.
Proof. split; vm_compute; reflexivity. Qed.

(** C7, as the code has it. For each command of the symbol table
    written out in [expected_symbols], normalising a formula that is
    just that command gives exactly the character or the plain name
    written beside it, and the result holds no backslash. *)
Theorem symbol_table_coverage (self : ConvertThread) :
  Forall (fun entry =>
            simplify_math_formula self (fst entry) = snd entry ∧
            ¬ In 92 (simplify_math_formula self (fst entry)))
         expected_symbols.
Proof.
  apply Forall_forall. intros entry Hin.
  pose proof (expected_symbols_check self) as H.
  rewrite forallb_forall in H.
  specialize (H entry (proj1 (list_elem_of_In _ _) Hin)).
  apply andb_prop in H as [Heq Hbs].
  unfold str_eqb in Heq. apply bool_decide_eq_true in Heq.
  apply negb_true_iff in Hbs. apply contains_char_false in Hbs.
  rewrite Heq. auto.
Qed.

(** A command outside the table, such as [\epsilon], is left as it is. *)
Example epsilon_unchanged (self : ConvertThread) :
  simplify_math_formula self (u "\epsilon") = u "\epsilon".
Proof. vm_compute. reflexivity. Qed.

(** C7 as it is stated, for the Greek letters from [\alpha] to
    [\omega], fails at [\epsilon]: the result is the command itself,
    with its backslash (code point 92) and without the letter ε (code
    point 949). *)
Lemma epsilon_keeps_its_backslash :
  let result := simplify_math_formula self0 (u "\epsilon") in
  result = u "\epsilon" ∧
  In 92 result ∧
  u "ε" = [949] ∧
  ¬ In 949 result.
Proof.
  vm_compute. repeat split; auto.
  intros H. repeat (destruct H as [H | H]; [ discriminate H | ]). exact H.
Qed.

(** The same holds of every other Greek letter outside the table. *)
Example other_greek_letters_unchanged (self : ConvertThread) :
  Forall (fun command => simplify_math_formula self command = command)
         other_greek_letters.
Proof. repeat constructor; vm_compute; reflexivity. Qed.

(** ** The chemical formulas *)

(** C8, on the formulas of the table. The single-character subscript
    rule of [replacements] has rewritten [_2] and [_4] before the
    chemical formulas are looked for: none of them is rewritten to its
    Unicode form. *)
Theorem chemical_formulas_not_rewritten (self : ConvertThread) :
  List.map (fun entry => simplify_math_formula self (fst entry)) chemical_formulas
  = [ u "H<sub>2</sub>O"; u "H<sub>2</sub>"; u "O<sub>2</sub>";
      u "CH<sub>4</sub>"; u "CO<sub>2</sub>" ]
  ∧ Forall (fun entry => simplify_math_formula self (fst entry) ≠ snd entry)
           chemical_formulas.
Proof.
  split; [ vm_compute; reflexivity | ].
  repeat constructor; vm_compute; discriminate.
Qed.

(** ** Block math *)

Definition math_display_open : str :=
  u "<div class=" ++ dq ++ u "math-display" ++ dq ++ u ">".

(** C1, at the source [$$x$$]. The inline pattern runs first and takes
    each pair of dollar signs as an empty inline formula; the block
    pattern then finds nothing, and no [math-display] container is
    produced. *)
Theorem block_math_not_wrapped (self : ConvertThread) :
  inline_pass self (u "$$x$$")
  = span_open (u "math-inline") ++ u "</span>x"
    ++ span_open (u "math-inline") ++ u "</span>"
  ∧ substitute_math self (u "$$x$$") = inline_pass self (u "$$x$$")
  ∧ contains math_display_open (substitute_math self (u "$$x$$")) = false.
Proof. repeat split; vm_compute; reflexivity. Qed.

(** ** Reasoning about the worker's computations *)

(** The signals among some events, in order. *)
Definition signals_of (evs : list Event) : list Signal :=
  omap (fun ev => match ev with Emit sg => Some sg | _ => None end) evs.

(** [post m s Q]: from the frame [s], the computation [m] ends (normally
    or by an exception) in a frame whose trace is that of [s] followed by
    some events, and [Q] holds of the outcome, the final frame and these
    events. *)
Definition post {A} (m : M A) (s : Frame)
           (Q : Exc A -> Frame -> list Event -> Prop) : Prop :=
  ∃ r s' evs,
    m s = (r, s') ∧ trace (world s') = trace (world s) ++ evs ∧ Q r s' evs.

Lemma post_mono {A} (m : M A) s (Q Q' : Exc A -> Frame -> list Event -> Prop) :
  post m s Q -> (∀ r s' evs, Q r s' evs -> Q' r s' evs) -> post m s Q'.
Proof.
  intros (r & s' & evs & Hm & Ht & HQ) Himp.
  exists r, s', evs. auto.
Qed.

Lemma post_ret {A} (a : A) s (Q : Exc A -> Frame -> list Event -> Prop) :
  Q (Ok a) s [] -> post (mret a) s Q.
Proof.
  intros HQ. exists (Ok a), s, []. rewrite app_nil_r. auto.
Qed.

Lemma bind_unfold {A B} (m : M A) (k : A -> M B) (s : Frame) :
  (m ≫= k) s = match m s with
               | (Ok a, s') => k a s'
               | (Raise e, s') => (Raise e, s')
               end.
Proof. reflexivity. Qed.

Lemma post_bind {A B} (m : M A) (k : A -> M B) s
      (Q : Exc B -> Frame -> list Event -> Prop) :
  post m s (fun r s1 evs1 =>
              match r with
              | Ok a => post (k a) s1 (fun r2 s2 evs2 => Q r2 s2 (evs1 ++ evs2))
              | Raise e => Q (Raise e) s1 evs1
              end) ->
  post (m ≫= k) s Q.
Proof.
  intros (r & s1 & evs1 & Hm & Ht & HQ).
  destruct r as [a | e].
  - destruct HQ as (r2 & s2 & evs2 & Hk & Ht2 & HQ2).
    exists r2, s2, (evs1 ++ evs2).
    rewrite bind_unfold, Hm. split; [exact Hk | ].
    split; [ | exact HQ2]. rewrite Ht2, Ht. apply eq_sym, app_assoc.
  - exists (Raise e), s1, evs1.
    rewrite bind_unfold, Hm. auto.
Qed.

Lemma post_try_except {A} (m : M A) (h : Exception -> M A) s
      (Q : Exc A -> Frame -> list Event -> Prop) :
  post m s (fun r s1 evs1 =>
              match r with
              | Ok a => Q (Ok a) s1 evs1
              | Raise e => post (h e) s1 (fun r2 s2 evs2 => Q r2 s2 (evs1 ++ evs2))
              end) ->
  post (try_except m h) s Q.
Proof.
  intros (r & s1 & evs1 & Hm & Ht & HQ).
  destruct r as [a | e].
  - exists (Ok a), s1, evs1. unfold try_except. rewrite Hm. auto.
  - destruct HQ as (r2 & s2 & evs2 & Hk & Ht2 & HQ2).
    exists r2, s2, (evs1 ++ evs2).
    unfold try_except. rewrite Hm. split; [exact Hk | ].
    split; [ | exact HQ2]. rewrite Ht2, Ht. apply eq_sym, app_assoc.
Qed.

Lemma post_try_finally {A} (m : M A) (f : M unit) s
      (Q : Exc A -> Frame -> list Event -> Prop) :
  post m s (fun r s1 evs1 =>
              post f s1 (fun r2 s2 evs2 =>
                           match r2 with
                           | Ok _ => Q r s2 (evs1 ++ evs2)
                           | Raise e => Q (Raise e) s2 (evs1 ++ evs2)
                           end)) ->
  post (try_finally m f) s Q.
Proof.
  intros (r & s1 & evs1 & Hm & Ht & (r2 & s2 & evs2 & Hf & Ht2 & HQ)).
  destruct r2 as [[] | e].
  - exists r, s2, (evs1 ++ evs2). unfold try_finally. rewrite Hm, Hf.
    split; [reflexivity | ].
    split; [ | exact HQ]. rewrite Ht2, Ht. apply eq_sym, app_assoc.
  - exists (Raise e), s2, (evs1 ++ evs2). unfold try_finally. rewrite Hm, Hf.
    split; [reflexivity | ].
    split; [ | exact HQ]. rewrite Ht2, Ht. apply eq_sym, app_assoc.
Qed.

Lemma post_modify_world (f : World -> World) evs s
      (Q : Exc unit -> Frame -> list Event -> Prop) :
  trace (f (world s)) = trace (world s) ++ evs ->
  Q (Ok tt) {| world := f (world s); locals := locals s |} evs ->
  post (modify_world f) s Q.
Proof.
  intros Ht HQ. eexists (Ok tt), _, evs. split; [reflexivity | ]. auto.
Qed.

Lemma post_emit (sg : Signal) s (Q : Exc unit -> Frame -> list Event -> Prop) :
  Q (Ok tt) {| world := record (Emit sg) (world s); locals := locals s |} [Emit sg] ->
  post (emit sg) s Q.
Proof. intros HQ. apply post_modify_world with (evs := [Emit sg]); auto. Qed.

Lemma post_logger lvl msg s (Q : Exc unit -> Frame -> list Event -> Prop) :
  Q (Ok tt) {| world := record (Logged lvl msg) (world s); locals := locals s |}
    [Logged lvl msg] ->
  post (logger lvl msg) s Q.
Proof. intros HQ. apply post_modify_world with (evs := [Logged lvl msg]); auto. Qed.

Lemma post_get_locals s (Q : Exc Locals -> Frame -> list Event -> Prop) :
  Q (Ok (locals s)) s [] -> post get_locals s Q.
Proof. intros HQ. exists (Ok (locals s)), s, []. rewrite app_nil_r. auto. Qed.

Lemma post_get_world s (Q : Exc World -> Frame -> list Event -> Prop) :
  Q (Ok (world s)) s [] -> post get_world s Q.
Proof. intros HQ. exists (Ok (world s)), s, []. rewrite app_nil_r. auto. Qed.

Lemma post_set_locals l s (Q : Exc unit -> Frame -> list Event -> Prop) :
  Q (Ok tt) {| world := world s; locals := l |} [] -> post (set_locals l) s Q.
Proof. intros HQ. eexists (Ok tt), _, []. rewrite app_nil_r. split; [reflexivity|]. auto. Qed.

Lemma signals_of_emit (sg : Signal) (evs : list Event) :
  signals_of (Emit sg :: evs) = sg :: signals_of evs.
Proof. reflexivity. Qed.

Lemma signals_of_app (a b : list Event) :
  signals_of (a ++ b) = signals_of a ++ signals_of b.
Proof. unfold signals_of. apply omap_app. Qed.

(** ** The worker's loop *)

Section WorkerProperties.

Variable markdown_convert :
  list str -> list (str * list (str * pyval)) -> str -> Exc str.
Variable validate_wkhtmltopdf : World -> bool * str.
Variable os_path_basename : str -> str.
Variable os_path_splitext : str -> str * str.
Variable os_path_join : str -> str -> str.
Variable os_path_abspath : str -> str.
Variable read_text : World -> str -> Exc str.
Variable write_fault : World -> str -> str -> option (Exception * option str).
Variable remove_fault : World -> str -> option Exception.
Variable pdfkit_from_string :
  World -> str -> str -> gmap str pyval -> str + Exception * option str.
Variable template_head template_tail : str.
Variable create_header_footer_html : str -> bool -> str.

Local Abbreviation convert_one' :=
  (convert_one markdown_convert os_path_basename os_path_splitext os_path_join
               os_path_abspath read_text write_fault pdfkit_from_string
               template_head template_tail create_header_footer_html).
Local Abbreviation cleanup' := (cleanup remove_fault).
Local Abbreviation iteration' :=
  (iteration markdown_convert os_path_basename os_path_splitext os_path_join
             os_path_abspath read_text write_fault remove_fault pdfkit_from_string
             template_head template_tail create_header_footer_html).
Local Abbreviation convert_all' :=
  (convert_all markdown_convert os_path_basename os_path_splitext os_path_join
               os_path_abspath read_text write_fault remove_fault pdfkit_from_string
               template_head template_tail create_header_footer_html).
Local Abbreviation run' :=
  (run markdown_convert validate_wkhtmltopdf os_path_basename os_path_splitext
       os_path_join os_path_abspath read_text write_fault remove_fault
       pdfkit_from_string template_head template_tail create_header_footer_html).

(** The line of [logger.warning] when [temp_file] cannot be removed. *)
Definition cleanup_warning (temp_file : str) (e : Exception) : Event :=
  Logged WARNING (u "清理临时文件失败 " ++ temp_file ++ u ": " ++ e).

(** An event of the cleanup: a removal or a warning. *)
Definition cleanup_event (ev : Event) : Prop :=
  (∃ p, ev = RemoveFile p) ∨ (∃ p e, ev = cleanup_warning p e).

Lemma post_open_read path s (Q : Exc str -> Frame -> list Event -> Prop) :
  Q (read_text (world s) path)
    {| world := record (ReadFile path) (world s); locals := locals s |}
    [ReadFile path] ->
  post (open_read read_text path) s Q.
Proof.
  intros HQ. eexists _, _, [ReadFile path].
  split; [reflexivity | ]. split; [reflexivity | exact HQ].
Qed.

Lemma trace_put_file path left w : trace (put_file path left w) = trace w.
Proof. destruct left; reflexivity. Qed.

Lemma post_open_write path text s (Q : Exc unit -> Frame -> list Event -> Prop) :
  (∀ r w', trace w' = trace (world s) ++ [WriteFile path] ->
           Q r {| world := w'; locals := locals s |} [WriteFile path]) ->
  post (open_write write_fault path text) s Q.
Proof.
  intros HQ. unfold post, open_write, lift.
  destruct (write_fault (world s) path text) as [[e left] | ];
    eexists _, _, [WriteFile path];
    (split; [reflexivity | ]);
    (split; [ cbn [world]; rewrite trace_put_file; reflexivity | ]);
    apply HQ; rewrite trace_put_file; reflexivity.
Qed.

Lemma post_pdfkit_call html out options s
      (Q : Exc unit -> Frame -> list Event -> Prop) :
  (∀ r w', trace w' = trace (world s) ++ [Render out] ->
           Q r {| world := w'; locals := locals s |} [Render out]) ->
  post (pdfkit_call pdfkit_from_string html out options) s Q.
Proof.
  intros HQ. unfold post, pdfkit_call, lift.
  destruct (pdfkit_from_string (world s) html out options) as [pdf | [e left]];
    eexists _, _, [Render out];
    (split; [reflexivity | ]);
    (split; [ cbn [world]; rewrite trace_put_file; reflexivity | ]);
    apply HQ; rewrite trace_put_file; reflexivity.
Qed.

(** *** [cleanup_temp_files] *)

(** The removal of [p] failed among the events [evs], which come after
    the events [start]: [os.remove] was called on [p] in a world where
    the file exists, it raised [e], and the warning is the next event. *)
Definition removal_failed (p : str) (start evs : list Event) : Prop :=
  ∃ e w before after,
    evs = before ++ RemoveFile p :: cleanup_warning p e :: after ∧
    trace w = start ++ before ∧
    is_Some (fs w !! p) ∧
    remove_fault w p = Some e.

(** What the cleanup guarantees for a path: it is absent afterwards, or
    its removal was tried and failed, and a warning was logged. *)
Definition cleaned (p : str) (s s' : Frame) (evs : list Event) : Prop :=
  fs (world s') !! p = None ∨ removal_failed p (trace (world s)) evs.

Lemma removal_failed_shift (p : str) (start evs1 evs2 : list Event) :
  removal_failed p (start ++ evs1) evs2 -> removal_failed p start (evs1 ++ evs2).
Proof.
  intros (e & w & before & after & -> & Hw & Hex & Hrm).
  exists e, w, (evs1 ++ before), after.
  rewrite <- !app_assoc in *. auto.
Qed.

Lemma removal_failed_extend (p : str) (start evs1 evs2 : list Event) :
  removal_failed p start evs1 -> removal_failed p start (evs1 ++ evs2).
Proof.
  intros (e & w & before & after & -> & Hw & Hex & Hrm).
  exists e, w, before, (after ++ evs2).
  rewrite <- !app_assoc. auto.
Qed.

Lemma post_trace {A} (m : M A) s (Q : Exc A -> Frame -> list Event -> Prop) :
  post m s Q ->
  post m s (fun r s' evs => Q r s' evs ∧ trace (world s') = trace (world s) ++ evs).
Proof. intros (r & s' & evs & Hm & Ht & HQ). exists r, s', evs. auto. Qed.

Lemma cleanup_temp_files_spec (temp_files : list (option str)) (s : Frame) :
  post (cleanup_temp_files remove_fault temp_files) s
       (fun r s' evs =>
          r = Ok tt ∧ locals s' = locals s ∧
          Forall cleanup_event evs ∧
          (∀ q, fs (world s) !! q = None -> fs (world s') !! q = None) ∧
          (∀ p, In (Some p) temp_files -> p ≠ [] -> cleaned p s s' evs)).
Proof.
  revert s. induction temp_files as [ | temp_file rest IH]; intros s.
  - apply post_ret. repeat split; auto. intros p [].
  - unfold cleanup_temp_files. simpl for_each. fold (cleanup_temp_files remove_fault rest).
    apply post_bind. apply post_bind. apply post_get_world.
    assert (Tail : ∀ s1 evs1,
               trace (world s1) = trace (world s) ++ evs1 ->
               locals s1 = locals s ->
               Forall cleanup_event evs1 ->
               (∀ q, fs (world s) !! q = None -> fs (world s1) !! q = None) ->
               (∀ p, temp_file = Some p -> p ≠ [] ->
                     fs (world s1) !! p = None
                     ∨ removal_failed p (trace (world s)) evs1) ->
               post (cleanup_temp_files remove_fault rest) s1
                    (fun r2 s2 evs2 =>
                       r2 = Ok tt ∧ locals s2 = locals s ∧
                       Forall cleanup_event (([] ++ evs1) ++ evs2) ∧
                       (∀ q, fs (world s) !! q = None -> fs (world s2) !! q = None) ∧
                       (∀ p, In (Some p) (temp_file :: rest) -> p ≠ [] ->
                             cleaned p s s2 (([] ++ evs1) ++ evs2)))).
    { intros s1 evs1 Htrace Hl Hev Hmono Hfirst.
      eapply post_mono; [apply IH | ].
      intros r2 s2 evs2 (Hr & Hl2 & Hev2 & Hmono2 & Hrest).
      split; [exact Hr | ]. split; [congruence | ].
      split; [ simpl; apply Forall_app; auto | ].
      split; [ auto | ].
      intros p [Hp | Hp] Hne; cbn [app].
      - destruct (Hfirst p Hp Hne) as [Hnone | Hfailed].
        + left. auto.
        + right. apply removal_failed_extend. exact Hfailed.
      - destruct (Hrest p Hp Hne) as [Hnone | Hfailed].
        + left. exact Hnone.
        + right. apply removal_failed_shift. rewrite <- Htrace. exact Hfailed. }
    destruct (truthy temp_file) eqn:Htruthy; simpl andb.
    2: { apply post_ret. apply (Tail s []); auto using app_nil_r.
         intros p -> Hne. destruct p; [congruence | discriminate]. }
    destruct (os_path_exists (world s) (default [] temp_file)) eqn:Hex.
    2: { apply post_ret. apply (Tail s []); auto using app_nil_r.
         intros p -> Hne. left. simpl in Hex.
         unfold os_path_exists in Hex. apply bool_decide_eq_false in Hex.
         destruct (fs (world s) !! p) eqn:E; [ | reflexivity].
         exfalso. apply Hex. eauto. }
    unfold os_path_exists in Hex. apply bool_decide_eq_true in Hex.
    apply post_try_except. unfold os_remove, lift, post.
    destruct (remove_fault (world s) (default [] temp_file)) as [e | ] eqn:Hrm.
    + eexists (Raise e), _, [RemoveFile (default [] temp_file)].
      split; [reflexivity | ]. split; [reflexivity | ].
      apply post_logger.
      apply (Tail _ [RemoveFile (default [] temp_file);
                     cleanup_warning (default [] temp_file) e]).
      * cbn. rewrite <- app_assoc. reflexivity.
      * reflexivity.
      * constructor; [ left; eauto | ].
        constructor; [ right; unfold cleanup_warning; eauto | constructor ].
      * auto.
      * intros p -> Hne. right. cbn [default] in *.
        exists e, (world s), [], []. rewrite app_nil_r. auto.
    + eexists (Ok tt), _, [RemoveFile (default [] temp_file)].
      split; [reflexivity | ]. split; [reflexivity | ].
      apply (Tail _ [RemoveFile (default [] temp_file)]).
      * reflexivity.
      * reflexivity.
      * constructor; [ left; eauto | constructor ].
      * intros q Hq. simpl.
        destruct (decide (default [] temp_file = q)) as [-> | Hneq].
        -- apply lookup_delete_eq.
        -- rewrite lookup_delete_ne by exact Hneq. exact Hq.
      * intros p -> Hne. left. simpl. apply lookup_delete_eq.
Qed.

(** *** One file *)

(** The lines of the log for the [i]-th file. *)
Definition announcement (i total_files : Z) (file_path : str) : Signal :=
  log_message (u "[" ++ str_of_Z i ++ u "/" ++ str_of_Z total_files
                 ++ u "] 正在处理: " ++ os_path_basename file_path).

Definition success_line (file_path : str) : Signal :=
  log_message (u "✓ 成功生成: "
                 ++ (fst (os_path_splitext (os_path_basename file_path)) ++ u ".pdf")).

Definition failure_line (file_path : str) (e : Exception) : Signal :=
  log_message (u "✗ " ++ (u "处理文件 " ++ os_path_basename file_path
                            ++ u " 时出错: " ++ e)).

(** A path of a temporary header or footer file of the worker. *)
Definition temp_path (self : ConvertThread) (p : str) : Prop :=
  ∃ name, name ≠ [] ∧ p = os_path_join (output_dir self) name.

Lemma post_set_header_path v s (Q : Exc unit -> Frame -> list Event -> Prop) :
  Q (Ok tt) {| world := world s;
               locals := {| file_name := file_name (locals s); header_path := v;
                            footer_path := footer_path (locals s) |} |} [] ->
  post (set_header_path v) s Q.
Proof. intros HQ. eexists (Ok tt), _, []. rewrite app_nil_r. split; [reflexivity | auto]. Qed.

Lemma post_set_footer_path v s (Q : Exc unit -> Frame -> list Event -> Prop) :
  Q (Ok tt) {| world := world s;
               locals := {| file_name := file_name (locals s);
                            header_path := header_path (locals s);
                            footer_path := v |} |} [] ->
  post (set_footer_path v) s Q.
Proof. intros HQ. eexists (Ok tt), _, []. rewrite app_nil_r. split; [reflexivity | auto]. Qed.

Lemma post_set_file_name v s (Q : Exc unit -> Frame -> list Event -> Prop) :
  Q (Ok tt) {| world := world s;
               locals := {| file_name := v; header_path := header_path (locals s);
                            footer_path := footer_path (locals s) |} |} [] ->
  post (set_file_name v) s Q.
Proof. intros HQ. eexists (Ok tt), _, []. rewrite app_nil_r. split; [reflexivity | auto]. Qed.

Ltac post_step :=
  lazymatch goal with
  | |- post (mbind _ _) _ _ => apply post_bind
  | |- post (mret _) _ _ => apply post_ret
  | |- post (emit _) _ _ => apply post_emit
  | |- post (logger _ _) _ _ => apply post_logger
  | |- post get_locals _ _ => apply post_get_locals
  | |- post get_world _ _ => apply post_get_world
  | |- post (set_locals _) _ _ => apply post_set_locals
  | |- post (set_header_path _) _ _ => apply post_set_header_path
  | |- post (set_footer_path _) _ _ => apply post_set_footer_path
  | |- post (set_file_name _) _ _ => apply post_set_file_name
  | |- post (open_read _ _) _ _ => apply post_open_read
  | |- post (open_write _ _ _) _ _ => apply post_open_write; intros ? ? ?
  | |- post (pdfkit_call _ _ _ _) _ _ => apply post_pdfkit_call; intros ? ? ?
  end; cbn beta iota; cbn [world locals file_name header_path footer_path app].

(** The [try] block: it announces the file, and logs the success line
    when it runs to its end; it writes temporary files only, at the
    paths it has put in [header_path] and [footer_path]; it removes
    nothing. *)
Definition convert_one_post (self : ConvertThread) (i total_files : Z) (file_path : str)
           (r : Exc unit) (s' : Frame) (evs : list Event) : Prop :=
  file_name (locals s') = Some (os_path_basename file_path) ∧
  signals_of evs
  = announcement i total_files file_path
      :: match r with Ok _ => [success_line file_path] | Raise _ => [] end ∧
  (∀ p, In (WriteFile p) evs ->
        In (Some p) [header_path (locals s'); footer_path (locals s')]
        ∧ temp_path self p) ∧
  Forall (fun ev => ¬ cleanup_event ev) evs.

Lemma app_nonempty_l (a b : str) : a ≠ [] -> a ++ b ≠ [].
Proof. destruct a; [congruence | discriminate]. Qed.

Lemma WriteFile_inj (a b : str) : WriteFile a = WriteFile b -> a = b.
Proof. intros H. injection H. auto. Qed.

Ltac not_cleanup :=
  let H := fresh in
  intros [[? H] | [? [? H]]]; unfold cleanup_warning in H; discriminate H.

Ltac written_paths Hin :=
  repeat (destruct Hin as [Hin | Hin];
          [ first
              [ discriminate Hin
              | apply WriteFile_inj in Hin; subst;
                split; [ cbn [In]; auto
                       | eexists; split; [ | reflexivity ];
                         apply app_nonempty_l; vm_compute; discriminate ] ]
          | ]);
  contradiction.

Ltac close_post :=
  unfold convert_one_post; cbn [locals file_name header_path footer_path];
  split; [ reflexivity | ];
  split; [ reflexivity | ];
  split; [ let p := fresh "p" in let Hin := fresh "Hin" in
           intros p Hin; cbn [In] in Hin; written_paths Hin
         | repeat (constructor; [ not_cleanup | ]); constructor ].

Ltac crunch :=
  repeat first
    [ post_step
    | match goal with
      | |- context [read_text ?w ?p] => destruct (read_text w p)
      | |- post (let '(_, _) := ?x in _) _ _ => destruct x as [? [? | ]]
      | |- post (if ?b then _ else _) _ _ => destruct b
      | |- match ?r with Ok _ => _ | Raise _ => _ end => destruct r
      end; cbn beta iota
    | close_post ].

Lemma convert_one_spec (self : ConvertThread) (i total_files : Z) (file_path : str)
      (s : Frame) :
  post (convert_one' self i total_files file_path) s
       (convert_one_post self i total_files file_path).
Proof.
  unfold convert_one. crunch.
Qed.

Lemma post_result {A} (m : M A) s (Q : Exc A -> Frame -> list Event -> Prop) :
  post m s Q -> post m s (fun r s' evs => Q r s' evs ∧ m s = (r, s')).
Proof. intros (r & s' & evs & Hm & Ht & HQ). exists r, s', evs. auto. Qed.

(** The progress signal after the [i]-th file, when the [try] block ran
    to its end. *)
Definition progress_events (i total_files : Z) (r : Exc unit) : list Event :=
  match r with
  | Ok _ => [Emit (progress (percent i total_files))]
  | Raise _ => []
  end.

(** What one turn of the loop does, from the frame [s]: it never
    raises; after the announcement it emits the success line and the
    progress, or the failure line alone, according to the outcome of the
    [try] block; its events are those of the [try] block and of the
    handler (the announcement and the success or failure line among
    them), then those of the cleanup, then the progress; every file it
    wrote is a temporary file, absent at the end unless its removal was
    tried during the cleanup and failed. *)
Definition iteration_post (self : ConvertThread) (total_files i : Z) (file_path : str)
           (s : Frame) (r : Exc unit) (s' : Frame) (evs : list Event) : Prop :=
  let outcome := fst (convert_one' self i total_files file_path s) in
  r = Ok tt ∧
  signals_of evs
  = announcement i total_files file_path
      :: match outcome with
         | Ok _ => [success_line file_path; progress (percent i total_files)]
         | Raise e => [failure_line file_path e]
         end ∧
  (∃ body cleanup_evs,
      evs = body ++ cleanup_evs ++ progress_events i total_files outcome ∧
      Forall (fun ev => ¬ cleanup_event ev) body ∧
      Forall cleanup_event cleanup_evs ∧
      signals_of body
      = announcement i total_files file_path
          :: match outcome with
             | Ok _ => [success_line file_path]
             | Raise e => [failure_line file_path e]
             end ∧
      (∀ p, In (WriteFile p) body ->
            temp_path self p ∧
            (p ≠ [] ->
             fs (world s') !! p = None
             ∨ removal_failed p (trace (world s) ++ body) cleanup_evs))).

Lemma cleanup_spec (s : Frame) :
  post cleanup' s
       (fun r s' evs =>
          r = Ok tt ∧ locals s' = locals s ∧
          Forall cleanup_event evs ∧
          (∀ p, In (Some p) [header_path (locals s); footer_path (locals s)] ->
                p ≠ [] -> cleaned p s s' evs)).
Proof.
  unfold cleanup. apply post_bind, post_get_locals. cbn beta iota.
  eapply post_mono; [ apply cleanup_temp_files_spec | ].
  intros r s' evs (Hr & Hl & Hev & _ & Hclean). auto.
Qed.

Lemma signals_of_cleanup (evs : list Event) :
  Forall cleanup_event evs -> signals_of evs = [].
Proof.
  induction 1 as [ | ev evs Hev _ IH]; [reflexivity | ].
  destruct Hev as [[p ->] | [p [e ->]]]; exact IH.
Qed.

Lemma cleanup_writes_nothing (evs : list Event) (p : str) :
  Forall cleanup_event evs -> ¬ In (WriteFile p) evs.
Proof.
  intros Hev Hin. rewrite Forall_forall in Hev.
  destruct (Hev _ (proj2 (list_elem_of_In _ _) Hin)) as [[q H] | [q [e H]]];
    discriminate H.
Qed.

Lemma iteration_spec (self : ConvertThread) (total_files i : Z) (file_path : str)
      (s : Frame) :
  post (iteration' self total_files (i, file_path)) s
       (iteration_post self total_files i file_path s).
Proof.
  unfold iteration.
  apply post_bind, post_try_finally, post_try_except, post_bind.
  eapply post_mono; [ apply post_trace, post_result, convert_one_spec | ].
  intros r s1 evs1 [[(Hname & Hsig & Hwritten & Hbody) Hrun] Htrace].
  destruct r as [[] | e].
  - (* the [try] block ran to its end *)
    apply post_ret. cbn beta iota.
    eapply post_mono; [ apply cleanup_spec | ].
    intros r0 s0 evs0 (-> & Hl & Hev & Hclean).
    apply post_emit.
    unfold iteration_post. rewrite Hrun. cbn [fst progress_events].
    split; [ reflexivity | ].
    split.
    { rewrite !signals_of_app, Hsig, (signals_of_cleanup _ Hev). reflexivity. }
    exists evs1, evs0. rewrite !app_nil_r, app_assoc.
    split; [ reflexivity | ]. split; [ exact Hbody | ]. split; [ exact Hev | ].
    split; [ exact Hsig | ].
    intros p Hin.
    destruct (Hwritten p Hin) as [Hloc Htemp].
    split; [ exact Htemp | ].
    intros Hne. cbn [world fs record].
    destruct (Hclean p Hloc Hne) as [Hnone | Hfailed];
      [ left; exact Hnone | right; rewrite <- Htrace; exact Hfailed ].
  - (* the [try] block raised [e] *)
    unfold on_failure.
    apply post_bind, post_bind, post_get_locals. cbn beta iota.
    apply post_bind, post_emit. cbn beta iota.
    apply post_logger. cbn beta iota. apply post_ret. cbn beta iota.
    cbn [world locals].
    eapply post_mono; [ apply cleanup_spec | ].
    intros r0 s0 evs0 (-> & Hl & Hev & Hclean). cbn [locals] in Hl, Hclean.
    apply post_ret.
    unfold iteration_post. rewrite Hrun. cbn [fst progress_events].
    split; [ reflexivity | ].
    split.
    { rewrite !signals_of_app, Hsig, (signals_of_cleanup _ Hev), Hname.
      reflexivity. }
    eexists (evs1 ++ [_; _]), evs0. rewrite !app_nil_r.
    split; [ cbn [app]; reflexivity | ].
    split.
    { apply Forall_app. split; [ exact Hbody | ].
      constructor; [ intros [[? H] | [? [? H]]]; discriminate H | ].
      constructor; [ intros [[? H] | [? [? H]]]; discriminate H | constructor ]. }
    split; [ exact Hev | ].
    split.
    { rewrite signals_of_app, Hsig, Hname. reflexivity. }
    intros p Hin.
    apply in_app_or in Hin as [Hin | Hin].
    2: { cbn [app In] in Hin. destruct Hin as [H | [H | []]]; discriminate H. }
    destruct (Hwritten p Hin) as [Hloc Htemp].
    split; [ exact Htemp | ].
    intros Hne.
    destruct (Hclean p Hloc Hne) as [Hnone | Hfailed]; [ left; exact Hnone | right ].
    cbn [world trace record] in Hfailed.
    rewrite Htrace, <- !app_assoc in Hfailed. exact Hfailed.
Qed.

(** *** The batch *)

(** The signals of one file: the announcement, then the success line and
    the progress, or the failure line alone. *)
Definition file_signals (total_files : Z) (item : Z * str) (sigs : list Signal) : Prop :=
  sigs = [ announcement (fst item) total_files (snd item);
           success_line (snd item);
           progress (percent (fst item) total_files) ]
  ∨ ∃ e, sigs = [ announcement (fst item) total_files (snd item);
                  failure_line (snd item) e ].

Lemma loop_spec (self : ConvertThread) (total_files : Z) (items : list (Z * str))
      (s : Frame) :
  post (for_each items (iteration' self total_files)) s
       (fun r s' evs =>
          r = Ok tt ∧
          ∃ per_file, Forall2 (file_signals total_files) items per_file ∧
                      signals_of evs = concat per_file).
Proof.
  revert s. induction items as [ | [i file_path] items IH]; intros s.
  - apply post_ret. split; [ reflexivity | ]. exists []. split; [ constructor | reflexivity ].
  - cbn [for_each]. apply post_bind.
    eapply post_mono; [ apply iteration_spec | ].
    intros r s1 evs1 (-> & Hsig & _).
    eapply post_mono; [ apply IH | ].
    intros r2 s2 evs2 (-> & per_file & Hall & Hsig2).
    split; [ reflexivity | ].
    exists (signals_of evs1 :: per_file). split.
    + constructor; [ | exact Hall ].
      rewrite Hsig. unfold file_signals. cbn [fst snd].
      destruct (fst (convert_one' self i total_files file_path s)); eauto.
    + rewrite signals_of_app, Hsig2. reflexivity.
Qed.

(** The files of the run and their number: one path, or the list. *)
Definition files_to_process (self : ConvertThread) : list str :=
  match input_files self with
  | inl file => [file]
  | inr files => files
  end.

Definition total_files_of (self : ConvertThread) : Z :=
  Z.of_nat (length (files_to_process self)).

Definition start_line (self : ConvertThread) : Signal :=
  match input_files self with
  | inl _ => log_message (u "开始转换单个文件...")
  | inr files =>
    log_message (u "开始转换 " ++ str_of_Z (Z.of_nat (length files)) ++ u " 个文件...")
  end.

Definition done_line : Signal := log_message (u "转换完成！").

Lemma loop_and_finish (self : ConvertThread) (total_files : Z) (files : list str)
      (s : Frame) :
  post (for_each (enumerate files 1) (iteration' self total_files);;
        emit done_line;; emit finished) s
       (fun r s' evs =>
          r = Ok tt ∧
          ∃ per_file,
            Forall2 (file_signals total_files) (enumerate files 1) per_file ∧
            signals_of evs = concat per_file ++ [done_line; finished]).
Proof.
  apply post_bind.
  eapply post_mono; [ apply loop_spec | ].
  intros r s1 evs1 (-> & per_file & Hall & Hsig).
  apply post_bind, post_emit. cbn beta iota. apply post_emit.
  split; [ reflexivity | ]. exists per_file. split; [ exact Hall | ].
  rewrite !signals_of_app, Hsig. reflexivity.
Qed.

(** The signals of a run whose engine check passes, on at least one
    file. *)
Lemma run_signals (self : ConvertThread) (s : Frame) (version : str) :
  validate_wkhtmltopdf (world s) = (true, version) ->
  files_to_process self ≠ [] ->
  post (run' self) s
       (fun r s' evs =>
          r = Ok tt ∧
          ∃ per_file,
            Forall2 (file_signals (total_files_of self))
                    (enumerate (files_to_process self) 1) per_file ∧
            signals_of evs = start_line self :: concat per_file ++ [done_line; finished]).
Proof.
  intros Hvalid Hfiles. unfold run.
  apply post_try_except, post_bind, post_get_world. cbn beta iota.
  rewrite Hvalid. cbn [negb].
  unfold convert_all, total_files_of, start_line.
  unfold files_to_process in *.
  destruct (input_files self) as [file | files].
  - apply post_bind, post_bind, post_emit. cbn beta iota.
    apply post_ret. cbn beta iota. cbn [Z.eqb].
    eapply post_mono; [ apply loop_and_finish | ].
    intros r s' evs (-> & per_file & Hall & Hsig).
    split; [ reflexivity | ]. exists per_file. split; [ exact Hall | ].
    cbn [app]. rewrite signals_of_emit, Hsig. reflexivity.
  - apply post_bind, post_bind, post_emit. cbn beta iota.
    apply post_ret. cbn beta iota.
    destruct (Z.eqb_spec (Z.of_nat (length files)) 0) as [Hz | Hnz].
    { destruct files; [ congruence | discriminate Hz ]. }
    eapply post_mono; [ apply loop_and_finish | ].
    intros r s' evs (-> & per_file & Hall & Hsig).
    split; [ reflexivity | ]. exists per_file. split; [ exact Hall | ].
    cbn [app]. rewrite signals_of_emit, Hsig. reflexivity.
Qed.

(** The progress values among some signals, in order. *)
Definition progress_values (sigs : list Signal) : list Z :=
  omap (fun sg => match sg with progress v => Some v | _ => None end) sigs.


Lemma last_app_two {A} (l : list A) (a b : A) : last (l ++ [a; b]) = Some b.
Proof. induction l as [ | x [ | y l] IH]; auto. Qed.



Lemma log_message_head (a b : str) :
  log_message a = log_message b -> head a = head b.
Proof. intros H. injection H. intros ->. reflexivity. Qed.

Lemma success_line_among (total_files : Z) (item : Z * str) (sigs : list Signal) :
  file_signals total_files item sigs ->
  In (success_line (snd item)) sigs ->
  sigs = [ announcement (fst item) total_files (snd item);
           success_line (snd item);
           progress (percent (fst item) total_files) ].
Proof.
  intros [-> | [e ->]] Hin; [ reflexivity | exfalso ].
  cbn [In] in Hin. destruct Hin as [H | [H | []]];
    apply log_message_head in H; vm_compute in H; discriminate H.
Qed.

(** C6, as the code has it. When the engine check passes and there is at
    least one file, each file whose conversion succeeds (its success line
    is logged) is followed by one progress signal, the last signal of
    that file, whose value is [int((i / total_files) * 100)] for the
    position [i] of the file, counted from 1: the quotient in double
    precision, times 100, truncated. *)
Theorem progress_after_converted_file
        (self : ConvertThread) (s : Frame) (version : str) :
  validate_wkhtmltopdf (world s) = (true, version) ->
  files_to_process self ≠ [] ->
  ∃ s' evs per_file,
    run' self s = (Ok tt, s') ∧
    trace (world s') = trace (world s) ++ evs ∧
    signals_of evs = start_line self :: concat per_file ++ [done_line; finished] ∧
    Forall2 (fun item sigs =>
               file_signals (total_files_of self) item sigs ∧
               (In (success_line (snd item)) sigs ->
                progress_values sigs = [percent (fst item) (total_files_of self)] ∧
                last sigs = Some (progress (percent (fst item) (total_files_of self)))))
            (enumerate (files_to_process self) 1) per_file.
Proof.
  intros Hcheck Hfiles.
  destruct (run_signals self s version Hcheck Hfiles)
    as (r & s' & evs & Hrun & Htrace & -> & per_file & Hall & Hsig).
  exists s', evs, per_file.
  repeat (split; [ assumption | ]).
  eapply Forall2_impl; [ exact Hall | ].
  intros item sigs Hitem. split; [ exact Hitem | ].
  intros Hin. rewrite (success_line_among _ _ _ Hitem Hin).
  split; reflexivity.
Qed.

(** C3, as the code has it. One turn of the loop, from any frame, for
    any file: it returns normally whatever the removals do; its signals
    are settled by the outcome of the [try] block alone (success line
    and progress, or failure line). The removals and their warnings come
    after the events of the [try] block and of the handler, so after the
    success or failure line of the job, and before the progress signal.
    Every file written during the turn (a temporary header or footer
    file) is absent at the end of the turn, unless [os.remove] was called
    on it during the cleanup, while it existed, and raised: the warning
    with the text of that exception is then the event after the call. *)
Theorem temp_files_cleaned_up
        (self : ConvertThread) (total_files i : Z) (file_path : str) (s : Frame) :
  (∀ d name : str, name ≠ [] -> os_path_join d name ≠ []) ->
  let outcome := fst (convert_one' self i total_files file_path s) in
  ∃ s' body cleanup_evs,
    iteration' self total_files (i, file_path) s = (Ok tt, s') ∧
    trace (world s')
    = trace (world s) ++ body ++ cleanup_evs ++ progress_events i total_files outcome ∧
    Forall (fun ev => ¬ cleanup_event ev) body ∧
    Forall cleanup_event cleanup_evs ∧
    signals_of body
    = announcement i total_files file_path
        :: match outcome with
           | Ok _ => [success_line file_path]
           | Raise e => [failure_line file_path e]
           end ∧
    signals_of (body ++ cleanup_evs ++ progress_events i total_files outcome)
    = announcement i total_files file_path
        :: match outcome with
           | Ok _ => [success_line file_path; progress (percent i total_files)]
           | Raise e => [failure_line file_path e]
           end ∧
    (∀ p, In (WriteFile p) body ->
          fs (world s') !! p = None
          ∨ ∃ e w before after,
              cleanup_evs = before ++ RemoveFile p :: cleanup_warning p e :: after ∧
              trace w = (trace (world s) ++ body) ++ before ∧
              is_Some (fs w !! p) ∧
              remove_fault w p = Some e).
Proof.
  intros Hjoin outcome.
  destruct (iteration_spec self total_files i file_path s)
    as (r & s' & evs & Hrun & Htrace & -> & Hsig & Hsplit).
  destruct Hsplit as (body & cleanup_evs & -> & Hbody & Hcleanup & Hline & Hclean).
  exists s', body, cleanup_evs.
  repeat (split; [ assumption | ]).
  intros p Hin.
  destruct (Hclean p Hin) as [(name & Hname & ->) Hcleaned].
  exact (Hcleaned (Hjoin _ _ Hname)).
Qed.

End WorkerProperties.

(** ** A concrete environment *)

(** Surroundings in which everything can be computed: a Markdown
    converter that wraps the text in a paragraph, POSIX-like paths, a
    file system where reading a missing file fails, and a renderer that
    always succeeds. *)
Module Demo.

Definition markdown_convert (_ : list str) (_ : list (str * list (str * pyval)))
           (text : str) : Exc str :=
  Ok (u "<p>" ++ text ++ u "</p>").

Definition engine_present (_ : World) : bool * str := (true, u "wkhtmltopdf 0.12.6").

Fixpoint basename_from (p acc : str) : str :=
  match p with
  | [] => acc
  | 47 :: rest => basename_from rest []
  | c :: rest => basename_from rest (acc ++ [c])
  end.

Definition os_path_basename (p : str) : str := basename_from p [].

Fixpoint splitext_from (p stem ext : str) : str * str :=
  match p with
  | [] => (stem, ext)
  | 46 :: rest => splitext_from rest (stem ++ ext) [46]
  | c :: rest =>
    match ext with
    | [] => splitext_from rest (stem ++ [c]) []
    | _ => splitext_from rest stem (ext ++ [c])
    end
  end.

Definition os_path_splitext (p : str) : str * str := splitext_from p [] [].

Definition os_path_join (d name : str) : str := d ++ 47 :: name.
Definition os_path_abspath (p : str) : str := p.

Definition read_text (w : World) (path : str) : Exc str :=
  match fs w !! path with
  | Some text => Ok text
  | None => Raise (u "[Errno 2] No such file or directory: " ++ path)
  end.

Definition write_fault (_ : World) (_ _ : str) : option (Exception * option str) := None.

(** Removals fail: the warnings of the cleanup can be seen. *)
Definition remove_fault (_ : World) (_ : str) : option Exception :=
  Some (u "[Errno 13] Permission denied").

Definition pdfkit_from_string (_ : World) (_ _ : str) (_ : gmap str pyval)
  : str + Exception * option str :=
  inl (u "%PDF-1.4").

Definition create_header_footer_html (content : str) (_ : bool) : str := content.

Definition run_with (check : World -> bool * str) (self : ConvertThread) : M unit :=
  run markdown_convert check os_path_basename os_path_splitext os_path_join
      os_path_abspath read_text write_fault remove_fault pdfkit_from_string
      [] [] create_header_footer_html self.

Definition iteration_with (self : ConvertThread) (total_files : Z) (item : Z * str)
  : M unit :=
  iteration markdown_convert os_path_basename os_path_splitext os_path_join
            os_path_abspath read_text write_fault remove_fault pdfkit_from_string
            [] [] create_header_footer_html self total_files item.

(** Two Markdown files; [/in/a.md] does not exist. *)
Definition files : gmap str str :=
  <[u "/in/b.md" := u "# B"]> (<[u "/in/c.md" := u "$x^2$"]> ∅).

Definition start : Frame :=
  {| world := {| fs := files; trace := [] |};
     locals := {| file_name := None; header_path := None; footer_path := None |} |}.

Definition batch : ConvertThread :=
  {| input_files := inr [u "/in/a.md"; u "/in/b.md"; u "/in/c.md"];
     output_dir := u "/out";
     header_edit := u " Report ";
     footer_edit := [];
     page_size_combo := u "A4";
     margin_spinboxes := {| top := 20; right := 15; bottom := 20; left := 15 |};
     encoding_combo := u "UTF-8";
     is_batch_mode := true |}.

End Demo.

(** ** The theorems of the worker, at the concrete environment *)

Lemma demo_join_nonempty (d name : str) : name ≠ [] -> Demo.os_path_join d name ≠ [].
Proof. intros _. unfold Demo.os_path_join. destruct d; discriminate. Qed.



Lemma progress_after_converted_file_witness :
  Demo.engine_present (world Demo.start) = (true, u "wkhtmltopdf 0.12.6") ∧
  files_to_process Demo.batch ≠ [] ∧
  ∃ s' evs per_file,
    Demo.run_with Demo.engine_present Demo.batch Demo.start = (Ok tt, s') ∧
    trace (world s') = trace (world Demo.start) ++ evs ∧
    signals_of evs = start_line Demo.batch :: concat per_file ++ [done_line; finished] ∧
    Forall2 (fun item sigs =>
               file_signals Demo.os_path_basename Demo.os_path_splitext
                            (total_files_of Demo.batch) item sigs ∧
               (In (success_line Demo.os_path_basename Demo.os_path_splitext (snd item))
                   sigs ->
                progress_values sigs = [percent (fst item) (total_files_of Demo.batch)] ∧
                last sigs = Some (progress (percent (fst item) (total_files_of Demo.batch)))))
            (enumerate (files_to_process Demo.batch) 1) per_file.
Proof.
  split; [ reflexivity | ]. split; [ discriminate | ].
  apply (progress_after_converted_file
           Demo.markdown_convert Demo.engine_present Demo.os_path_basename
           Demo.os_path_splitext Demo.os_path_join Demo.os_path_abspath
           Demo.read_text Demo.write_fault Demo.remove_fault Demo.pdfkit_from_string
           [] [] Demo.create_header_footer_html Demo.batch Demo.start
           (u "wkhtmltopdf 0.12.6")).
  - reflexivity.
  - discriminate.
Defined.

(** The same surroundings with removals that succeed. *)
Definition demo_remove_ok (_ : World) (_ : str) : option Exception := None.

Definition demo_iteration_ok (self : ConvertThread) (total_files : Z) (item : Z * str)
  : M unit :=
  iteration Demo.markdown_convert Demo.os_path_basename Demo.os_path_splitext
            Demo.os_path_join Demo.os_path_abspath Demo.read_text Demo.write_fault
            demo_remove_ok Demo.pdfkit_from_string [] []
            Demo.create_header_footer_html self total_files item.

Lemma temp_files_cleaned_up_witness :
  (∀ d name : str, name ≠ [] -> Demo.os_path_join d name ≠ []) ∧
  ∃ s' body cleanup_evs,
    demo_iteration_ok Demo.batch 3 (2%Z, u "/in/b.md") Demo.start = (Ok tt, s') ∧
    trace (world s')
    = trace (world Demo.start) ++ body ++ cleanup_evs
        ++ [Emit (progress (percent 2 3))] ∧
    Forall (fun ev => ¬ cleanup_event ev) body ∧
    Forall cleanup_event cleanup_evs ∧
    signals_of body
    = [ announcement Demo.os_path_basename 2 3 (u "/in/b.md");
        success_line Demo.os_path_basename Demo.os_path_splitext (u "/in/b.md") ] ∧
    signals_of (body ++ cleanup_evs ++ [Emit (progress (percent 2 3))])
    = [ announcement Demo.os_path_basename 2 3 (u "/in/b.md");
        success_line Demo.os_path_basename Demo.os_path_splitext (u "/in/b.md");
        progress (percent 2 3) ] ∧
    (∀ p, In (WriteFile p) body ->
          fs (world s') !! p = None
          ∨ ∃ e w before after,
              cleanup_evs = before ++ RemoveFile p :: cleanup_warning p e :: after ∧
              trace w = (trace (world Demo.start) ++ body) ++ before ∧
              is_Some (fs w !! p) ∧
              demo_remove_ok w p = Some e).
Proof.
  split; [ exact demo_join_nonempty | ].
  exact (temp_files_cleaned_up
           Demo.markdown_convert Demo.os_path_basename
           Demo.os_path_splitext Demo.os_path_join Demo.os_path_abspath
           Demo.read_text Demo.write_fault demo_remove_ok Demo.pdfkit_from_string
           [] [] Demo.create_header_footer_html Demo.batch 3 2 (u "/in/b.md") Demo.start
           demo_join_nonempty).
Defined.

(** The second file of [Demo.batch], with removals that succeed: the
    header file is written, the renderer is called, the success line is
    logged, and only then the header file is removed; it is absent at
    the end. *)
Example temp_file_removed_after_success :
  let s' := snd (demo_iteration_ok Demo.batch 3 (2%Z, u "/in/b.md") Demo.start) in
  trace (world s')
  = [ Emit (log_message (u "[2/3] 正在处理: b.md"));
      ReadFile (u "/in/b.md");
      WriteFile (u "/out/header_temp_2.html");
      Render (u "/out/b.pdf");
      Emit (log_message (u "✓ 成功生成: b.pdf"));
      RemoveFile (u "/out/header_temp_2.html");
      Emit (progress 66) ] ∧
  fs (world s') !! u "/out/header_temp_2.html" = None ∧
  fs (world s') !! u "/out/b.pdf" = Some (u "%PDF-1.4").
Proof. vm_compute. repeat split; reflexivity. Qed.

(** With removals that fail, the file stays and the warning follows the
    call of [os.remove]. *)
Example temp_file_removal_fails :
  let s' := snd (Demo.iteration_with Demo.batch 3 (2%Z, u "/in/b.md") Demo.start) in
  trace (world s')
  = [ Emit (log_message (u "[2/3] 正在处理: b.md"));
      ReadFile (u "/in/b.md");
      WriteFile (u "/out/header_temp_2.html");
      Render (u "/out/b.pdf");
      Emit (log_message (u "✓ 成功生成: b.pdf"));
      RemoveFile (u "/out/header_temp_2.html");
      cleanup_warning (u "/out/header_temp_2.html") (u "[Errno 13] Permission denied");
      Emit (progress 66) ] ∧
  fs (world s') !! u "/out/header_temp_2.html" = Some (u "Report").
Proof. vm_compute. repeat split; reflexivity. Qed.

(** C3 as it is stated, with the temporary files removed before the
    outcome of the job is final, fails on the second file of
    [Demo.batch]: when the [try] block ends, the renderer has returned
    and the success line is the last event, and the header file is
    still there; its removal is the next event of the turn. *)
Lemma temp_file_outlives_outcome :
  let try_block :=
    convert_one Demo.markdown_convert Demo.os_path_basename Demo.os_path_splitext
                Demo.os_path_join Demo.os_path_abspath Demo.read_text Demo.write_fault
                Demo.pdfkit_from_string [] [] Demo.create_header_footer_html
                Demo.batch 2 3 (u "/in/b.md") Demo.start in
  let turn := demo_iteration_ok Demo.batch 3 (2%Z, u "/in/b.md") Demo.start in
  fst try_block = Ok tt ∧
  last (trace (world (snd try_block)))
  = Some (Emit (success_line Demo.os_path_basename Demo.os_path_splitext (u "/in/b.md"))) ∧
  In (Render (u "/out/b.pdf")) (trace (world (snd try_block))) ∧
  ¬ In (RemoveFile (u "/out/header_temp_2.html")) (trace (world (snd try_block))) ∧
  fs (world (snd try_block)) !! u "/out/header_temp_2.html" = Some (u "Report") ∧
  trace (world (snd turn))
  = trace (world (snd try_block))
      ++ [RemoveFile (u "/out/header_temp_2.html"); Emit (progress 66)].
Proof.
  vm_compute. repeat split; try reflexivity.
  - auto 10.
  - intros H. repeat (destruct H as [H | H]; [ discriminate H | ]). exact H.
Qed.

(** C6 as it is stated fails on the three files of [Demo.batch], of which
    the first cannot be read: no progress follows the failed file, and the
    progress after the second file is 66, where rounding gives 67. *)
Lemma progress_is_not_rounded :
  let signals :=
    signals_of (trace (world (snd (Demo.run_with Demo.engine_present Demo.batch
                                                 Demo.start)))) in
  progress_values signals = [66; 100]%Z ∧
  List.map (fun completed_count => rounded_percent completed_count 3) [1; 2; 3]%Z
  = [33; 67; 100]%Z ∧
  progress_values signals
  ≠ List.map (fun completed_count => rounded_percent completed_count 3) [1; 2; 3]%Z.
Proof.
  cbv zeta. split; [ vm_compute; reflexivity | ].
  split; [ vm_compute; reflexivity | ].
  vm_compute. discriminate.
Qed.

Example percent_truncates :
  percent 2 3 = 66%Z ∧ percent 57 100 = 56%Z ∧ percent 3 3 = 100%Z.
Proof. vm_compute. auto. Qed.

(** ** Substitution where the pattern cannot match *)

Lemma match_here_needs_first (c : N) (r : regex) (s : str) :
  head s ≠ Some c -> match_here (RSeq (RChar (CLit c)) r) s = None.
Proof.
  intros Hhead. unfold match_here. cbn [rmatch].
  destruct s as [ | a s']; [ reflexivity | ].
  cbn [cset_mem]. destruct (N.eqb_spec c a) as [-> | Hne]; [ | reflexivity ].
  exfalso. apply Hhead. reflexivity.
Qed.

(** A pattern that begins with a literal character leaves a text without
    that character as it is. *)
Lemma sub_from_absent (c : N) (r : regex) (rp : repl) (s : str) :
  ¬ In c s -> sub_from (RSeq (RChar (CLit c)) r) rp s 0 = s.
Proof.
  induction s as [ | a s' IH]; intros Hnot.
  - cbn [sub_from]. rewrite match_here_needs_first; [ reflexivity | discriminate ].
  - cbn [sub_from]. rewrite match_here_needs_first.
    + rewrite IH; [ reflexivity | ]. intros Hin. apply Hnot. right. exact Hin.
    + cbn [head]. intros H. injection H as ->. apply Hnot. left. reflexivity.
Qed.

Definition inline_regex : regex :=
  RSeq (RChar (CLit 36))
       (RSeq (RGroup 1 (RSeq (RRepeat (CDot false) 0 false) REmpty))
             (RSeq (RChar (CLit 36)) REmpty)).

Definition block_regex : regex :=
  RSeq (RChar (CLit 36))
       (RSeq (RChar (CLit 36))
             (RSeq (RGroup 1 (RSeq (RRepeat (CDot true) 0 false) REmpty))
                   (RSeq (RChar (CLit 36)) (RSeq (RChar (CLit 36)) REmpty)))).

Lemma compile_inline_pattern : re_compile false inline_pattern = Some inline_regex.
Proof. reflexivity. Qed.

Lemma compile_block_pattern : re_compile true block_pattern = Some block_regex.
Proof. reflexivity. Qed.

Lemma substitute_math_plain (self : ConvertThread) (text : str) :
  ¬ In 36 text -> substitute_math self text = text.
Proof.
  intros Hnot. unfold substitute_math, block_pass, inline_pass, re_sub.
  rewrite compile_inline_pattern, compile_block_pattern.
  unfold inline_regex, block_regex.
  rewrite (sub_from_absent 36 _ _ text Hnot).
  apply sub_from_absent. exact Hnot.
Qed.

(** C9. A text without a dollar sign goes through the normalisation
    unchanged: when the first conversion returns [html], the result of
    [convert_markdown_with_math] is the Markdown conversion of the text
    itself, made by the converter of the second pass (extensions extra,
    codehilite, nl2br, sane_lists), or [html], the conversion of the
    first pass, when the second raises; nothing is logged. *)
Theorem plain_text_passes_through
        (markdown_convert : list str -> list (str * list (str * pyval)) -> str -> Exc str)
        (self : ConvertThread) (text html : str) :
  ¬ In 36 text ->
  markdown_convert md_extensions extension_configs text = Ok html ->
  substitute_math self text = text ∧
  convert_markdown_with_math markdown_convert self text
  = (match markdown_convert second_pass_extensions [] text with
     | Ok final_html => final_html
     | Raise _ => html
     end, None).
Proof.
  intros Hplain Hfirst.
  split; [ apply substitute_math_plain; exact Hplain | ].
  unfold convert_markdown_with_math, process_math_formulas.
  rewrite Hfirst, (substitute_math_plain self text Hplain). reflexivity.
Qed.

Lemma plain_text_passes_through_witness :
  ¬ In 36 (u "# B") ∧
  Demo.markdown_convert md_extensions extension_configs (u "# B") = Ok (u "<p># B</p>") ∧
  substitute_math Demo.batch (u "# B") = u "# B" ∧
  convert_markdown_with_math Demo.markdown_convert Demo.batch (u "# B")
  = (u "<p># B</p>", None).
Proof.
  assert (Hplain : ¬ In 36 (u "# B")).
  { apply contains_char_false. vm_compute. reflexivity. }
  split; [ exact Hplain | ]. split; [ vm_compute; reflexivity | ].
  exact (plain_text_passes_through Demo.markdown_convert Demo.batch (u "# B")
           (u "<p># B</p>") Hplain eq_refl).
Defined.

(** ** What a match consumes and captures *)

Lemma rep_greedy_inv {R} (cs : cset) (min : nat) (s : str) (k : str -> option R) (x : R) :
  rep_greedy cs min s k = Some x ->
  ∃ mid s', s = mid ++ s' ∧ k s' = Some x.
Proof.
  revert min. induction s as [ | a s IH]; intros min H; cbn [rep_greedy] in H.
  - destruct min; [ | discriminate H ]. exists [], []. auto.
  - destruct (cset_mem cs a).
    + destruct (rep_greedy cs (pred min) s k) as [y | ] eqn:E.
      * injection H as ->. apply IH in E as (mid & s' & -> & Hk).
        exists (a :: mid), s'. auto.
      * destruct min; [ | discriminate H ]. exists [], (a :: s). auto.
    + destruct min; [ | discriminate H ]. exists [], (a :: s). auto.
Qed.

Lemma rep_lazy_inv {R} (cs : cset) (min : nat) (s : str) (k : str -> option R) (x : R) :
  rep_lazy cs min s k = Some x ->
  ∃ mid s', s = mid ++ s' ∧ k s' = Some x.
Proof.
  revert min. induction s as [ | a s IH]; intros min H.
  - destruct min; cbn [rep_lazy] in H; [ | discriminate H ].
    destruct (k []) eqn:E; [ | discriminate H ].
    injection H as ->. exists [], []. auto.
  - destruct min as [ | m]; cbn [rep_lazy] in H.
    + destruct (k (a :: s)) as [y | ] eqn:E.
      * injection H as ->. exists [], (a :: s). auto.
      * destruct (cset_mem cs a); [ | discriminate H ].
        apply IH in H as (mid & s' & -> & Hk). exists (a :: mid), s'. auto.
    + destruct (cset_mem cs a); [ | discriminate H ].
      apply IH in H as (mid & s' & -> & Hk). exists (a :: mid), s'. auto.
Qed.

(** [t] is a contiguous part of [s]. *)
Definition part_of (t s : str) : Prop := ∃ a b, s = a ++ t ++ b.

Lemma part_of_refl (s : str) : part_of s s.
Proof. exists [], []. rewrite app_nil_r. reflexivity. Qed.

Lemma part_of_app_l (t a b : str) : part_of t a -> part_of t (a ++ b).
Proof.
  intros (x & y & ->). exists x, (y ++ b). rewrite <- !app_assoc. reflexivity.
Qed.

Lemma part_of_app_r (t a b : str) : part_of t b -> part_of t (a ++ b).
Proof.
  intros (x & y & ->). exists (a ++ x), y. rewrite <- !app_assoc. reflexivity.
Qed.

(** A successful match splits the text into the part consumed and the
    rest handed to the continuation; every group captured on the way is a
    contiguous part of what was consumed. *)
Lemma rmatch_inv {R} (r : regex) :
  ∀ (s : str) (g : captures) (k : str -> captures -> option R) (x : R),
    rmatch r s g k = Some x ->
    ∃ mid s' g',
      s = mid ++ s' ∧ k s' g' = Some x ∧
      (∀ e, In e g' -> In e g ∨ part_of (snd e) mid).
Proof.
  induction r as [ | cs | cs min greedy | r1 IH1 r2 IH2 | idx body IH];
    intros s g k x H; cbn [rmatch] in H.
  - exists [], s, g. auto.
  - destruct s as [ | c s]; [ discriminate H | ].
    destruct (cset_mem cs c); [ | discriminate H ].
    exists [c], s, g. auto.
  - destruct greedy.
    + apply rep_greedy_inv in H as (mid & s' & -> & Hk). exists mid, s', g. auto.
    + apply rep_lazy_inv in H as (mid & s' & -> & Hk). exists mid, s', g. auto.
  - apply IH1 in H as (mid1 & s1 & g1 & -> & H & Hg1).
    apply IH2 in H as (mid2 & s2 & g2 & -> & H & Hg2).
    exists (mid1 ++ mid2), s2, g2. rewrite <- app_assoc.
    split; [ reflexivity | ]. split; [ exact H | ].
    intros e He. destruct (Hg2 e He) as [Hin | Hpart].
    + destruct (Hg1 e Hin) as [Hin' | Hpart]; [ left; exact Hin' | ].
      right. apply part_of_app_l. exact Hpart.
    + right. apply part_of_app_r. exact Hpart.
  - apply IH in H as (mid & s' & g' & -> & H & Hg).
    rewrite length_app in H.
    replace (length mid + length s' - length s')%nat with (length mid) in H by lia.
    rewrite take_app_length in H.
    exists mid, s', ((idx, mid) :: g').
    split; [ reflexivity | ]. split; [ exact H | ].
    intros e [<- | He]; [ right; apply part_of_refl | apply Hg; exact He ].
Qed.

Lemma match_here_inv (r : regex) (s rest : str) (g : captures) :
  match_here r s = Some (rest, g) ->
  ∃ mid, s = mid ++ rest ∧ ∀ e, In e g -> part_of (snd e) mid.
Proof.
  unfold match_here. intros H.
  apply rmatch_inv in H as (mid & s' & g' & -> & Hk & Hg).
  injection Hk as -> ->. exists mid. split; [ reflexivity | ].
  intros e He. destruct (Hg e He) as [[] | Hpart]. exact Hpart.
Qed.

(** ** Characters that a substitution cannot introduce *)

Section Clean.

(** A property of characters, such as not being a dollar sign. *)
Variable p : N -> bool.

Definition clean (s : str) : Prop := forallb p s = true.

Definition clean_captures (g : captures) : Prop := ∀ e, In e g -> clean (snd e).

(** A replacement that makes clean text from clean groups. *)
Definition clean_repl (rp : repl) : Prop :=
  ∀ g, clean_captures g -> clean (apply_repl rp g).

Lemma clean_app (a b : str) : clean (a ++ b) ↔ clean a ∧ clean b.
Proof. unfold clean. rewrite forallb_app. apply andb_true_iff. Qed.

Lemma clean_cons (c : N) (s : str) : clean (c :: s) ↔ p c = true ∧ clean s.
Proof. unfold clean. cbn [forallb]. apply andb_true_iff. Qed.

Lemma clean_part (t s : str) : part_of t s -> clean s -> clean t.
Proof.
  intros (a & b & ->) H. apply clean_app in H as [_ H].
  apply clean_app in H as [H _]. exact H.
Qed.

Lemma clean_group (g : captures) (n : nat) : clean_captures g -> clean (group g n).
Proof.
  intros Hg. unfold group.
  induction g as [ | [m t] g IH]; cbn [lookup_group]; [ reflexivity | ].
  destruct (Nat.eqb m n).
  - apply (Hg (m, t)). left. reflexivity.
  - apply IH. intros e He. apply Hg. right. exact He.
Qed.

Lemma clean_expand_template (g : captures) :
  clean_captures g -> ∀ (n : nat) (t : str),
    (length t <= n)%nat -> clean t -> clean (expand_template t g).
Proof.
  intros Hg. induction n as [ | n IH]; intros t Hlen Ht.
  - destruct t; [ reflexivity | cbn [length] in Hlen; lia ].
  - destruct t as [ | c t]; [ reflexivity | ].
    cbn [length] in Hlen.
    apply clean_cons in Ht as [Hc Ht].
    assert (Plain : clean (c :: expand_template t g)).
    { apply clean_cons. split; [ exact Hc | ]. apply IH; [ lia | exact Ht ]. }
    cbn [expand_template].
    destruct (N.eqb_spec c 92) as [-> | Hne].
    2: { destruct c as [ | q]; [ exact Plain | ].
         do 7 (destruct q as [q | q | ]; try exact Plain).
         congruence. }
    destruct t as [ | d t']; [ apply clean_cons; auto | ].
    destruct ((49 <=? d) && (d <=? 57)); [ | exact Plain ].
    apply clean_app. split; [ apply clean_group; exact Hg | ].
    apply clean_cons in Ht as [_ Ht]. cbn [length] in Hlen.
    apply IH; [ lia | exact Ht ].
Qed.

Lemma clean_template (t : str) : clean t -> clean_repl (Template t).
Proof.
  intros Ht g Hg. cbn [apply_repl].
  apply (clean_expand_template g Hg (length t) t); [ lia | exact Ht ].
Qed.

Lemma match_here_clean (r : regex) (s rest : str) (g : captures) :
  clean s -> match_here r s = Some (rest, g) -> clean rest ∧ clean_captures g.
Proof.
  intros Hs H. apply match_here_inv in H as (mid & -> & Hg).
  apply clean_app in Hs as [Hmid Hrest].
  split; [ exact Hrest | ].
  intros e He. apply (clean_part _ mid); [ apply Hg; exact He | exact Hmid ].
Qed.

Lemma sub_from_clean (r : regex) (rp : repl) :
  clean_repl rp -> ∀ (s : str) (skip : nat), clean s -> clean (sub_from r rp s skip).
Proof.
  intros Hrp. induction s as [ | c s IH]; intros skip Hs.
  - cbn [sub_from]. destruct skip; [ | reflexivity ].
    destruct (match_here r []) as [[rest g] | ] eqn:E; [ | reflexivity ].
    apply Hrp. apply (match_here_clean r [] rest g); [ reflexivity | exact E ].
  - cbn [sub_from]. pose proof Hs as Hcs. apply clean_cons in Hs as [Hc Hs].
    destruct skip as [ | n]; [ | apply IH; exact Hs ].
    destruct (match_here r (c :: s)) as [[rest g] | ] eqn:E.
    + destruct (match_here_clean r _ rest g Hcs E) as [_ Hg].
      destruct (length (c :: s) - length rest)%nat.
      * apply clean_app. split; [ apply Hrp; exact Hg | ].
        apply clean_cons. split; [ exact Hc | apply IH; exact Hs ].
      * apply clean_app. split; [ apply Hrp; exact Hg | apply IH; exact Hs ].
    + apply clean_cons. split; [ exact Hc | apply IH; exact Hs ].
Qed.

Lemma re_sub_clean (dotall : bool) (pattern : str) (rp : repl) (s : str) :
  clean_repl rp -> clean s -> clean (re_sub dotall pattern rp s).
Proof.
  intros Hrp Hs. unfold re_sub.
  destruct (re_compile dotall pattern); [ apply sub_from_clean; assumption | exact Hs ].
Qed.

Lemma apply_replacements_clean (table : list (str * str)) (s : str) :
  forallb (fun pr => forallb p (snd pr)) table = true ->
  clean s -> clean (apply_replacements table s).
Proof.
  unfold apply_replacements. revert s.
  induction table as [ | [pat t] table IH]; intros s Htable Hs; [ exact Hs | ].
  cbn [forallb] in Htable. apply andb_true_iff in Htable as [Ht Htable].
  cbn [fold_left]. apply IH; [ exact Htable | ].
  apply re_sub_clean; [ apply clean_template; exact Ht | exact Hs ].
Qed.

End Clean.

(** ** Dollar signs: the inline pass leaves nothing for the block pass *)

Definition not_dollar (c : N) : bool := negb (c =? 36).

Ltac clean_pieces Hg :=
  repeat (apply clean_app; split);
  first [ apply clean_group; exact Hg | vm_compute; reflexivity ].

Ltac clean_replacement :=
  first
    [ apply clean_template; vm_compute; reflexivity
    | let g := fresh "g" in
      let Hg := fresh "Hg" in
      intros g Hg; cbn [apply_repl];
      unfold frac_command_replacer, sum_replacer, int_replacer, sqrt_replacer,
             span_open;
      cbv zeta; clean_pieces Hg ].

(** The normaliser introduces no dollar sign. *)
Lemma simplify_no_dollar (self : ConvertThread) (formula : str) :
  clean not_dollar formula -> clean not_dollar (simplify_math_formula self formula).
Proof.
  intros H. unfold simplify_math_formula, structural_rewrites. cbv zeta.
  do 5 (apply re_sub_clean; [ clean_replacement | ]).
  apply apply_replacements_clean; [ vm_compute; reflexivity | ].
  do 11 (apply re_sub_clean; [ clean_replacement | ]).
  exact H.
Qed.

Lemma inline_replacer_clean (self : ConvertThread) :
  clean_repl not_dollar (Callable (inline_math_replacer self)).
Proof.
  intros g Hg. cbn [apply_repl]. unfold inline_math_replacer, span_open. cbv zeta.
  repeat match goal with |- clean _ (_ ++ _) => apply clean_app; split end;
    lazymatch goal with
    | |- clean _ (simplify_math_formula _ _) =>
      apply simplify_no_dollar, clean_group; exact Hg
    | |- _ => vm_compute; reflexivity
    end.
Qed.

(** The continuation of the lazy run of the inline pattern: the closing
    dollar sign, with the group taken from the text [s1] after the opening
    one. *)
Definition inline_tail (s1 s' : str) : option (str * captures) :=
  match s' with
  | c :: s'' =>
    if 36 =? c then Some (s'', [(1%nat, take (length s1 - length s')%nat s1)]) else None
  | [] => None
  end.

Lemma match_inline_unfold (s1 : str) :
  match_here inline_regex (36 :: s1) = rep_lazy (CDot false) 0 s1 (inline_tail s1).
Proof. reflexivity. Qed.

(** The lazy run stops at the first dollar sign: the group holds none. *)
Lemma inline_lazy_run (s1 : str) :
  ∀ (s2 pre rest : str) (g : captures),
    s1 = pre ++ s2 -> clean not_dollar pre ->
    rep_lazy (CDot false) 0 s2 (inline_tail s1) = Some (rest, g) ->
    ∃ grp, s1 = grp ++ 36 :: rest ∧ g = [(1%nat, grp)] ∧ clean not_dollar grp.
Proof.
  induction s2 as [ | c s2 IH]; intros pre rest g Hs1 Hpre H; cbn [rep_lazy] in H.
  - cbn [inline_tail] in H. discriminate H.
  - cbn [inline_tail] in H.
    destruct (N.eqb_spec 36 c) as [<- | Hne].
    + injection H as <- <-. exists pre.
      split; [ exact Hs1 | ]. split; [ | exact Hpre ].
      rewrite Hs1, length_app.
      replace (length pre + length (36%N :: s2) - S (length s2))%nat
        with (length pre) by (cbn [length]; lia).
      rewrite take_app_length. reflexivity.
    + destruct (cset_mem (CDot false) c); [ | discriminate H ].
      apply (IH (pre ++ [c]) rest g); [ | | exact H ].
      * rewrite <- app_assoc. exact Hs1.
      * apply clean_app. split; [ exact Hpre | ].
        apply clean_cons. split; [ | reflexivity ].
        unfold not_dollar. apply negb_true_iff, N.eqb_neq. congruence.
Qed.

(** A match of the inline pattern: two dollar signs around a group
    without dollar sign. *)
Lemma match_inline_inv (s rest : str) (g : captures) :
  match_here inline_regex s = Some (rest, g) ->
  ∃ grp, s = 36 :: grp ++ 36 :: rest ∧ g = [(1%nat, grp)] ∧ clean not_dollar grp.
Proof.
  intros H.
  destruct s as [ | c s1].
  { unfold inline_regex in H.
    rewrite match_here_needs_first in H; [ discriminate H | discriminate ]. }
  destruct (N.eq_dec c 36) as [-> | Hne].
  2: { unfold inline_regex in H. rewrite match_here_needs_first in H; [ discriminate H | ].
       cbn [head]. congruence. }
  rewrite match_inline_unfold in H.
  apply (inline_lazy_run s1 s1 [] rest g) in H as (grp & -> & -> & Hgrp);
    [ | reflexivity | reflexivity ].
  exists grp. auto.
Qed.

(** Two adjacent dollar signs always match, as an empty formula. *)
Lemma match_inline_double (t : str) :
  match_here inline_regex (36 :: 36 :: t) = Some (t, [(1%nat, [])]).
Proof.
  rewrite match_inline_unfold. cbn [rep_lazy inline_tail N.eqb Pos.eqb].
  replace (length (36%N :: t) - length (36%N :: t))%nat with 0%nat by lia.
  reflexivity.
Qed.

(** No two adjacent occurrences of [c]. *)
Fixpoint no_double (c : N) (s : str) : bool :=
  match s with
  | [] => true
  | a :: t =>
    match t with
    | b :: _ => negb ((a =? c) && (b =? c))
    | [] => true
    end && no_double c t
  end.

Lemma no_double_clean_app (a b : str) :
  clean not_dollar a -> no_double 36 b = true -> no_double 36 (a ++ b) = true.
Proof.
  induction a as [ | x a IH]; intros Ha Hb; [ exact Hb | ].
  apply clean_cons in Ha as [Hx Ha].
  cbn [app no_double]. rewrite (IH Ha Hb), andb_true_r.
  unfold not_dollar in Hx. apply negb_true_iff in Hx. rewrite Hx.
  destruct (a ++ b); reflexivity.
Qed.

Lemma no_double_cons (x : N) (s : str) :
  (x ≠ 36 ∨ head s ≠ Some 36) -> no_double 36 s = true -> no_double 36 (x :: s) = true.
Proof.
  intros Hx Hs. cbn [no_double]. rewrite Hs, andb_true_r.
  destruct s as [ | y s]; [ reflexivity | ].
  apply negb_true_iff, andb_false_iff.
  destruct Hx as [Hx | Hy].
  - left. apply N.eqb_neq. exact Hx.
  - right. apply N.eqb_neq. cbn [head] in Hy. congruence.
Qed.

Lemma sub_from_inline_head (rp : repl) (s : str) :
  head s ≠ Some 36 -> head (sub_from inline_regex rp s 0) ≠ Some 36.
Proof.
  intros Hhead. destruct s as [ | c s]; cbn [sub_from].
  - unfold inline_regex. rewrite match_here_needs_first; [ discriminate | discriminate ].
  - unfold inline_regex at 1. rewrite match_here_needs_first; [ | exact Hhead ].
    exact Hhead.
Qed.

(** After the inline pass no two dollar signs are adjacent. *)
Lemma inline_pass_no_double (self : ConvertThread) :
  ∀ (s : str) (skip : nat),
    no_double 36 (sub_from inline_regex (Callable (inline_math_replacer self)) s skip)
    = true.
Proof.
  induction s as [ | c s IH]; intros skip; cbn [sub_from].
  - destruct skip; [ | reflexivity ].
    unfold inline_regex. rewrite match_here_needs_first; [ reflexivity | discriminate ].
  - destruct skip as [ | n]; [ | apply IH ].
    destruct (match_here inline_regex (c :: s)) as [[rest g] | ] eqn:E.
    + apply match_inline_inv in E as (grp & Hs & -> & Hgrp).
      assert (Hrepl : clean not_dollar
                        (apply_repl (Callable (inline_math_replacer self)) [(1%nat, grp)])).
      { apply inline_replacer_clean. intros e [<- | []]. exact Hgrp. }
      destruct (length (c :: s) - length rest)%nat eqn:Hlen.
      * exfalso. rewrite Hs in Hlen. cbn [length] in Hlen.
        rewrite length_app in Hlen. cbn [length] in Hlen. lia.
      * apply no_double_clean_app; [ exact Hrepl | apply IH ].
    + apply no_double_cons; [ | apply IH ].
      destruct (N.eq_dec c 36) as [-> | Hne]; [ right | left; exact Hne ].
      apply sub_from_inline_head.
      destruct s as [ | d s]; [ discriminate | ].
      cbn [head]. intros Hd. injection Hd as ->.
      rewrite match_inline_double in E. discriminate E.
Qed.

Lemma match_block_needs_double (s : str) :
  (∀ t, s ≠ 36 :: 36 :: t) -> match_here block_regex s = None.
Proof.
  intros Hs. unfold match_here, block_regex. cbn [rmatch cset_mem].
  destruct s as [ | c s]; [ reflexivity | ].
  destruct (N.eqb_spec 36 c) as [<- | _]; [ | reflexivity ].
  destruct s as [ | d s]; [ reflexivity | ].
  destruct (N.eqb_spec 36 d) as [<- | _]; [ | reflexivity ].
  exfalso. exact (Hs s eq_refl).
Qed.

Lemma sub_from_block_identity (rp : repl) (s : str) :
  no_double 36 s = true -> sub_from block_regex rp s 0 = s.
Proof.
  induction s as [ | c s IH]; intros Hs; cbn [sub_from].
  - rewrite match_block_needs_double; [ reflexivity | discriminate ].
  - cbn [no_double] in Hs. apply andb_true_iff in Hs as [Hhead Hs].
    rewrite match_block_needs_double.
    + rewrite (IH Hs). reflexivity.
    + intros t Heq. injection Heq as -> ->. discriminate Hhead.
Qed.

(** The block pattern never matches what the inline pass returns: on
    every Markdown source the second pass of [process_math_formulas]
    changes nothing, and [block_math_replacer] is never called. *)
Lemma block_pass_never_applies (self : ConvertThread) (original_markdown : str) :
  block_pass self (inline_pass self original_markdown)
  = inline_pass self original_markdown.
Proof.
  unfold block_pass, inline_pass, re_sub.
  rewrite compile_inline_pattern, compile_block_pattern.
  apply sub_from_block_identity, inline_pass_no_double.
Qed.

Corollary substitute_math_is_inline_pass (self : ConvertThread) (original_markdown : str) :
  substitute_math self original_markdown = inline_pass self original_markdown.
Proof.
  unfold substitute_math, block_pass, inline_pass, re_sub. cbv zeta.
  rewrite compile_inline_pattern, compile_block_pattern.
  apply sub_from_block_identity, inline_pass_no_double.
Qed.

(** ** Subscripts: the table leaves nothing for the chemical formulas *)

(** An underscore followed by a character of the class [[a-zA-Z0-9]]. *)
Definition alnum_class : list (N * N) := [(97, 122); (65, 90); (48, 57)].

Definition subscript_pair (a b : N) : bool := (a =? 95) && in_ranges alnum_class b.

(** No underscore is followed by a letter or a digit. *)
Fixpoint no_subscript (s : str) : bool :=
  match s with
  | [] => true
  | a :: t =>
    match t with
    | b :: _ => negb (subscript_pair a b)
    | [] => true
    end && no_subscript t
  end.

(** The end of [a] and the start of [b] do not make such a pair. *)
Definition joins (a b : str) : bool :=
  match last a, head b with
  | Some x, Some y => negb (subscript_pair x y)
  | _, _ => true
  end.

Lemma no_subscript_app (a b : str) :
  no_subscript (a ++ b) = no_subscript a && no_subscript b && joins a b.
Proof.
  induction a as [ | x a IH]; cbn [app].
  - unfold joins. cbn [last]. cbn [no_subscript]. rewrite andb_true_r. reflexivity.
  - cbn [no_subscript]. rewrite IH.
    destruct a as [ | y a]; cbn [app].
    + unfold joins. cbn [last head no_subscript].
      destruct b as [ | z b]; cbn [head no_subscript];
        [ reflexivity | ].
      destruct (subscript_pair x z); cbn [negb andb];
        [ rewrite andb_false_r; reflexivity | rewrite andb_true_r; reflexivity ].
    + replace (joins (x :: y :: a) b) with (joins (y :: a) b) by reflexivity.
      rewrite !andb_assoc. reflexivity.
Qed.

Lemma no_subscript_part (t s : str) :
  part_of t s -> no_subscript s = true -> no_subscript t = true.
Proof.
  intros (a & b & ->) H.
  rewrite no_subscript_app in H. apply andb_true_iff in H as [H _].
  apply andb_true_iff in H as [_ H].
  rewrite no_subscript_app in H. apply andb_true_iff in H as [H _].
  apply andb_true_iff in H as [H _]. exact H.
Qed.

(** A replacement text that can stand anywhere: free of subscript pairs,
    opening with [<] and closing with [>]. *)
Definition bracketed (t : str) : Prop :=
  no_subscript t = true ∧ head t = Some 60 ∧ last t = Some 62.

Lemma joins_after_bracket (t b : str) : last t = Some 62 -> joins t b = true.
Proof. intros H. unfold joins. rewrite H. destruct (head b); reflexivity. Qed.

Lemma joins_before_bracket (a t : str) : head t = Some 60 -> joins a t = true.
Proof.
  intros H. unfold joins. rewrite H. destruct (last a) as [x | ]; [ | reflexivity ].
  unfold subscript_pair. rewrite andb_false_r. reflexivity.
Qed.

Lemma last_app_nonempty (a b : str) : b ≠ [] -> last (a ++ b) = last b.
Proof.
  intros Hb. induction a as [ | x a IH]; [ reflexivity | ].
  cbn [app]. destruct (a ++ b) eqn:E.
  - destruct a; [ cbn [app] in E; congruence | discriminate E ].
  - exact IH.
Qed.

Lemma bracketed_wrap (open_tag close_tag grp : str) :
  bracketed open_tag -> bracketed close_tag -> no_subscript grp = true ->
  bracketed (open_tag ++ grp ++ close_tag).
Proof.
  intros (Ho & Hoh & Hol) (Hc & Hch & Hcl) Hg.
  assert (Hcne : close_tag ≠ []) by (destruct close_tag; [ discriminate Hch | discriminate ]).
  split; [ | split ].
  - rewrite !no_subscript_app, Ho, Hg, Hc.
    rewrite (joins_before_bracket grp close_tag Hch).
    rewrite (joins_after_bracket open_tag _ Hol). reflexivity.
  - destruct open_tag; [ discriminate Hoh | exact Hoh ].
  - rewrite last_app_nonempty.
    + rewrite last_app_nonempty; [ exact Hcl | exact Hcne ].
    + destruct grp; [ exact Hcne | discriminate ].
Qed.

Lemma no_subscript_tail (c : N) (s : str) :
  no_subscript (c :: s) = true -> no_subscript s = true.
Proof. cbn [no_subscript]. intros H. apply andb_true_iff in H as [_ H]. exact H. Qed.

Lemma no_subscript_cons (c : N) (s : str) :
  (∀ d, head s = Some d -> subscript_pair c d = false) ->
  no_subscript s = true -> no_subscript (c :: s) = true.
Proof.
  intros Hc Hs. cbn [no_subscript]. rewrite Hs, andb_true_r.
  destruct s as [ | d s]; [ reflexivity | ].
  rewrite (Hc d eq_refl). reflexivity.
Qed.

Section SubscriptFree.

(** A substitution whose replacements are bracketed, on the texts of
    [admissible], where a place the pattern does not match is not the
    start of a subscript pair. *)
Variable r : regex.
Variable rp : repl.
Variable admissible : str -> Prop.

Hypothesis admissible_tail : ∀ c s, admissible (c :: s) -> admissible s.

Hypothesis unmatched_ok :
  ∀ c d s, admissible (c :: d :: s) -> match_here r (c :: d :: s) = None ->
           subscript_pair c d = false.

Hypothesis matched_ok :
  ∀ s rest g, admissible s -> match_here r s = Some (rest, g) ->
              bracketed (apply_repl rp g) ∧ (length s - length rest)%nat ≠ 0%nat.

Lemma sub_from_head (s : str) :
  admissible s ->
  head (sub_from r rp s 0) = head s ∨ head (sub_from r rp s 0) = Some 60.
Proof.
  intros Hs. destruct s as [ | c s]; cbn [sub_from].
  - destruct (match_here r []) as [[rest g] | ] eqn:E; [ | left; reflexivity ].
    destruct (matched_ok _ _ _ Hs E) as [_ Hlen]. exfalso. apply Hlen. reflexivity.
  - destruct (match_here r (c :: s)) as [[rest g] | ] eqn:E; [ | left; reflexivity ].
    destruct (matched_ok _ _ _ Hs E) as [(_ & Hhead & _) Hlen].
    destruct (length (c :: s) - length rest)%nat; [ congruence | ].
    right. destruct (apply_repl rp g); [ discriminate Hhead | exact Hhead ].
Qed.

Lemma sub_from_no_subscript :
  ∀ (s : str) (skip : nat), admissible s -> no_subscript (sub_from r rp s skip) = true.
Proof.
  induction s as [ | c s IH]; intros skip Hs; cbn [sub_from].
  - destruct skip; [ | reflexivity ].
    destruct (match_here r []) as [[rest g] | ] eqn:E; [ | reflexivity ].
    destruct (matched_ok _ _ _ Hs E) as [_ Hlen]. exfalso. apply Hlen. reflexivity.
  - pose proof (admissible_tail _ _ Hs) as Hs'.
    destruct skip as [ | n]; [ | apply IH; exact Hs' ].
    destruct (match_here r (c :: s)) as [[rest g] | ] eqn:E.
    + destruct (matched_ok _ _ _ Hs E) as [(Ht & _ & Hlast) Hlen].
      destruct (length (c :: s) - length rest)%nat; [ congruence | ].
      rewrite no_subscript_app, Ht, (IH n Hs'), (joins_after_bracket _ _ Hlast).
      reflexivity.
    + apply no_subscript_cons; [ | apply IH; exact Hs' ].
      intros d Hd. destruct (sub_from_head s Hs') as [Hsame | Hopen].
      * rewrite Hsame in Hd. destruct s as [ | d' s]; [ discriminate Hd | ].
        injection Hd as ->. exact (unmatched_ok _ _ _ Hs E).
      * rewrite Hopen in Hd. injection Hd as <-.
        unfold subscript_pair. rewrite andb_false_r. reflexivity.
Qed.

End SubscriptFree.

(** *** The four subscript and superscript rules at the end of the table *)

Definition single_subscript_regex : regex :=
  RSeq (RChar (CLit 95))
       (RSeq (RGroup 1 (RSeq (RChar (CClass false alnum_class)) REmpty)) REmpty).

Definition braced_superscript_regex : regex :=
  RSeq (RChar (CLit 94))
       (RSeq (RChar (CLit 123))
             (RSeq (RGroup 1 (RSeq (RRepeat (CClass true [(125, 125)]) 1 true) REmpty))
                   (RSeq (RChar (CLit 125)) REmpty))).

Definition single_superscript_regex : regex :=
  RSeq (RChar (CLit 94))
       (RSeq (RGroup 1 (RSeq (RChar (CClass false alnum_class)) REmpty)) REmpty).

Lemma compile_single_subscript :
  re_compile false (u "_([a-zA-Z0-9])") = Some single_subscript_regex.
Proof. reflexivity. Qed.

Lemma compile_braced_superscript :
  re_compile false (u "\^\{([^}]+)\}") = Some braced_superscript_regex.
Proof. reflexivity. Qed.

Lemma compile_single_superscript :
  re_compile false (u "\^([a-zA-Z0-9])") = Some single_superscript_regex.
Proof. reflexivity. Qed.

Lemma bracketed_sub_open : bracketed (u "<sub>").
Proof. repeat split; vm_compute; reflexivity. Qed.

Lemma bracketed_sub_close : bracketed (u "</sub>").
Proof. repeat split; vm_compute; reflexivity. Qed.

Lemma bracketed_sup_open : bracketed (u "<sup>").
Proof. repeat split; vm_compute; reflexivity. Qed.

Lemma bracketed_sup_close : bracketed (u "</sup>").
Proof. repeat split; vm_compute; reflexivity. Qed.

Lemma expand_sub_template (g : captures) :
  expand_template (u "<sub>\1</sub>") g = u "<sub>" ++ group g 1 ++ u "</sub>".
Proof. reflexivity. Qed.

Lemma expand_sup_template (g : captures) :
  expand_template (u "<sup>\1</sup>") g = u "<sup>" ++ group g 1 ++ u "</sup>".
Proof. reflexivity. Qed.

(** A match of a pattern that begins with a character consumes it. *)
Lemma match_first_char (cs : cset) (r : regex) (s rest : str) (g : captures) :
  match_here (RSeq (RChar cs) r) s = Some (rest, g) ->
  ∃ c s1, s = c :: s1 ∧ cset_mem cs c = true ∧ match_here r s1 = Some (rest, g).
Proof.
  unfold match_here. cbn [rmatch]. intros H.
  destruct s as [ | c s1]; [ discriminate H | ].
  destruct (cset_mem cs c) eqn:E; [ | discriminate H ].
  exists c, s1. auto.
Qed.

Lemma match_first_char_length (cs : cset) (r : regex) (s rest : str) (g : captures) :
  match_here (RSeq (RChar cs) r) s = Some (rest, g) ->
  (length s - length rest)%nat ≠ 0%nat.
Proof.
  intros H. apply match_first_char in H as (c & s1 & -> & _ & H).
  apply match_here_inv in H as (mid & -> & _).
  cbn [length]. rewrite length_app. lia.
Qed.

Lemma group_no_subscript (s rest : str) (r : regex) (g : captures) (n : nat) :
  no_subscript s = true -> match_here r s = Some (rest, g) ->
  no_subscript (group g n) = true.
Proof.
  intros Hs H. apply match_here_inv in H as (mid & -> & Hg).
  assert (Hall : ∀ e, In e g -> no_subscript (snd e) = true).
  { intros e He. apply (no_subscript_part _ (mid ++ rest)); [ | exact Hs ].
    apply part_of_app_l, Hg, He. }
  unfold group. clear Hg. induction g as [ | [m t] g IH]; cbn [lookup_group]; [ reflexivity | ].
  destruct (Nat.eqb m n).
  - apply (Hall (m, t)). left. reflexivity.
  - apply IH. intros e He. apply Hall. right. exact He.
Qed.

(** A match of the single-character subscript rule captures that one
    character. *)
Lemma match_single_subscript (s rest : str) (g : captures) :
  match_here single_subscript_regex s = Some (rest, g) ->
  ∃ x, s = 95 :: x :: rest ∧ in_ranges alnum_class x = true ∧ g = [(1%nat, [x])].
Proof.
  unfold match_here, single_subscript_regex. cbn [rmatch cset_mem]. intros H.
  destruct s as [ | c s]; [ discriminate H | ].
  destruct (N.eqb_spec 95 c) as [<- | _]; [ | discriminate H ].
  destruct s as [ | x s]; [ discriminate H | ].
  cbn [xorb] in H. destruct (in_ranges alnum_class x) eqn:E; [ | discriminate H ].
  injection H as <- <-. exists x.
  split; [ reflexivity | ]. split; [ exact E | ].
  replace (S (length s) - length s)%nat with 1%nat by lia.
  reflexivity.
Qed.

Lemma single_subscript_unmatched (c d : N) (s : str) :
  match_here single_subscript_regex (c :: d :: s) = None -> subscript_pair c d = false.
Proof.
  unfold match_here, single_subscript_regex, subscript_pair. cbn [rmatch cset_mem xorb].
  rewrite (N.eqb_sym c 95).
  destruct (95 =? c); [ | reflexivity ].
  destruct (in_ranges alnum_class d); [ discriminate | reflexivity ].
Qed.

(** After the rule [_([a-zA-Z0-9])] no underscore is followed by a letter
    or a digit. *)
Lemma single_subscript_rule_output (s : str) :
  no_subscript (re_sub false (u "_([a-zA-Z0-9])") (Template (u "<sub>\1</sub>")) s) = true.
Proof.
  unfold re_sub. rewrite compile_single_subscript.
  apply (sub_from_no_subscript _ _ (fun _ => True)); [ auto | | | exact I ].
  - intros c d t _ H. exact (single_subscript_unmatched c d t H).
  - intros t rest g _ H. split.
    + apply match_single_subscript in H as (x & _ & _ & ->).
      cbn [apply_repl]. rewrite expand_sub_template.
      apply bracketed_wrap;
        [ exact bracketed_sub_open | exact bracketed_sub_close | reflexivity ].
    + exact (match_first_char_length _ _ _ _ _ H).
Qed.

(** The superscript rules keep it so. *)
Lemma superscript_rule_preserves (cs : cset) (r : regex) (s : str) :
  no_subscript s = true ->
  no_subscript (sub_from (RSeq (RChar cs) r) (Template (u "<sup>\1</sup>")) s 0) = true.
Proof.
  intros Hs.
  apply (sub_from_no_subscript _ _ (fun t => no_subscript t = true)); [ | | | exact Hs ].
  - exact no_subscript_tail.
  - intros c d t Ht _. cbn [no_subscript] in Ht.
    apply andb_true_iff in Ht as [Ht _]. apply negb_true_iff in Ht. exact Ht.
  - intros t rest g Ht H. split.
    + cbn [apply_repl]. rewrite expand_sup_template.
      apply bracketed_wrap;
        [ exact bracketed_sup_open | exact bracketed_sup_close | ].
      exact (group_no_subscript _ _ _ _ _ Ht H).
    + exact (match_first_char_length _ _ _ _ _ H).
Qed.

Lemma replacements_end :
  replacements
  = firstn 45 replacements
    ++ [ (u "_([a-zA-Z0-9])", u "<sub>\1</sub>");
         (u "\^\{([^}]+)\}", u "<sup>\1</sup>");
         (u "\^([a-zA-Z0-9])", u "<sup>\1</sup>") ].
Proof. vm_compute. reflexivity. Qed.

(** The result of the loop over [replacements] has no underscore followed
    by a letter or a digit, whatever the formula. *)
Lemma table_output_no_subscript (formula : str) :
  no_subscript (apply_replacements replacements formula) = true.
Proof.
  rewrite replacements_end. unfold apply_replacements.
  rewrite fold_left_app. cbn [fold_left fst snd].
  set (before := fold_left _ (firstn 45 replacements) formula).
  unfold re_sub at 1 2.
  rewrite compile_single_superscript, compile_braced_superscript.
  apply superscript_rule_preserves, superscript_rule_preserves.
  apply single_subscript_rule_output.
Qed.

(** *** The chemical formulas *)

Lemma sub_from_unmatched (r : regex) (rp : repl) :
  (∀ b, no_subscript b = true -> match_here r b = None) ->
  ∀ s, no_subscript s = true -> sub_from r rp s 0 = s.
Proof.
  intros Hnone. induction s as [ | c s IH]; intros Hs; cbn [sub_from].
  - rewrite (Hnone [] Hs). reflexivity.
  - rewrite (Hnone _ Hs), (IH (no_subscript_tail _ _ Hs)). reflexivity.
Qed.

Lemma match_literal (c : N) (r : regex) (s rest : str) (g : captures) :
  match_here (RSeq (RChar (CLit c)) r) s = Some (rest, g) ->
  ∃ s1, s = c :: s1 ∧ match_here r s1 = Some (rest, g).
Proof.
  intros H. apply match_first_char in H as (c' & s1 & -> & Hc & H).
  cbn [cset_mem] in Hc. apply N.eqb_eq in Hc as <-. exists s1. auto.
Qed.

Ltac literal_prefix H :=
  repeat (let s1 := fresh "s" in
          apply match_literal in H as (s1 & -> & H)).

(** A chemical formula of the source is not found in a text without
    subscript pair: its pattern holds [_2] or [_4]. *)
Lemma chemical_formula_unmatched (pattern symbol : str) (rp : repl) (s : str) :
  In (pattern, symbol) chemical_formulas ->
  no_subscript s = true ->
  re_sub false pattern rp s = s.
Proof.
  intros Hin Hs. unfold re_sub.
  destruct (re_compile false pattern) as [r | ] eqn:E; [ | reflexivity ].
  apply sub_from_unmatched; [ | exact Hs ].
  intros b Hb. destruct (match_here r b) as [[rest g] | ] eqn:Hm; [ exfalso | reflexivity ].
  cbn [In chemical_formulas] in Hin.
  repeat (destruct Hin as [Hin | Hin];
          [ apply (f_equal fst) in Hin; cbn [fst] in Hin; subst pattern;
            vm_compute in E; injection E as <-;
            literal_prefix Hm; vm_compute in Hb; discriminate Hb
          | ]).
  exact Hin.
Qed.

(** The five substitutions of the chemical formulas change nothing, on
    any formula: [simplify_math_formula] returns what the loop over
    [replacements] has produced. *)
Theorem chemical_rewrites_never_apply (self : ConvertThread) (formula : str) :
  simplify_math_formula self formula
  = apply_replacements replacements (structural_rewrites formula).
Proof.
  unfold simplify_math_formula. cbv zeta.
  pose proof (table_output_no_subscript (structural_rewrites formula)) as Hfree.
  set (result := apply_replacements replacements (structural_rewrites formula)) in *.
  assert (Hin : ∀ entry, In entry chemical_formulas ->
                         ∀ rp, re_sub false (fst entry) rp result = result).
  { intros [pattern symbol] Hin rp.
    exact (chemical_formula_unmatched pattern symbol rp result Hin Hfree). }
  unfold chemical_formulas in Hin. cbn [In] in Hin.
  rewrite (Hin (u "H_2O", u "H₂O")) by auto.
  rewrite (Hin (u "H_2", u "H₂")) by auto.
  rewrite (Hin (u "O_2", u "O₂")) by auto.
  rewrite (Hin (u "CH_4", u "CH₄")) by auto.
  rewrite (Hin (u "CO_2", u "CO₂")) by auto 7.
  reflexivity.
Qed.

(** * Further properties of the normaliser *)

(** ** Formulas without markup *)

(** Every match of [r] holds the character [c]: some position of the
    pattern is that literal. *)
Fixpoint needs (c : N) (r : regex) : bool :=
  match r with
  | REmpty => false
  | RChar (CLit a) => a =? c
  | RChar _ => false
  | RRepeat _ _ _ => false
  | RSeq r1 r2 => needs c r1 || needs c r2
  | RGroup _ body => needs c body
  end.

(** A pattern of the source, compiled, needs one of the characters of
    [chars]. *)
Definition pattern_needs (chars : list N) (pattern : str) : bool :=
  match re_compile false pattern with
  | Some r => existsb (fun c => needs c r) chars
  | None => true
  end.

(** The characters of the formula markup: backslash, caret, underscore
    and slash. *)
Definition markup_chars : list N := [92; 94; 95; 47].

(** The patterns of [structural_rewrites], in order. *)
Definition structural_patterns : list str :=
  [ u "e\^-([a-zA-Z0-9]+)"; u "e\^\{([^}]+)\}";
    u "_\{([^}]+)\}\^\{([^}]+)\}"; u "\^\{([^}]+)\}_\{([^}]+)\}";
    u "\\frac\{([^}]+)\}\{([^}]+)\}"; u "(\d+)/(\d+)";
    u "\\sum_\{([^}]+)\}\^\{([^}]+)\}"; u "\\int_\{([^}]+)\}\^\{([^}]+)\}";
    u "\\sqrt\[(\d+)\]\{([^}]+)\}";
    u "_\{([^}]+)\}\^\{([^}]+)\}"; u "\^\{([^}]+)\}_\{([^}]+)\}" ].

Lemma rmatch_needs {R} (c : N) (r : regex) :
  needs c r = true ->
  ∀ (s : str) (g : captures) (k : str -> captures -> option R),
    ¬ In c s -> rmatch r s g k = None.
Proof.
  induction r as [ | cs | cs min greedy | r1 IH1 r2 IH2 | idx body IH];
    intros Hneeds s g k Hs; cbn [needs] in Hneeds; try discriminate Hneeds.
  - destruct cs as [a | | | ]; try discriminate Hneeds.
    apply N.eqb_eq in Hneeds as ->. cbn [rmatch cset_mem].
    destruct s as [ | x s]; [ reflexivity | ].
    destruct (N.eqb_spec c x) as [<- | _]; [ | reflexivity ].
    exfalso. apply Hs. left. reflexivity.
  - cbn [rmatch]. apply orb_true_iff in Hneeds as [H1 | H2].
    + apply IH1; assumption.
    + destruct (rmatch r1 s g (fun s' g' => rmatch r2 s' g' k)) as [x | ] eqn:E;
        [ | reflexivity ].
      apply rmatch_inv in E as (mid & s' & g' & -> & Hk & _).
      rewrite (IH2 H2 s' g' k) in Hk; [ discriminate Hk | ].
      intros Hin. apply Hs, in_or_app. right. exact Hin.
  - cbn [rmatch]. apply IH; assumption.
Qed.

Lemma sub_from_needs (c : N) (r : regex) (rp : repl) :
  needs c r = true -> ∀ s, ¬ In c s -> sub_from r rp s 0 = s.
Proof.
  intros Hneeds. induction s as [ | x s IH]; intros Hs; cbn [sub_from]; unfold match_here.
  - rewrite (rmatch_needs c r Hneeds); [ reflexivity | exact Hs ].
  - rewrite (rmatch_needs c r Hneeds); [ | exact Hs ].
    rewrite IH; [ reflexivity | ]. intros Hin. apply Hs. right. exact Hin.
Qed.

Lemma re_sub_needs (chars : list N) (pattern : str) (rp : repl) (s : str) :
  pattern_needs chars pattern = true ->
  (∀ c, In c chars -> ¬ In c s) ->
  re_sub false pattern rp s = s.
Proof.
  unfold pattern_needs, re_sub. intros Hp Hs.
  destruct (re_compile false pattern) as [r | ]; [ | reflexivity ].
  apply existsb_exists in Hp as (c & Hc & Hneeds).
  apply (sub_from_needs c r rp Hneeds). apply Hs. exact Hc.
Qed.

Lemma every_pattern_needs_markup :
  forallb (pattern_needs markup_chars) structural_patterns = true ∧
  forallb (fun pr => pattern_needs markup_chars (fst pr)) replacements = true ∧
  forallb (fun pr => pattern_needs markup_chars (fst pr)) chemical_formulas = true.
Proof. repeat split; vm_compute; reflexivity. Qed.

(** Every pattern of the source is in the fragment that [re_compile]
    reads: no [re_sub] of the embedding falls back to the identity. *)
Lemma patterns_compile :
  forallb (fun pattern => match re_compile false pattern with
                          | Some _ => true
                          | None => false
                          end)
          (structural_patterns ++ List.map fst replacements
             ++ List.map fst chemical_formulas ++ [inline_pattern]) = true
  ∧ match re_compile true block_pattern with Some _ => true | None => false end = true.
Proof. split; vm_compute; reflexivity. Qed.

Lemma apply_replacements_needs (table : list (str * str)) (s : str) :
  forallb (fun pr => pattern_needs markup_chars (fst pr)) table = true ->
  (∀ c, In c markup_chars -> ¬ In c s) ->
  apply_replacements table s = s.
Proof.
  unfold apply_replacements. induction table as [ | [pat t] table IH]; intros Ht Hs;
    [ reflexivity | ].
  cbn [forallb fst] in Ht. apply andb_true_iff in Ht as [Hp Ht].
  cbn [fold_left fst snd]. rewrite (re_sub_needs markup_chars pat _ s Hp Hs).
  exact (IH Ht Hs).
Qed.

(** A formula with no backslash, caret, underscore or slash is returned
    as it is: every pattern of [simplify_math_formula] needs one of
    them. *)
Theorem formula_without_markup_unchanged (self : ConvertThread) (formula : str) :
  (∀ c, In c markup_chars -> ¬ In c formula) ->
  simplify_math_formula self formula = formula.
Proof.
  intros Hs.
  destruct every_pattern_needs_markup as (Hstruct & Htable & Hchem).
  assert (Struct : structural_rewrites formula = formula).
  { unfold structural_rewrites. cbv zeta.
    unfold structural_patterns in Hstruct. cbn [forallb] in Hstruct.
    repeat (apply andb_true_iff in Hstruct as [?Hp Hstruct]).
    repeat (rewrite (re_sub_needs markup_chars _ _ formula) by assumption).
    reflexivity. }
  unfold simplify_math_formula. cbv zeta. rewrite Struct.
  rewrite (apply_replacements_needs replacements formula Htable Hs).
  unfold chemical_formulas in Hchem. cbn [forallb fst] in Hchem.
  repeat (apply andb_true_iff in Hchem as [?Hp Hchem]).
  repeat (rewrite (re_sub_needs markup_chars _ _ formula) by assumption).
  reflexivity.
Qed.

Lemma formula_without_markup_witness :
  (∀ c, In c markup_chars -> ¬ In c (u "E = mc")) ∧
  simplify_math_formula Demo.batch (u "E = mc") = u "E = mc".
Proof.
  assert (H : ∀ c, In c markup_chars -> ¬ In c (u "E = mc")).
  { intros c Hc. apply contains_char_false.
    cbn [In markup_chars] in Hc.
    repeat (destruct Hc as [<- | Hc]; [ vm_compute; reflexivity | ]).
    contradiction. }
  split; [ exact H | ].
  exact (formula_without_markup_unchanged Demo.batch (u "E = mc") H).
Defined.

(** ** Inline formulas *)

Lemma sub_from_skip (r : regex) (rp : repl) (a b : str) :
  sub_from r rp (a ++ b) (length a) = sub_from r rp b 0.
Proof.
  induction a as [ | x a IH]; [ reflexivity | ].
  cbn [app length sub_from]. exact IH.
Qed.

Lemma sub_from_inline_prefix (rp : repl) (pre t : str) :
  ¬ In 36 pre ->
  sub_from inline_regex rp (pre ++ t) 0 = pre ++ sub_from inline_regex rp t 0.
Proof.
  induction pre as [ | x pre IH]; intros Hpre; [ reflexivity | ].
  cbn [app sub_from]. unfold inline_regex at 1.
  rewrite match_here_needs_first.
  - rewrite IH; [ reflexivity | ]. intros Hin. apply Hpre. right. exact Hin.
  - cbn [head]. intros H. injection H as ->. apply Hpre. left. reflexivity.
Qed.

(** The lazy run reaches the first dollar sign when no line feed comes
    before it. *)
Lemma inline_lazy_reaches (f : str) :
  ∀ (pre post : str),
    ¬ In 36 f -> ¬ In 10 f ->
    rep_lazy (CDot false) 0 (f ++ 36 :: post) (inline_tail (pre ++ f ++ 36 :: post))
    = Some (post, [(1%nat, pre ++ f)]).
Proof.
  induction f as [ | x f IH]; intros pre post Hd Hn.
  - cbn [app rep_lazy inline_tail N.eqb Pos.eqb].
    rewrite length_app.
    replace (length pre + length (36%N :: post) - length (36%N :: post))%nat
      with (length pre) by lia.
    rewrite take_app_length, app_nil_r. reflexivity.
  - cbn [app rep_lazy inline_tail cset_mem orb].
    destruct (N.eqb_spec 36 x) as [<- | _]; [ exfalso; apply Hd; left; reflexivity | ].
    destruct (N.eqb_spec x 10) as [-> | _]; [ exfalso; apply Hn; left; reflexivity | ].
    cbn [negb].
    replace (pre ++ x :: f ++ 36 :: post) with ((pre ++ [x]) ++ f ++ 36 :: post)
      by (rewrite <- app_assoc; reflexivity).
    rewrite IH.
    + rewrite <- app_assoc. reflexivity.
    + intros Hin. apply Hd. right. exact Hin.
    + intros Hin. apply Hn. right. exact Hin.
Qed.

(** The lazy run stops at a line feed. *)
Lemma inline_lazy_stops (s1 f t : str) :
  ¬ In 36 f ->
  rep_lazy (CDot false) 0 (f ++ 10 :: t) (inline_tail s1) = None.
Proof.
  induction f as [ | x f IH]; intros Hd.
  - reflexivity.
  - cbn [app rep_lazy inline_tail].
    destruct (N.eqb_spec 36 x) as [<- | _]; [ exfalso; apply Hd; left; reflexivity | ].
    destruct (cset_mem (CDot false) x); [ | reflexivity ].
    apply IH. intros Hin. apply Hd. right. exact Hin.
Qed.

Lemma inline_lazy_runs_out (s1 f : str) :
  ¬ In 36 f -> rep_lazy (CDot false) 0 f (inline_tail s1) = None.
Proof.
  induction f as [ | x f IH]; intros Hd.
  - reflexivity.
  - cbn [rep_lazy inline_tail].
    destruct (N.eqb_spec 36 x) as [<- | _]; [ exfalso; apply Hd; left; reflexivity | ].
    destruct (cset_mem (CDot false) x); [ | reflexivity ].
    apply IH. intros Hin. apply Hd. right. exact Hin.
Qed.

(** An inline formula: between two dollar signs, text without dollar sign
    and without line feed, after text without dollar sign. It is replaced
    by its normal form in a [math-inline] span, and the substitution goes
    on after the closing sign. *)
Theorem inline_formula_wrapped (self : ConvertThread) (before formula after : str) :
  ¬ In 36 before -> ¬ In 36 formula -> ¬ In 10 formula ->
  substitute_math self (before ++ 36 :: formula ++ 36 :: after)
  = before ++ span_open (u "math-inline") ++ simplify_math_formula self formula
      ++ u "</span>" ++ substitute_math self after.
Proof.
  intros Hb Hd Hn. rewrite !substitute_math_is_inline_pass.
  unfold inline_pass, re_sub. rewrite compile_inline_pattern.
  rewrite (sub_from_inline_prefix _ before _ Hb). f_equal.
  cbn [sub_from]. rewrite match_inline_unfold.
  pose proof (inline_lazy_reaches formula [] after Hd Hn) as Hm.
  cbn [app] in Hm. rewrite Hm. clear Hm.
  replace (length (36%N :: formula ++ 36%N :: after) - length after)%nat
    with (S (length (formula ++ [36]))).
  2: { cbn [length]. rewrite !length_app. cbn [length]. lia. }
  replace (formula ++ 36 :: after) with ((formula ++ [36]) ++ after)
    by (rewrite <- app_assoc; reflexivity).
  rewrite sub_from_skip.
  cbn [apply_repl app]. unfold inline_math_replacer. cbv zeta.
  change (group [(1%nat, formula)] 1) with formula.
  rewrite <- !app_assoc. reflexivity.
Qed.

Lemma inline_formula_wrapped_witness :
  ¬ In 36 (u "Area: ") ∧ ¬ In 36 (u "\pi r^2") ∧ ¬ In 10 (u "\pi r^2") ∧
  substitute_math Demo.batch (u "Area: " ++ 36 :: u "\pi r^2" ++ 36 :: u ".")
  = u "Area: " ++ span_open (u "math-inline")
      ++ simplify_math_formula Demo.batch (u "\pi r^2")
      ++ u "</span>" ++ substitute_math Demo.batch (u ".").
Proof.
  assert (Hb : ¬ In 36 (u "Area: ")) by (apply contains_char_false; vm_compute; reflexivity).
  assert (Hd : ¬ In 36 (u "\pi r^2")) by (apply contains_char_false; vm_compute; reflexivity).
  assert (Hn : ¬ In 10 (u "\pi r^2")) by (apply contains_char_false; vm_compute; reflexivity).
  repeat (split; [ assumption | ]).
  exact (inline_formula_wrapped Demo.batch _ _ _ Hb Hd Hn).
Defined.

(** A dollar sign with no other dollar sign before the end of its line
    is kept, with the rest of the line; the substitution goes on after
    the line feed. *)
Theorem lone_dollar_kept (self : ConvertThread) (line rest : str) :
  ¬ In 36 line ->
  substitute_math self (36 :: line ++ 10 :: rest)
  = 36 :: line ++ 10 :: substitute_math self rest.
Proof.
  intros Hd. rewrite !substitute_math_is_inline_pass.
  unfold inline_pass, re_sub. rewrite compile_inline_pattern.
  cbn [sub_from]. rewrite match_inline_unfold, (inline_lazy_stops _ line rest Hd).
  f_equal. rewrite (sub_from_inline_prefix _ line _ Hd). f_equal.
Qed.

Lemma lone_dollar_kept_witness :
  ¬ In 36 (u "5 each") ∧
  substitute_math Demo.batch (36 :: u "5 each" ++ 10 :: u "next")
  = 36 :: u "5 each" ++ 10 :: substitute_math Demo.batch (u "next").
Proof.
  assert (Hd : ¬ In 36 (u "5 each")) by (apply contains_char_false; vm_compute; reflexivity).
  split; [ exact Hd | ].
  exact (lone_dollar_kept Demo.batch _ _ Hd).
Defined.

(** ** Dollar signs in the result *)

Lemma clean_not_dollar (s : str) : clean not_dollar s <-> ¬ In 36 s.
Proof.
  unfold clean. induction s as [ | c s IH]; cbn [forallb In].
  - split; [ intros _ [] | reflexivity ].
  - rewrite andb_true_iff, IH. unfold not_dollar.
    rewrite negb_true_iff, N.eqb_neq. split.
    + intros [Hc Hs] [Heq | Hin]; [ exact (Hc Heq) | exact (Hs Hin) ].
    + intros H. split; [ intros Heq | intros Hin ]; apply H; [ left | right ]; auto.
Qed.

(** The normal form of a formula that holds no dollar sign holds none:
    no replacement text of [simplify_math_formula] brings one in. *)
Theorem normal_form_has_no_dollar (self : ConvertThread) (formula : str) :
  ¬ In 36 formula -> ¬ In 36 (simplify_math_formula self formula).
Proof.
  rewrite <- !clean_not_dollar. apply simplify_no_dollar.
Qed.

Lemma normal_form_has_no_dollar_witness :
  ¬ In 36 (u "\frac{a}{b} + \alpha_1") ∧
  ¬ In 36 (simplify_math_formula Demo.batch (u "\frac{a}{b} + \alpha_1")).
Proof.
  assert (H : ¬ In 36 (u "\frac{a}{b} + \alpha_1"))
    by (apply contains_char_false; vm_compute; reflexivity).
  split; [ exact H | ].
  exact (normal_form_has_no_dollar Demo.batch _ H).
Defined.

Lemma no_double_split (c : N) (s : str) :
  no_double c s = true -> ∀ a b, s ≠ a ++ c :: c :: b.
Proof.
  intros Hs a. revert s Hs. induction a as [ | x a IH]; intros s Hs b Heq; subst s.
  - cbn [app no_double] in Hs. rewrite N.eqb_refl in Hs. discriminate Hs.
  - cbn [app no_double] in Hs. apply andb_true_iff in Hs as [_ Hs].
    exact (IH _ Hs b eq_refl).
Qed.

(** After the substitutions of [process_math_formulas] the text has no
    two dollar signs side by side, whatever the source. *)
Theorem substituted_source_has_no_double_dollar
        (self : ConvertThread) (original_markdown : str) :
  ∀ a b, substitute_math self original_markdown ≠ a ++ 36 :: 36 :: b.
Proof.
  apply no_double_split.
  rewrite substitute_math_is_inline_pass.
  unfold inline_pass, re_sub. rewrite compile_inline_pattern.
  apply inline_pass_no_double.
Qed.

(** ** The options that depend on the settings and on the job *)

(** [header-html] and [footer-html] are set exactly when the path is
    given and not empty, to that path; the page size and the encoding
    are the current texts of the two combo boxes, and each margin is the
    value of its spin box followed by [mm]. *)
Theorem create_pdf_options_variable_entries
        (self : ConvertThread) (header_path footer_path : option str) :
  let options := create_pdf_options self header_path footer_path in
  options !! u "header-html"
  = (if truthy header_path then PyStr <$> header_path else None) ∧
  options !! u "footer-html"
  = (if truthy footer_path then PyStr <$> footer_path else None) ∧
  options !! u "page-size" = Some (PyStr (page_size_combo self)) ∧
  options !! u "encoding" = Some (PyStr (encoding_combo self)) ∧
  options !! u "margin-top"
  = Some (PyStr (str_of_Z (top (margin_spinboxes self)) ++ u "mm")) ∧
  options !! u "margin-right"
  = Some (PyStr (str_of_Z (right (margin_spinboxes self)) ++ u "mm")) ∧
  options !! u "margin-bottom"
  = Some (PyStr (str_of_Z (bottom (margin_spinboxes self)) ++ u "mm")) ∧
  options !! u "margin-left"
  = Some (PyStr (str_of_Z (left (margin_spinboxes self)) ++ u "mm")).
Proof.
  cbv zeta. unfold create_pdf_options, base_options. cbv zeta.
  generalize (str_of_Z (top (margin_spinboxes self)) ++ u "mm").
  generalize (str_of_Z (right (margin_spinboxes self)) ++ u "mm").
  generalize (str_of_Z (bottom (margin_spinboxes self)) ++ u "mm").
  generalize (str_of_Z (left (margin_spinboxes self)) ++ u "mm").
  generalize (page_size_combo self), (encoding_combo self).
  intros ps enc ml mb mr mt.
  destruct header_path as [[ | ? ?] | ], footer_path as [[ | ? ?] | ];
    cbn [truthy default fmap option_fmap option_map];
    vm_compute; repeat split; reflexivity.
Qed.

(** ** The worker at its edges *)

(** The two signals that end a run. *)
Definition terminal (sg : Signal) : bool :=
  match sg with
  | finished | error _ => true
  | _ => false
  end.

Section WorkerEdgeCases.

Variable markdown_convert :
  list str -> list (str * list (str * pyval)) -> str -> Exc str.
Variable validate_wkhtmltopdf : World -> bool * str.
Variable os_path_basename : str -> str.
Variable os_path_splitext : str -> str * str.
Variable os_path_join : str -> str -> str.
Variable os_path_abspath : str -> str.
Variable read_text : World -> str -> Exc str.
Variable write_fault : World -> str -> str -> option (Exception * option str).
Variable remove_fault : World -> str -> option Exception.
Variable pdfkit_from_string :
  World -> str -> str -> gmap str pyval -> str + Exception * option str.
Variable template_head template_tail : str.
Variable create_header_footer_html : str -> bool -> str.

Local Abbreviation convert_one' :=
  (convert_one markdown_convert os_path_basename os_path_splitext os_path_join
               os_path_abspath read_text write_fault pdfkit_from_string
               template_head template_tail create_header_footer_html).
Local Abbreviation iteration' :=
  (iteration markdown_convert os_path_basename os_path_splitext os_path_join
             os_path_abspath read_text write_fault remove_fault pdfkit_from_string
             template_head template_tail create_header_footer_html).
Local Abbreviation run' :=
  (run markdown_convert validate_wkhtmltopdf os_path_basename os_path_splitext
       os_path_join os_path_abspath read_text write_fault remove_fault
       pdfkit_from_string template_head template_tail create_header_footer_html).
Local Abbreviation announcement' := (announcement os_path_basename).
Local Abbreviation success_line' := (success_line os_path_basename os_path_splitext).
Local Abbreviation failure_line' := (failure_line os_path_basename).
Local Abbreviation file_signals' := (file_signals os_path_basename os_path_splitext).
Local Abbreviation run_signals' :=
  (run_signals markdown_convert validate_wkhtmltopdf os_path_basename os_path_splitext
       os_path_join os_path_abspath read_text write_fault remove_fault
       pdfkit_from_string template_head template_tail create_header_footer_html).

Lemma file_signals_not_terminal (total_files : Z) (items : list (Z * str))
      (per_file : list (list Signal)) :
  Forall2 (file_signals' total_files) items per_file ->
  List.filter terminal (concat per_file) = [].
Proof.
  induction 1 as [ | item sigs items per_file Hitem _ IH]; [ reflexivity | ].
  cbn [concat]. rewrite List.filter_app, IH, app_nil_r.
  destruct Hitem as [-> | [e ->]]; reflexivity.
Qed.

Lemma filter_terminal_start (self : ConvertThread) :
  terminal (start_line self) = false.
Proof. unfold start_line. destruct (input_files self); reflexivity. Qed.

(** [run] never lets an exception out, and whatever the engine check
    says, whatever the files are and whatever fails, it emits exactly
    one of [finished] and [error], once, as its last signal. *)
Theorem run_ends_with_one_terminal_signal (self : ConvertThread) (s : Frame) :
  ∃ s' evs sg,
    run' self s = (Ok tt, s') ∧
    trace (world s') = trace (world s) ++ evs ∧
    List.filter terminal (signals_of evs) = [sg] ∧
    last (signals_of evs) = Some sg.
Proof.
  destruct (validate_wkhtmltopdf (world s)) as [[ | ] msg] eqn:Hcheck.
  - destruct (files_to_process self) as [ | file files] eqn:Hfiles.
    + unfold files_to_process in Hfiles.
      destruct (input_files self) as [ | [ | ? ?]] eqn:Hin; try discriminate Hfiles.
      eexists _, _, _. unfold run, try_except, convert_all.
      rewrite bind_unfold. cbn [get_world]. rewrite Hcheck, Hin. cbn [negb].
      cbn [length Z.of_nat].
      split; [ reflexivity | ]. cbn [world trace record]. 
      split; [ rewrite <- app_assoc; reflexivity | ].
      split; reflexivity.
    + assert (Hne : files_to_process self ≠ []) by (rewrite Hfiles; discriminate).
      destruct (run_signals' self s msg Hcheck Hne)
        as (r & s' & evs & Hrun & Htrace & -> & per_file & Hall & Hsig).
      exists s', evs, finished. repeat (split; [ assumption | ]).
      rewrite Hsig. split.
      * cbn [List.filter]. rewrite filter_terminal_start, List.filter_app.
        rewrite (file_signals_not_terminal _ _ _ Hall). reflexivity.
      * change (?x :: ?l ++ ?t) with ((x :: l) ++ t). apply last_app_two.
  - eexists _, _, _. unfold run, try_except.
    rewrite bind_unfold. cbn [get_world]. rewrite Hcheck. cbn [negb].
    split; [ reflexivity | ]. split; [ reflexivity | ]. split; reflexivity.
Qed.


(** A run on one file, given as a path or as a list of one path: the
    progress after a successful conversion is 100, and a failed
    conversion emits no progress signal at all; either way the closing
    line and [finished] follow. *)
Theorem one_file_run (self : ConvertThread) (s : Frame) (version file : str) :
  validate_wkhtmltopdf (world s) = (true, version) ->
  files_to_process self = [file] ->
  ∃ s' evs,
    run' self s = (Ok tt, s') ∧
    trace (world s') = trace (world s) ++ evs ∧
    (signals_of evs
     = [start_line self; announcement' 1 1 file; success_line' file;
        progress 100; done_line; finished]
     ∨ ∃ e, signals_of evs
            = [start_line self; announcement' 1 1 file; failure_line' file e;
               done_line; finished]).
Proof.
  intros Hcheck Hfiles.
  assert (Hne : files_to_process self ≠ []) by (rewrite Hfiles; discriminate).
  destruct (run_signals' self s version Hcheck Hne)
    as (r & s' & evs & Hrun & Htrace & -> & per_file & Hall & Hsig).
  exists s', evs. repeat (split; [ assumption | ]).
  unfold total_files_of in Hall. rewrite Hfiles in Hall. cbn [enumerate length] in Hall.
  apply Forall2_cons_inv_l in Hall as (sigs & rest & Hitem & Hrest & ->).
  apply Forall2_nil_inv_l in Hrest as ->.
  rewrite Hsig. cbn [concat app].
  destruct Hitem as [-> | [e ->]]; cbn [fst snd app]; [ left | right; exists e ]; reflexivity.
Qed.

Ltac run_worker :=
  cbv beta iota zeta delta
      [iteration try_finally try_except convert_one on_failure cleanup
       cleanup_temp_files for_each set_header_path set_footer_path set_file_name
       get_locals set_locals get_world modify_world emit logger open_read open_write
       pdfkit_call os_remove lift mbind M_bind mret M_ret
       world locals file_name header_path footer_path truthy andb default
       record fs trace].

(** A file that cannot be read: the turn of the loop announces it,
    tries to read it, emits the failure line with the name of the file
    and the text of the exception, logs the same line as an error, and
    ends normally. Nothing is written, rendered or removed, and no
    progress signal is emitted. *)
Theorem unreadable_file_is_reported
        (self : ConvertThread) (total_files i : Z) (file_path : str) (s : Frame)
        (e : Exception) :
  (∀ w, fs w = fs (world s) -> read_text w file_path = Raise e) ->
  ∃ s',
    iteration' self total_files (i, file_path) s = (Ok tt, s') ∧
    fs (world s') = fs (world s) ∧
    trace (world s')
    = trace (world s)
        ++ [Emit (announcement' i total_files file_path);
            ReadFile file_path;
            Emit (failure_line' file_path e);
            Logged ERROR (u "处理文件 " ++ os_path_basename file_path
                            ++ u " 时出错: " ++ e)].
Proof.
  intros Hread. eexists.
  run_worker.
  rewrite Hread by reflexivity.
  split; [ reflexivity | ]. split; [ reflexivity | ].
  cbn [world trace]. rewrite <- !app_assoc. reflexivity.
Qed.

(** The HTML handed to the renderer for a Markdown text, and the path of
    the PDF of a file. *)
Definition html_of (self : ConvertThread) (original_markdown : str) : str :=
  create_html_template template_head template_tail
    (fst (convert_markdown_with_math markdown_convert self original_markdown)).

Definition output_path_of (self : ConvertThread) (file_path : str) : str :=
  os_path_abspath
    (os_path_join (output_dir self)
       (fst (os_path_splitext (os_path_basename file_path)) ++ u ".pdf")).

(** The line of [logger.error] of a failed first Markdown conversion. *)
Definition complaint_of (self : ConvertThread) (original_markdown : str) : list Event :=
  match snd (convert_markdown_with_math markdown_convert self original_markdown) with
  | Some line => [Logged ERROR line]
  | None => []
  end.

(** A job with neither header nor footer (both blank), on a file that
    can be read and that the renderer converts: the renderer is called
    once, on the page template around the converted text, for the path
    of the output directory joined with the name of the file with [.pdf]
    in place of its extension, with options that have no [header-html]
    and no [footer-html]. Nothing else is written and nothing is
    removed; the PDF is in place at the end, and the signals are the
    announcement, the success line and the progress. *)
Theorem plain_job_renders_once
        (self : ConvertThread) (total_files i : Z) (file_path : str) (s : Frame)
        (original_markdown pdf : str) :
  strip (header_edit self) = [] ->
  strip (footer_edit self) = [] ->
  (∀ w, fs w = fs (world s) -> read_text w file_path = Ok original_markdown) ->
  (∀ w, fs w = fs (world s) ->
        pdfkit_from_string w (html_of self original_markdown)
                           (output_path_of self file_path)
                           (create_pdf_options self None None) = inl pdf) ->
  ∃ s',
    iteration' self total_files (i, file_path) s = (Ok tt, s') ∧
    fs (world s') = <[output_path_of self file_path := pdf]> (fs (world s)) ∧
    trace (world s')
    = trace (world s)
        ++ [Emit (announcement' i total_files file_path); ReadFile file_path]
        ++ complaint_of self original_markdown
        ++ [Render (output_path_of self file_path);
            Emit (success_line' file_path);
            Emit (progress (percent i total_files))].
Proof.
  intros Hheader Hfooter Hread Hrender.
  unfold html_of, output_path_of, complaint_of in *.
  unfold iteration, convert_one. rewrite Hheader, Hfooter. cbn [nonempty].
  destruct (convert_markdown_with_math markdown_convert self original_markdown)
    as [html_content [line | ]] eqn:Hconvert; cbn [fst snd] in *;
    eexists; run_worker; rewrite Hread by reflexivity; rewrite Hconvert;
    run_worker; rewrite Hrender by reflexivity;
    (split; [ reflexivity | ]); (split; [ reflexivity | ]);
    cbv beta iota zeta delta [put_file set_fs world trace fs];
    rewrite <- !app_assoc; reflexivity.
Qed.

(** The outcome of a call of the renderer, the world of the call being
    the one to find. *)
Ltac renderer_call :=
  match goal with
  | |- context [pdfkit_from_string ?w0 ?html ?out ?options] =>
    tryif is_evar w0 then fail else
      match goal with
      | |- context [pdfkit_from_string ?w1 _ _ _] => is_evar w1; unify w1 w0
      end;
      destruct (pdfkit_from_string w0 html out options) as [? | [? ?]];
      reflexivity
  end.

(** The temporary files of the [i]-th job. *)
Definition header_file (self : ConvertThread) (i : Z) : str :=
  os_path_join (output_dir self) (u "header_temp_" ++ str_of_Z i ++ u ".html").

Definition footer_file (self : ConvertThread) (i : Z) : str :=
  os_path_join (output_dir self) (u "footer_temp_" ++ str_of_Z i ++ u ".html").

(** A job with a header and a footer, on a file that can be read, when
    the two temporary files can be written: the renderer is called while
    both files are in place, holding the header and the footer page
    built from the stripped texts, and its options are those made for
    the two paths; the [try] block succeeds or raises as the renderer
    does. *)
Theorem renderer_sees_header_and_footer
        (self : ConvertThread) (total_files i : Z) (file_path : str) (s : Frame)
        (original_markdown : str) :
  let header := strip (header_edit self) in
  let footer := strip (footer_edit self) in
  header ≠ [] ->
  footer ≠ [] ->
  (∀ w, fs w = fs (world s) -> read_text w file_path = Ok original_markdown) ->
  (∀ w path text, write_fault w path text = None) ->
  ∃ w,
    fs w = <[footer_file self i := create_header_footer_html footer false]>
             (<[header_file self i := create_header_footer_html header true]>
                (fs (world s))) ∧
    fst (convert_one' self i total_files file_path s)
    = match pdfkit_from_string w (html_of self original_markdown)
                               (output_path_of self file_path)
                               (create_pdf_options self (Some (header_file self i))
                                                   (Some (footer_file self i))) with
      | inl _ => Ok tt
      | inr (e, _) => Raise e
      end.
Proof.
  intros header footer Hheader Hfooter Hread Hwrite. subst header footer.
  unfold html_of, output_path_of, header_file, footer_file, convert_one.
  destruct (strip (header_edit self)) as [ | h header]; [ congruence | ].
  destruct (strip (footer_edit self)) as [ | f footer]; [ congruence | ].
  cbn [nonempty].
  destruct (convert_markdown_with_math markdown_convert self original_markdown)
    as [html_content [line | ]] eqn:Hconvert; cbn [fst snd] in *;
    eexists; run_worker; rewrite Hread by reflexivity; rewrite Hconvert;
    run_worker; rewrite !Hwrite; run_worker.
  - split; [ | renderer_call ].
    cbv beta iota zeta delta [put_file set_fs world trace fs]. reflexivity.
  - split; [ | renderer_call ].
    cbv beta iota zeta delta [put_file set_fs world trace fs]. reflexivity.
Qed.



(** [cleanup_temp_files] never raises. It calls [os.remove] only on
    paths it was given, not empty, of files that exist; it creates and
    changes no file, and leaves alone every path it was not given. *)
Theorem cleanup_touches_only_listed (temp_files : list (option str)) (s : Frame) :
  ∃ s' evs,
    cleanup_temp_files remove_fault temp_files s = (Ok tt, s') ∧
    trace (world s') = trace (world s) ++ evs ∧
    (∀ q text, fs (world s') !! q = Some text -> fs (world s) !! q = Some text) ∧
    (∀ q, ¬ In (Some q) temp_files -> fs (world s') !! q = fs (world s) !! q) ∧
    (∀ p, In (RemoveFile p) evs ->
          In (Some p) temp_files ∧ p ≠ [] ∧ is_Some (fs (world s) !! p)).
Proof.
  revert s. induction temp_files as [ | temp_file rest IH]; intros s.
  - exists s, []. rewrite app_nil_r. repeat split; auto; contradiction.
  - assert (Tail : ∀ s1 evs1,
               trace (world s1) = trace (world s) ++ evs1 ->
               (∀ q text, fs (world s1) !! q = Some text -> fs (world s) !! q = Some text) ->
               (∀ q, temp_file ≠ Some q -> fs (world s1) !! q = fs (world s) !! q) ->
               (∀ p, In (RemoveFile p) evs1 ->
                     temp_file = Some p ∧ p ≠ [] ∧ is_Some (fs (world s) !! p)) ->
               ∃ s' evs,
                 cleanup_temp_files remove_fault rest s1 = (Ok tt, s') ∧
                 trace (world s') = trace (world s) ++ evs ∧
                 (∀ q text, fs (world s') !! q = Some text ->
                            fs (world s) !! q = Some text) ∧
                 (∀ q, ¬ In (Some q) (temp_file :: rest) ->
                       fs (world s') !! q = fs (world s) !! q) ∧
                 (∀ p, In (RemoveFile p) evs ->
                       In (Some p) (temp_file :: rest) ∧ p ≠ []
                       ∧ is_Some (fs (world s) !! p))).
    { intros s1 evs1 Htrace Hsub Hother Hrem.
      destruct (IH s1) as (s' & evs & Hrun & Htrace' & Hsub' & Hother' & Hrem').
      exists s', (evs1 ++ evs). split; [ exact Hrun | ].
      split; [ rewrite Htrace', Htrace, app_assoc; reflexivity | ].
      split; [ auto | ].
      split.
      - intros q Hq. rewrite Hother', Hother; [ reflexivity | | ];
          intros H; apply Hq; [ left; exact H | right; exact H ].
      - intros p Hin. apply in_app_or in Hin as [Hin | Hin].
        + destruct (Hrem p Hin) as (-> & Hne & Hex). split; [ left; reflexivity | auto ].
        + destruct (Hrem' p Hin) as (Hp & Hne & [text Hex]).
          split; [ right; exact Hp | ]. split; [ exact Hne | ]. eauto. }
    unfold cleanup_temp_files. cbn [for_each]. fold (cleanup_temp_files remove_fault rest).
    rewrite !bind_unfold. cbn [get_world].
    destruct (truthy temp_file) eqn:Htruthy; cbn [andb].
    2: { apply (Tail s []); auto using app_nil_r. intros p []. }
    destruct (os_path_exists (world s) (default [] temp_file)) eqn:Hex.
    2: { apply (Tail s []); auto using app_nil_r. intros p []. }
    destruct temp_file as [[ | c p] | ]; try discriminate Htruthy.
    cbn [default] in *. unfold id in *.
    unfold os_path_exists in Hex. apply bool_decide_eq_true in Hex.
    unfold try_except, os_remove, lift.
    destruct (remove_fault (world s) (c :: p)) as [e | ] eqn:Hrm.
    + cbv beta iota zeta delta [logger modify_world].
      apply (Tail _ [RemoveFile (c :: p); cleanup_warning (c :: p) e]).
      * cbn. rewrite <- app_assoc. reflexivity.
      * auto.
      * auto.
      * intros q [Hq | [Hq | []]]; [ | discriminate Hq ].
        injection Hq as <-. split; [ reflexivity | ]. split; [ discriminate | exact Hex ].
    + cbv beta iota zeta.
      apply (Tail _ [RemoveFile (c :: p)]).
      * reflexivity.
      * cbn. intros q text Hq. apply lookup_delete_Some in Hq as [_ Hq]. exact Hq.
      * cbn. intros q Hq. apply lookup_delete_ne. congruence.
      * intros q [Hq | []]. injection Hq as <-.
        split; [ reflexivity | ]. split; [ discriminate | exact Hex ].
Qed.

(** Paths that are not given ([None]), empty, or of files that do not
    exist are passed over: then [cleanup_temp_files] does nothing at
    all. *)
Theorem cleanup_skips_missing_files (temp_files : list (option str)) (s : Frame) :
  (∀ p, In (Some p) temp_files -> p = [] ∨ fs (world s) !! p = None) ->
  cleanup_temp_files remove_fault temp_files s = (Ok tt, s).
Proof.
  induction temp_files as [ | temp_file rest IH]; intros Hmissing; [ reflexivity | ].
  unfold cleanup_temp_files. cbn [for_each]. fold (cleanup_temp_files remove_fault rest).
  rewrite !bind_unfold. cbn [get_world].
  assert (Hskip : truthy temp_file
                  && os_path_exists (world s) (default [] temp_file) = false).
  { destruct temp_file as [[ | c p] | ]; try reflexivity. cbn [truthy default andb]. unfold id.
    destruct (Hmissing (c :: p)) as [H | H]; [ left; reflexivity | discriminate H | ].
    unfold os_path_exists. apply bool_decide_eq_false. rewrite H.
    intros [? Hsome]. discriminate Hsome. }
  rewrite Hskip. apply IH. intros p Hp. apply Hmissing. right. exact Hp.
Qed.

End WorkerEdgeCases.

(** *** The edges, at the concrete environment *)

(** One file given as a path, with blank header and footer; and a batch
    of one file with a header and a footer. *)
Definition demo_single : ConvertThread :=
  {| input_files := inl (u "/in/b.md");
     output_dir := u "/out";
     header_edit := u "  ";
     footer_edit := [];
     page_size_combo := u "A4";
     margin_spinboxes := {| top := 20; right := 15; bottom := 20; left := 15 |};
     encoding_combo := u "UTF-8";
     is_batch_mode := false |}.

Definition demo_decorated : ConvertThread :=
  {| input_files := inr [u "/in/c.md"];
     output_dir := u "/out";
     header_edit := u " Report ";
     footer_edit := u "Draft";
     page_size_combo := u "A4";
     margin_spinboxes := {| top := 20; right := 15; bottom := 20; left := 15 |};
     encoding_combo := u "UTF-8";
     is_batch_mode := true |}.


Lemma one_file_run_witness :
  Demo.engine_present (world Demo.start) = (true, u "wkhtmltopdf 0.12.6") ∧
  files_to_process demo_single = [u "/in/b.md"] ∧
  ∃ s' evs,
    Demo.run_with Demo.engine_present demo_single Demo.start = (Ok tt, s') ∧
    trace (world s') = trace (world Demo.start) ++ evs ∧
    (signals_of evs
     = [start_line demo_single;
        announcement Demo.os_path_basename 1 1 (u "/in/b.md");
        success_line Demo.os_path_basename Demo.os_path_splitext (u "/in/b.md");
        progress 100; done_line; finished]
     ∨ ∃ e, signals_of evs
            = [start_line demo_single;
               announcement Demo.os_path_basename 1 1 (u "/in/b.md");
               failure_line Demo.os_path_basename (u "/in/b.md") e;
               done_line; finished]).
Proof.
  split; [ reflexivity | ]. split; [ reflexivity | ].
  apply (one_file_run
           Demo.markdown_convert Demo.engine_present Demo.os_path_basename
           Demo.os_path_splitext Demo.os_path_join Demo.os_path_abspath
           Demo.read_text Demo.write_fault Demo.remove_fault Demo.pdfkit_from_string
           [] [] Demo.create_header_footer_html demo_single Demo.start
           (u "wkhtmltopdf 0.12.6") (u "/in/b.md")); reflexivity.
Defined.

Lemma demo_read_missing (w : World) :
  fs w = fs (world Demo.start) ->
  Demo.read_text w (u "/in/a.md")
  = Raise (u "[Errno 2] No such file or directory: " ++ u "/in/a.md").
Proof. intros Hw. unfold Demo.read_text. rewrite Hw. reflexivity. Qed.

Lemma demo_read_b (w : World) :
  fs w = fs (world Demo.start) -> Demo.read_text w (u "/in/b.md") = Ok (u "# B").
Proof. intros Hw. unfold Demo.read_text. rewrite Hw. reflexivity. Qed.

Lemma demo_read_c (w : World) :
  fs w = fs (world Demo.start) -> Demo.read_text w (u "/in/c.md") = Ok (u "$x^2$").
Proof. intros Hw. unfold Demo.read_text. rewrite Hw. reflexivity. Qed.

Lemma unreadable_file_witness :
  (∀ w, fs w = fs (world Demo.start) ->
        Demo.read_text w (u "/in/a.md")
        = Raise (u "[Errno 2] No such file or directory: " ++ u "/in/a.md")) ∧
  ∃ s',
    Demo.iteration_with Demo.batch 3 (1%Z, u "/in/a.md") Demo.start = (Ok tt, s') ∧
    fs (world s') = fs (world Demo.start) ∧
    trace (world s')
    = trace (world Demo.start)
        ++ [Emit (announcement Demo.os_path_basename 1 3 (u "/in/a.md"));
            ReadFile (u "/in/a.md");
            Emit (failure_line Demo.os_path_basename (u "/in/a.md")
                    (u "[Errno 2] No such file or directory: " ++ u "/in/a.md"));
            Logged ERROR
              (u "处理文件 " ++ Demo.os_path_basename (u "/in/a.md") ++ u " 时出错: "
                 ++ (u "[Errno 2] No such file or directory: " ++ u "/in/a.md"))].
Proof.
  split; [ exact demo_read_missing | ].
  exact (unreadable_file_is_reported
           Demo.markdown_convert Demo.os_path_basename
           Demo.os_path_splitext Demo.os_path_join Demo.os_path_abspath
           Demo.read_text Demo.write_fault Demo.remove_fault Demo.pdfkit_from_string
           [] [] Demo.create_header_footer_html Demo.batch 3 1 (u "/in/a.md") Demo.start
           _ demo_read_missing).
Defined.

Lemma plain_job_witness :
  strip (header_edit demo_single) = [] ∧
  strip (footer_edit demo_single) = [] ∧
  (∀ w, fs w = fs (world Demo.start) -> Demo.read_text w (u "/in/b.md") = Ok (u "# B")) ∧
  (∀ w, fs w = fs (world Demo.start) ->
        Demo.pdfkit_from_string w
          (html_of Demo.markdown_convert [] [] demo_single (u "# B"))
          (output_path_of Demo.os_path_basename Demo.os_path_splitext Demo.os_path_join
                          Demo.os_path_abspath demo_single (u "/in/b.md"))
          (create_pdf_options demo_single None None) = inl (u "%PDF-1.4")) ∧
  ∃ s',
    Demo.iteration_with demo_single 1 (1%Z, u "/in/b.md") Demo.start = (Ok tt, s') ∧
    fs (world s')
    = <[output_path_of Demo.os_path_basename Demo.os_path_splitext Demo.os_path_join
                       Demo.os_path_abspath demo_single (u "/in/b.md") := u "%PDF-1.4"]>
        (fs (world Demo.start)) ∧
    trace (world s')
    = trace (world Demo.start)
        ++ [Emit (announcement Demo.os_path_basename 1 1 (u "/in/b.md"));
            ReadFile (u "/in/b.md")]
        ++ complaint_of Demo.markdown_convert demo_single (u "# B")
        ++ [Render (output_path_of Demo.os_path_basename Demo.os_path_splitext
                                   Demo.os_path_join Demo.os_path_abspath demo_single
                                   (u "/in/b.md"));
            Emit (success_line Demo.os_path_basename Demo.os_path_splitext (u "/in/b.md"));
            Emit (progress (percent 1 1))].
Proof.
  assert (Hheader : strip (header_edit demo_single) = []) by (vm_compute; reflexivity).
  assert (Hfooter : strip (footer_edit demo_single) = []) by reflexivity.
  split; [ exact Hheader | ]. split; [ exact Hfooter | ].
  split; [ exact demo_read_b | ]. split; [ reflexivity | ].
  exact (plain_job_renders_once
           Demo.markdown_convert Demo.os_path_basename
           Demo.os_path_splitext Demo.os_path_join Demo.os_path_abspath
           Demo.read_text Demo.write_fault Demo.remove_fault Demo.pdfkit_from_string
           [] [] Demo.create_header_footer_html demo_single 1 1 (u "/in/b.md") Demo.start
           (u "# B") (u "%PDF-1.4") Hheader Hfooter demo_read_b
           (fun _ _ => eq_refl)).
Defined.

Lemma renderer_sees_header_and_footer_witness :
  strip (header_edit demo_decorated) ≠ [] ∧
  strip (footer_edit demo_decorated) ≠ [] ∧
  (∀ w, fs w = fs (world Demo.start) -> Demo.read_text w (u "/in/c.md") = Ok (u "$x^2$")) ∧
  (∀ w path text, Demo.write_fault w path text = None) ∧
  ∃ w,
    fs w
    = <[footer_file Demo.os_path_join demo_decorated 1
        := Demo.create_header_footer_html (strip (footer_edit demo_decorated)) false]>
        (<[header_file Demo.os_path_join demo_decorated 1
           := Demo.create_header_footer_html (strip (header_edit demo_decorated)) true]>
           (fs (world Demo.start))) ∧
    fst (convert_one Demo.markdown_convert Demo.os_path_basename Demo.os_path_splitext
                     Demo.os_path_join Demo.os_path_abspath Demo.read_text
                     Demo.write_fault Demo.pdfkit_from_string [] []
                     Demo.create_header_footer_html demo_decorated 1 1 (u "/in/c.md")
                     Demo.start)
    = match Demo.pdfkit_from_string w
              (html_of Demo.markdown_convert [] [] demo_decorated (u "$x^2$"))
              (output_path_of Demo.os_path_basename Demo.os_path_splitext
                              Demo.os_path_join Demo.os_path_abspath demo_decorated
                              (u "/in/c.md"))
              (create_pdf_options demo_decorated
                 (Some (header_file Demo.os_path_join demo_decorated 1))
                 (Some (footer_file Demo.os_path_join demo_decorated 1))) with
      | inl _ => Ok tt
      | inr (e, _) => Raise e
      end.
Proof.
  assert (Hheader : strip (header_edit demo_decorated) ≠ [])
    by (vm_compute; discriminate).
  assert (Hfooter : strip (footer_edit demo_decorated) ≠ [])
    by (vm_compute; discriminate).
  split; [ exact Hheader | ]. split; [ exact Hfooter | ].
  split; [ exact demo_read_c | ]. split; [ reflexivity | ].
  exact (renderer_sees_header_and_footer
           Demo.markdown_convert Demo.os_path_basename
           Demo.os_path_splitext Demo.os_path_join Demo.os_path_abspath
           Demo.read_text Demo.write_fault Demo.pdfkit_from_string
           [] [] Demo.create_header_footer_html demo_decorated 1 1 (u "/in/c.md")
           Demo.start (u "$x^2$") Hheader Hfooter demo_read_c (fun _ _ _ => eq_refl)).
Defined.

Lemma cleanup_skips_missing_witness :
  (∀ p, In (Some p) [None; Some []; Some (u "/out/header_temp_1.html")] ->
        p = [] ∨ fs (world Demo.start) !! p = None) ∧
  cleanup_temp_files Demo.remove_fault
                     [None; Some []; Some (u "/out/header_temp_1.html")] Demo.start
  = (Ok tt, Demo.start).
Proof.
  assert (H : ∀ p, In (Some p) [None; Some []; Some (u "/out/header_temp_1.html")] ->
                   p = [] ∨ fs (world Demo.start) !! p = None).
  { intros p [Hp | [Hp | [Hp | []]]]; [ discriminate Hp | | ];
      injection Hp as <-; [ left; reflexivity | right; vm_compute; reflexivity ]. }
  split; [ exact H | ].
  exact (cleanup_skips_missing_files Demo.remove_fault _ Demo.start H).
Defined.

(** ** The progress values of batches of up to 100 files *)

(** The check of one progress value against the exact percentage
    [100 * i / total_files] and against the next value. *)
Definition progress_checked (total_files i : Z) : bool :=
  let value := percent i total_files in
  let exact := (100 * i / total_files)%Z in
  ((value =? exact)%Z
   || ((value =? exact - 1)%Z && ((100 * i) mod total_files =? 0)%Z))
  && ((total_files <=? i)%Z || (value <=? percent (i + 1) total_files)%Z)
  && ((i <? total_files)%Z || (value =? 100)%Z).

Definition progress_table_checked (bound : Z) : bool :=
  forallb (fun total_files => forallb (progress_checked total_files) (seqZ 1 total_files))
          (seqZ 1 bound).

Lemma progress_table_100 : progress_table_checked 100 = true.
Proof. vm_compute. reflexivity. Qed.

Lemma progress_table_cell (bound total_files i : Z) :
  progress_table_checked bound = true ->
  (1 <= total_files <= bound)%Z ->
  (1 <= i <= total_files)%Z ->
  progress_checked total_files i = true.
Proof.
  unfold progress_table_checked. intros Htable Hn Hi.
  rewrite forallb_forall in Htable.
  assert (Hrow : forallb (progress_checked total_files) (seqZ 1 total_files) = true).
  { apply Htable, list_elem_of_In, elem_of_seqZ. lia. }
  rewrite forallb_forall in Hrow.
  apply Hrow, list_elem_of_In, elem_of_seqZ. lia.
Qed.

(** In a batch of at most 100 files the progress after the [i]-th file
    is the exact percentage [100 * i / total_files] rounded down, or one
    less than it, which happens only where the exact percentage is a
    whole number; the values do not decrease along the batch, and the
    value after the last file is 100. *)
Theorem progress_tracks_exact_percentage (i total_files : Z) :
  (1 <= i <= total_files)%Z ->
  (total_files <= 100)%Z ->
  (percent i total_files = 100 * i / total_files
   ∨ (percent i total_files = 100 * i / total_files - 1
      ∧ (100 * i) mod total_files = 0))%Z ∧
  (i < total_files -> percent i total_files <= percent (i + 1) total_files)%Z ∧
  (i = total_files -> percent i total_files = 100%Z).
Proof.
  intros Hi Hn.
  assert (Hcell : progress_checked total_files i = true).
  { apply (progress_table_cell 100); [ exact progress_table_100 | lia | lia ]. }
  unfold progress_checked in Hcell. cbv zeta in Hcell.
  apply andb_true_iff in Hcell as [Hcell Hlast].
  apply andb_true_iff in Hcell as [Hexact Hnext].
  split; [ | split ].
  - apply orb_true_iff in Hexact as [H | H].
    + left. apply Z.eqb_eq. exact H.
    + right. apply andb_true_iff in H as [H1 H2].
      split; apply Z.eqb_eq; assumption.
  - intros Hlt. apply orb_true_iff in Hnext as [H | H].
    + apply Z.leb_le in H. lia.
    + apply Z.leb_le. exact H.
  - intros ->. apply orb_true_iff in Hlast as [H | H].
    + apply Z.ltb_lt in H. lia.
    + apply Z.eqb_eq. exact H.
Qed.

Lemma progress_tracks_exact_percentage_witness :
  (1 <= 29 <= 50)%Z ∧ (50 <= 100)%Z ∧
  (percent 29 50 = 100 * 29 / 50
   ∨ (percent 29 50 = 100 * 29 / 50 - 1 ∧ (100 * 29) mod 50 = 0))%Z ∧
  (29 < 50 -> percent 29 50 <= percent (29 + 1) 50)%Z ∧
  (29 = 50 -> percent 29 50 = 100)%Z.
Proof.
  split; [ lia | ]. split; [ lia | ].
  apply (progress_tracks_exact_percentage 29 50); lia.
Defined.

(** The case where the value is one less: 29 files of 50 are 58 percent
    and the progress is 57. *)
Example progress_29_of_50 : percent 29 50 = 57%Z ∧ (100 * 29 / 50 = 58)%Z.
Proof. split; vm_compute; reflexivity. Qed.

(** * The manager of the rendering engine: [WkHtmlToPdfManager] *)

Module Manager.

(** What the manager does to its surroundings, in order: lines given to
    [logger], writes of the configuration file, and runs of the engine
    with [--version]. *)
Inductive Entry : Type :=
| Log (lvl : Level) (msg : str)
| Save (path : str)
| Version (path : str).

(** The manager object ([self.wkhtmltopdf_path]) with the files that
    exist and what has happened so far. *)
Record State : Type := {
  wkhtmltopdf_path : option str;
  files : gmap str str;
  journal : list Entry
}.

(** The result of [subprocess.run([path, '--version'], ...)]: the
    completed process, a time-out, or another exception. *)
Inductive Completion : Type :=
| Completed (returncode : Z) (stdout stderr : str)
| TimeoutExpired
| Failed (e : Exception).

Definition config_file : str := u "wkhtmltopdf_config.json".

Definition set_path (path : option str) (st : State) : State :=
  {| wkhtmltopdf_path := path; files := files st; journal := journal st |}.

Definition set_files (f : gmap str str) (st : State) : State :=
  {| wkhtmltopdf_path := wkhtmltopdf_path st; files := f; journal := journal st |}.

Definition note (entry : Entry) (st : State) : State :=
  {| wkhtmltopdf_path := wkhtmltopdf_path st; files := files st;
     journal := journal st ++ [entry] |}.

(** [os.path.exists(path)] *)
Definition os_path_exists (st : State) (path : str) : bool :=
  bool_decide (is_Some (files st !! path)).

Section Engine.

(** [os.path.dirname(os.path.abspath(__file__))], [os.path.join],
    [os.path.expanduser]; [os.environ['PATH'].split(os.pathsep)] when
    [PATH] is set. *)
Variable program_dir : str.
Variable os_path_join : str -> str -> str.
Variable os_path_expanduser : str -> str.
Variable environ_PATH : option (list str).

(** [json.dump({'wkhtmltopdf_path': path}, f, ensure_ascii=False,
    indent=2)]: the text written. *)
Variable json_dump : str -> str.

(** [open(path, 'w', encoding='utf-8')] and the write: [None] when the
    text is written; else the exception and what is left at [path]. *)
Variable write_fault : gmap str str -> str -> str -> option (Exception * option str).

(** [subprocess.run([path, '--version'], capture_output=True, text=True,
    timeout=10, encoding='utf-8')] *)
Variable subprocess_run : gmap str str -> str -> Completion.

(** [WkHtmlToPdfManager.save_config(self, path)] *)
Definition save_config (path : str) (st : State) : State :=
  let config := json_dump path in
  let st := note (Save config_file) st in
  match write_fault (files st) config_file config with
  | None =>
    let st := set_files (<[config_file := config]> (files st)) st in
    note (Log INFO (u "配置已保存到: " ++ config_file)) st
  | Some (e, left) =>
    let st := match left with
              | Some text => set_files (<[config_file := text]> (files st)) st
              | None => st
              end in
    note (Log ERROR (u "保存配置文件失败: " ++ e)) st
  end.

Definition fixed_paths : list str :=
  [ os_path_join (os_path_join program_dir (u "bin")) (u "wkhtmltopdf.exe");
    os_path_join program_dir (u "wkhtmltopdf.exe");
    u "C:\Program Files\wkhtmltopdf\bin\wkhtmltopdf.exe";
    u "C:\Program Files (x86)\wkhtmltopdf\bin\wkhtmltopdf.exe";
    os_path_expanduser (u "~\wkhtmltopdf\bin\wkhtmltopdf.exe");
    u "D:\wkhtmltopdf\bin\wkhtmltopdf.exe";
    u "E:\wkhtmltopdf\bin\wkhtmltopdf.exe" ].

(** The loop over [os.environ['PATH']]: the engine's path in each
    directory, kept when it exists. *)
Fixpoint path_hits (st : State) (dirs : list str) : list str :=
  match dirs with
  | [] => []
  | path_dir :: rest =>
    let wk_path := os_path_join path_dir (u "wkhtmltopdf.exe") in
    if os_path_exists st wk_path then wk_path :: path_hits st rest
    else path_hits st rest
  end.

Definition possible_paths (st : State) : list str :=
  fixed_paths ++ match environ_PATH with
                 | Some dirs => path_hits st dirs
                 | None => []
                 end.

(** The loop over [possible_paths], which returns at the first path that
    exists. *)
Fixpoint try_paths (paths : list str) (st : State) : option str * State :=
  match paths with
  | [] => (None, note (Log ERROR (u "未找到wkhtmltopdf")) st)
  | path :: rest =>
    if os_path_exists st path then
      let st := set_path (Some path) st in
      let st := save_config path st in
      let st := note (Log INFO (u "找到wkhtmltopdf: " ++ path)) st in
      (Some path, st)
    else try_paths rest st
  end.

(** [WkHtmlToPdfManager.find_wkhtmltopdf(self)] *)
Definition find_wkhtmltopdf (st : State) : option str * State :=
  if truthy (wkhtmltopdf_path st)
     && os_path_exists st (default [] (wkhtmltopdf_path st))
  then (wkhtmltopdf_path st, st)
  else try_paths (possible_paths st) st.

(** [WkHtmlToPdfManager.validate_wkhtmltopdf(self, path=None)] *)
Definition validate_wkhtmltopdf (path : option str) (st : State)
  : (bool * str) * State :=
  let '(path, st) :=
    if negb (truthy path) then
      if truthy (wkhtmltopdf_path st) then (wkhtmltopdf_path st, st)
      else find_wkhtmltopdf st
    else (path, st) in
  if negb (truthy path) || negb (os_path_exists st (default [] path)) then
    ((false, u "wkhtmltopdf路径不存在"), st)
  else
    let path := default [] path in
    let st := note (Version path) st in
    match subprocess_run (files st) path with
    | Completed returncode stdout stderr =>
      if (returncode =? 0)%Z then
        let version_info := strip stdout in
        ((true, version_info), note (Log INFO (u "wkhtmltopdf版本: " ++ version_info)) st)
      else
        let error_msg := if nonempty stderr then strip stderr else u "未知错误" in
        ((false, u "执行失败: " ++ error_msg), st)
    | TimeoutExpired => ((false, u "命令执行超时"), st)
    | Failed e => ((false, u "验证异常: " ++ e), st)
    end.

(** The dictionary of [get_installation_status]. *)
Record Status : Type := {
  configured_path : option str;
  path_exists : bool;
  is_valid : bool;
  version : option str;
  error : option str
}.

(** [WkHtmlToPdfManager.get_installation_status(self)] *)
Definition get_installation_status (st : State) : Status * State :=
  let configured := wkhtmltopdf_path st in
  let exists_now :=
    if truthy configured then os_path_exists st (default [] configured) else false in
  if truthy configured then
    let '((valid, result), st) := validate_wkhtmltopdf None st in
    ({| configured_path := configured; path_exists := exists_now; is_valid := valid;
        version := if valid then Some result else None;
        error := if valid then None else Some result |}, st)
  else
    ({| configured_path := configured; path_exists := exists_now; is_valid := false;
        version := None; error := None |}, st).

(** *** Properties *)

Lemma exists_note (entry : Entry) (st : State) (path : str) :
  os_path_exists (note entry st) path = os_path_exists st path.
Proof. reflexivity. Qed.

Lemma exists_set_path (p : option str) (st : State) (path : str) :
  os_path_exists (set_path p st) path = os_path_exists st path.
Proof. reflexivity. Qed.

(** Writing the configuration file removes no file. *)
Lemma save_config_keeps (path : str) (st : State) (q : str) :
  os_path_exists st q = true -> os_path_exists (save_config path st) q = true.
Proof.
  unfold save_config, os_path_exists. cbv zeta. intros Hq.
  apply bool_decide_eq_true in Hq. apply bool_decide_eq_true.
  assert (Hins : ∀ text, is_Some (<[config_file := text]> (files st) !! q)).
  { intros text. destruct (decide (config_file = q)) as [<- | Hne].
    - rewrite lookup_insert_eq. eauto.
    - rewrite lookup_insert_ne by exact Hne. exact Hq. }
  destruct (write_fault (files (note (Save config_file) st)) config_file (json_dump path))
    as [[e [text | ]] | ]; cbn; auto.
Qed.

Lemma save_config_path (path : str) (st : State) :
  wkhtmltopdf_path (save_config path st) = wkhtmltopdf_path st.
Proof.
  unfold save_config. cbv zeta.
  destruct (write_fault (files (note (Save config_file) st)) config_file (json_dump path))
    as [[e [text | ]] | ]; reflexivity.
Qed.

Lemma try_paths_found (paths : list str) (st : State) (path : str) (st' : State) :
  try_paths paths st = (Some path, st') ->
  In path paths ∧
  os_path_exists st path = true ∧
  wkhtmltopdf_path st' = Some path ∧
  os_path_exists st' path = true.
Proof.
  induction paths as [ | p rest IH]; cbn [try_paths]; [ discriminate | ].
  destruct (os_path_exists st p) eqn:Hp.
  - intros H. injection H as <- <-.
    split; [ left; reflexivity | ]. split; [ exact Hp | ].
    split.
    + cbn. rewrite save_config_path. reflexivity.
    + rewrite exists_note. apply save_config_keeps. exact Hp.
  - intros H. destruct (IH H) as (Hin & Hrest). split; [ right; exact Hin | exact Hrest ].
Qed.

Lemma try_paths_none (paths : list str) (st : State) :
  fst (try_paths paths st) = None <-> Forall (fun p => os_path_exists st p = false) paths.
Proof.
  induction paths as [ | p rest IH]; cbn [try_paths].
  - split; [ constructor | reflexivity ].
  - destruct (os_path_exists st p) eqn:Hp; cbn [fst].
    + split; [ discriminate | ]. intros H. inversion H; congruence.
    + rewrite IH. split; [ constructor; assumption | ]. intros H. inversion H; assumption.
Qed.

Lemma found_engine_exists_aux (st : State) (path : str) (st' : State) :
  find_wkhtmltopdf st = (Some path, st') ->
  os_path_exists st path = true ∧
  wkhtmltopdf_path st' = Some path ∧
  os_path_exists st' path = true.
Proof.
  unfold find_wkhtmltopdf.
  destruct (truthy (wkhtmltopdf_path st)
            && os_path_exists st (default [] (wkhtmltopdf_path st))) eqn:Hconf.
  - intros H. injection H as Hpath <-. rewrite Hpath in Hconf. cbn [default] in Hconf.
    unfold id in Hconf. apply andb_true_iff in Hconf as [_ Hex]. auto.
  - intros H. apply try_paths_found in H as (_ & H). exact H.
Qed.

(** A path that [find_wkhtmltopdf] returns is the path of a file that
    exists, before the call and after it, and it is the configured path
    from then on. *)
Theorem found_engine_exists (st : State) (path : str) (st' : State) :
  find_wkhtmltopdf st = (Some path, st') ->
  os_path_exists st path = true ∧
  wkhtmltopdf_path st' = Some path ∧
  os_path_exists st' path = true.
Proof. apply found_engine_exists_aux. Qed.

(** [find_wkhtmltopdf] returns [None] exactly when the configured path
    is missing, empty or stale, and none of the places it looks at holds
    the engine. *)
Theorem find_fails_exactly_when_nothing_exists (st : State) :
  fst (find_wkhtmltopdf st) = None
  <-> truthy (wkhtmltopdf_path st)
      && os_path_exists st (default [] (wkhtmltopdf_path st)) = false
      ∧ Forall (fun p => os_path_exists st p = false) (possible_paths st).
Proof.
  unfold find_wkhtmltopdf.
  destruct (truthy (wkhtmltopdf_path st)
            && os_path_exists st (default [] (wkhtmltopdf_path st))) eqn:Hconf.
  - cbn [fst]. split.
    + intros H. rewrite H in Hconf. discriminate Hconf.
    + intros [H _]. discriminate H.
  - rewrite try_paths_none. split; [ auto | intros [_ H]; exact H ].
Qed.

(** Once a path has been found, a second call returns it at once: no
    search, no write of the configuration file, no log line. *)
Theorem find_again_is_silent (st : State) (path : str) (st' : State) :
  find_wkhtmltopdf st = (Some path, st') ->
  path ≠ [] ->
  find_wkhtmltopdf st' = (Some path, st').
Proof.
  intros Hfind Hne.
  destruct (found_engine_exists_aux st path st' Hfind) as (_ & Hpath & Hex).
  unfold find_wkhtmltopdf. rewrite Hpath. cbn [default]. unfold id.
  destruct path as [ | c path]; [ congruence | ].
  cbn [truthy andb]. rewrite Hex. reflexivity.
Qed.

(** A configured path that no longer exists is not replaced by a search:
    [validate_wkhtmltopdf()] answers that the path does not exist, and
    looks nowhere else, whatever is installed. *)
Theorem stale_configuration_is_not_searched (st : State) (path : str) :
  wkhtmltopdf_path st = Some path ->
  path ≠ [] ->
  os_path_exists st path = false ->
  validate_wkhtmltopdf None st = ((false, u "wkhtmltopdf路径不存在"), st).
Proof.
  intros Hpath Hne Hex. unfold validate_wkhtmltopdf.
  cbn [truthy negb]. rewrite Hpath.
  destruct path as [ | c path]; [ congruence | ].
  cbn [truthy default negb orb]. unfold id. rewrite Hex. reflexivity.
Qed.

(** [validate_wkhtmltopdf] answers [True] only after it has run the
    engine of a path that exists with [--version] and the run has ended
    with return code 0; its message is then the output of that run,
    stripped. *)
Theorem valid_engine_has_run (path : option str) (st : State) (version_info : str)
        (st' : State) :
  validate_wkhtmltopdf path st = ((true, version_info), st') ->
  ∃ p stdout stderr,
    p ≠ [] ∧
    os_path_exists st' p = true ∧
    subprocess_run (files st') p = Completed 0 stdout stderr ∧
    version_info = strip stdout ∧
    In (Version p) (journal st').
Proof.
  unfold validate_wkhtmltopdf.
  destruct (if negb (truthy path)
            then if truthy (wkhtmltopdf_path st)
                 then (wkhtmltopdf_path st, st)
                 else find_wkhtmltopdf st
            else (path, st)) as [chosen st1].
  destruct (truthy chosen) eqn:Htruthy; cbn [negb orb]; [ | discriminate ].
  destruct (os_path_exists st1 (default [] chosen)) eqn:Hex; cbn [negb]; [ | discriminate ].
  destruct chosen as [[ | c p] | ]; try discriminate Htruthy.
  cbn [default] in *. unfold id in *. cbv zeta.
  destruct (subprocess_run (files (note (Version (c :: p)) st1)) (c :: p))
    as [returncode stdout stderr | | e] eqn:Hrun; try discriminate.
  destruct (Z.eqb_spec returncode 0) as [-> | _]; [ | discriminate ].
  intros H. injection H as <- <-.
  exists (c :: p), stdout, stderr.
  split; [ discriminate | ]. split; [ exact Hex | ]. split; [ exact Hrun | ].
  split; [ reflexivity | ].
  cbn. apply in_or_app. left. apply in_or_app. right. left. reflexivity.
Qed.

(** The status of [get_installation_status] hangs together: the
    configured path is reported as it is; an engine reported valid has a
    path that exists, a version and no error; one reported invalid has
    no version, and an error when a path is configured; and without a
    configured path nothing is checked. *)
Theorem installation_status_consistent (st : State) :
  let status := fst (get_installation_status st) in
  configured_path status = wkhtmltopdf_path st ∧
  (is_valid status = true ->
   path_exists status = true ∧ is_Some (version status) ∧ error status = None) ∧
  (is_valid status = false ->
   version status = None ∧
   (truthy (wkhtmltopdf_path st) = true -> is_Some (error status))) ∧
  (truthy (wkhtmltopdf_path st) = false ->
   get_installation_status st
   = ({| configured_path := wkhtmltopdf_path st; path_exists := false;
         is_valid := false; version := None; error := None |}, st)).
Proof.
  cbv zeta. unfold get_installation_status. cbv zeta.
  destruct (truthy (wkhtmltopdf_path st)) eqn:Htruthy.
  2: { cbn. repeat split; try discriminate; auto. }
  unfold validate_wkhtmltopdf. cbn [truthy negb]. rewrite !Htruthy. cbn [negb orb].
  destruct (os_path_exists st (default [] (wkhtmltopdf_path st))) eqn:Hex; cbn [negb].
  2: { cbn. repeat split; try discriminate; eauto. }
  cbv zeta.
  destruct (subprocess_run _ _) as [returncode stdout stderr | | e];
    [ destruct (returncode =? 0)%Z | | ];
    cbn; repeat split; try discriminate; eauto.
Qed.

End Engine.

End Manager.

(** *** The manager at a concrete installation *)

(** A Windows machine where the engine is installed under
    [C:\Program Files], while the configuration still names an older
    place; the engine answers [--version]. *)
Module ManagerDemo.

Definition program_dir : str := u "C:\app".
Definition os_path_join (d name : str) : str := d ++ 92 :: name.
Definition os_path_expanduser (p : str) : str := p.
Definition environ_PATH : option (list str) := Some [u "C:\tools"].
Definition json_dump (path : str) : str := path.
Definition write_fault (_ : gmap str str) (_ _ : str)
  : option (Exception * option str) := None.
Definition subprocess_run (_ : gmap str str) (_ : str) : Manager.Completion :=
  Manager.Completed 0 (u "wkhtmltopdf 0.12.6 (with patched qt)" ++ nl) [].

Definition installed : str := u "C:\Program Files\wkhtmltopdf\bin\wkhtmltopdf.exe".

Definition stale : Manager.State :=
  {| Manager.wkhtmltopdf_path := Some (u "D:\old\wkhtmltopdf.exe");
     Manager.files := <[installed := u "MZ"]> ∅;
     Manager.journal := [] |}.

Definition find : Manager.State -> option str * Manager.State :=
  Manager.find_wkhtmltopdf program_dir os_path_join os_path_expanduser environ_PATH
                           json_dump write_fault.

Definition validate (path : option str)
  : Manager.State -> (bool * str) * Manager.State :=
  Manager.validate_wkhtmltopdf program_dir os_path_join os_path_expanduser environ_PATH
                               json_dump write_fault subprocess_run path.

End ManagerDemo.

Lemma demo_find_installed :
  ManagerDemo.find ManagerDemo.stale
  = (Some ManagerDemo.installed, snd (ManagerDemo.find ManagerDemo.stale)).
Proof. vm_compute. reflexivity. Qed.

Lemma found_engine_exists_witness :
  let found := ManagerDemo.find ManagerDemo.stale in
  found = (Some ManagerDemo.installed, snd found) ∧
  Manager.os_path_exists ManagerDemo.stale ManagerDemo.installed = true ∧
  Manager.wkhtmltopdf_path (snd found) = Some ManagerDemo.installed ∧
  Manager.os_path_exists (snd found) ManagerDemo.installed = true.
Proof.
  split; [ exact demo_find_installed | ].
  exact (Manager.found_engine_exists
           ManagerDemo.program_dir ManagerDemo.os_path_join
           ManagerDemo.os_path_expanduser ManagerDemo.environ_PATH
           ManagerDemo.json_dump ManagerDemo.write_fault
           ManagerDemo.stale ManagerDemo.installed _ demo_find_installed).
Defined.

Lemma demo_installed_nonempty : ManagerDemo.installed ≠ [].
Proof. vm_compute. discriminate. Qed.

Lemma find_again_is_silent_witness :
  let found := ManagerDemo.find ManagerDemo.stale in
  found = (Some ManagerDemo.installed, snd found) ∧
  ManagerDemo.installed ≠ [] ∧
  ManagerDemo.find (snd found) = (Some ManagerDemo.installed, snd found).
Proof.
  split; [ exact demo_find_installed | ]. split; [ exact demo_installed_nonempty | ].
  exact (Manager.find_again_is_silent
           ManagerDemo.program_dir ManagerDemo.os_path_join
           ManagerDemo.os_path_expanduser ManagerDemo.environ_PATH
           ManagerDemo.json_dump ManagerDemo.write_fault
           ManagerDemo.stale ManagerDemo.installed _ demo_find_installed
           demo_installed_nonempty).
Defined.

Lemma stale_configuration_witness :
  Manager.wkhtmltopdf_path ManagerDemo.stale = Some (u "D:\old\wkhtmltopdf.exe") ∧
  u "D:\old\wkhtmltopdf.exe" ≠ [] ∧
  Manager.os_path_exists ManagerDemo.stale (u "D:\old\wkhtmltopdf.exe") = false ∧
  ManagerDemo.validate None ManagerDemo.stale
  = ((false, u "wkhtmltopdf路径不存在"), ManagerDemo.stale).
Proof.
  assert (Hne : u "D:\old\wkhtmltopdf.exe" ≠ []) by (vm_compute; discriminate).
  assert (Hex : Manager.os_path_exists ManagerDemo.stale (u "D:\old\wkhtmltopdf.exe")
                = false) by (vm_compute; reflexivity).
  split; [ reflexivity | ]. split; [ exact Hne | ]. split; [ exact Hex | ].
  exact (Manager.stale_configuration_is_not_searched
           ManagerDemo.program_dir ManagerDemo.os_path_join
           ManagerDemo.os_path_expanduser ManagerDemo.environ_PATH
           ManagerDemo.json_dump ManagerDemo.write_fault ManagerDemo.subprocess_run
           ManagerDemo.stale _ eq_refl Hne Hex).
Defined.

(** In that state the search itself would have found the engine. *)
Example stale_configuration_hides_engine :
  fst (ManagerDemo.validate None ManagerDemo.stale)
  = (false, u "wkhtmltopdf路径不存在") ∧
  fst (ManagerDemo.find ManagerDemo.stale) = Some ManagerDemo.installed.
Proof. split; vm_compute; reflexivity. Qed.

Lemma demo_validate_installed :
  ManagerDemo.validate (Some ManagerDemo.installed) ManagerDemo.stale
  = ((true, u "wkhtmltopdf 0.12.6 (with patched qt)"),
     snd (ManagerDemo.validate (Some ManagerDemo.installed) ManagerDemo.stale)).
Proof. vm_compute. reflexivity. Qed.

Lemma valid_engine_has_run_witness :
  let checked :=
    ManagerDemo.validate (Some ManagerDemo.installed) ManagerDemo.stale in
  checked = ((true, u "wkhtmltopdf 0.12.6 (with patched qt)"), snd checked) ∧
  ∃ p stdout stderr,
    p ≠ [] ∧
    Manager.os_path_exists (snd checked) p = true ∧
    ManagerDemo.subprocess_run (Manager.files (snd checked)) p
    = Manager.Completed 0 stdout stderr ∧
    u "wkhtmltopdf 0.12.6 (with patched qt)" = strip stdout ∧
    In (Manager.Version p) (Manager.journal (snd checked)).
Proof.
  split; [ exact demo_validate_installed | ].
  exact (Manager.valid_engine_has_run
           ManagerDemo.program_dir ManagerDemo.os_path_join
           ManagerDemo.os_path_expanduser ManagerDemo.environ_PATH
           ManagerDemo.json_dump ManagerDemo.write_fault ManagerDemo.subprocess_run
           (Some ManagerDemo.installed) ManagerDemo.stale _ _ demo_validate_installed).
Defined.

(** * The list of the batch page: [BatchConvertWidget] *)

Module BatchWidget.

(** A [QListWidgetItem]: the object (told apart by [item_id]), its text
    and its tool tip. *)
Record Item : Type := {
  item_id : nat;
  text : str;
  tool_tip : str
}.

(** A message box shown to the user. *)
Inductive Box : Type :=
| information (title message : str)
| warning (title message : str)
| question (title message : str).

(** The widget: [self.selected_files], the rows of [self.file_list],
    the text of [self.file_count_label], the number of items made so
    far, and the boxes shown, in order. *)
Record Widget : Type := {
  selected_files : list str;
  file_list : list Item;
  file_count_label : str;
  items_made : nat;
  boxes : list Box
}.

(** [BatchConvertWidget.__init__] *)
Definition init : Widget :=
  {| selected_files := []; file_list := []; file_count_label := u "已选择 0 个文件";
     items_made := 0; boxes := [] |}.

(** [BatchConvertWidget.update_file_count(self)] *)
Definition update_file_count (w : Widget) : Widget :=
  let count := Z.of_nat (length (selected_files w)) in
  {| selected_files := selected_files w; file_list := file_list w;
     file_count_label := u "已选择 " ++ str_of_Z count ++ u " 个文件";
     items_made := items_made w; boxes := boxes w |}.

Definition show (box : Box) (w : Widget) : Widget :=
  {| selected_files := selected_files w; file_list := file_list w;
     file_count_label := file_count_label w;
     items_made := items_made w; boxes := boxes w ++ [box] |}.

(** [file_path in self.selected_files] *)
Definition is_selected (w : Widget) (file_path : str) : bool :=
  existsb (str_eqb file_path) (selected_files w).

(** [self.selected_files.append(file_path)], then a new item with the
    text [display_name] and the tool tip [file_path] added to the list
    widget. *)
Definition append_file (file_path display_name : str) (w : Widget) : Widget :=
  let item := {| item_id := items_made w; text := display_name; tool_tip := file_path |} in
  {| selected_files := selected_files w ++ [file_path];
     file_list := file_list w ++ [item];
     file_count_label := file_count_label w;
     items_made := S (items_made w); boxes := boxes w |}.

Section Dialogs.

(** [os.path.basename]; [os.path.join]; [os.path.relpath]; the test
    [file.lower().endswith('.md')]. *)
Variable os_path_basename : str -> str.
Variable os_path_join : str -> str -> str.
Variable os_path_relpath : str -> str -> str.
Variable is_md : str -> bool.

(** The loop of [add_files] over the paths chosen in the dialog. *)
Fixpoint add_files_loop (file_paths : list str) (w : Widget) (added_count : Z)
  : Widget * Z :=
  match file_paths with
  | [] => (w, added_count)
  | file_path :: rest =>
    if negb (is_selected w file_path) then
      add_files_loop rest (append_file file_path (os_path_basename file_path) w)
                     (added_count + 1)
    else add_files_loop rest w added_count
  end.

(** [BatchConvertWidget.add_files(self)], the dialog having returned
    [file_paths]. *)
Definition add_files (file_paths : list str) (w : Widget) : Widget :=
  if match file_paths with [] => false | _ :: _ => true end then
    let '(w, added_count) := add_files_loop file_paths w 0 in
    if (added_count >? 0)%Z then
      let w := update_file_count w in
      show (information (u "成功")
              (u "已添加 " ++ str_of_Z added_count ++ u " 个新文件")) w
    else w
  else w.

(** [os.walk(folder_path)]: each directory with the names of its files. *)
Variable os_walk : str -> list (str * list str).

(** The Markdown files below [folder_path], as [add_folder] collects
    them. *)
Definition md_files_of (folder_path : str) : list str :=
  flat_map (fun entry =>
              let '(root, files) := entry in
              flat_map (fun file => if is_md file then [os_path_join root file] else [])
                       files)
           (os_walk folder_path).

(** The loop of [add_folder] over the files found. *)
Fixpoint add_folder_loop (folder_path : str) (md_files : list str) (w : Widget)
         (added_count skipped_count : Z) : Widget * Z * Z :=
  match md_files with
  | [] => (w, added_count, skipped_count)
  | file_path :: rest =>
    if negb (is_selected w file_path) then
      let relative_path := os_path_relpath file_path folder_path in
      let display_name :=
        if (Z.of_nat (length relative_path) <? 50)%Z then relative_path
        else os_path_basename file_path in
      add_folder_loop folder_path rest (append_file file_path display_name w)
                      (added_count + 1) skipped_count
    else add_folder_loop folder_path rest w added_count (skipped_count + 1)
  end.

(** [BatchConvertWidget.add_folder(self)], the dialog having returned
    [folder_path]. *)
Definition add_folder (folder_path : str) (w : Widget) : Widget :=
  if nonempty folder_path then
    let md_files := md_files_of folder_path in
    match md_files with
    | [] => show (information (u "提示") (u "该文件夹中没有找到Markdown文件")) w
    | _ :: _ =>
      let '(w, added_count, skipped_count) := add_folder_loop folder_path md_files w 0 0 in
      let w := update_file_count w in
      let message :=
        u "从文件夹 " ++ dq ++ os_path_basename folder_path ++ dq ++ u " 中找到 "
          ++ str_of_Z (Z.of_nat (length md_files)) ++ u " 个Markdown文件" ++ nl in
      let message := message ++ u "已添加: " ++ str_of_Z added_count ++ u " 个文件" in
      let message :=
        if (skipped_count >? 0)%Z
        then message ++ nl ++ u "已存在: " ++ str_of_Z skipped_count ++ u " 个文件（已跳过）"
        else message in
      show (information (u "文件夹添加完成") message) w
    end
  else w.

End Dialogs.

(** [self.file_list.row(item)]: the row of the item, [-1] when the list
    widget does not hold it. *)
Fixpoint row_from (items : list Item) (item : Item) (row : Z) : Z :=
  match items with
  | [] => (-1)%Z
  | it :: rest =>
    if Nat.eqb (item_id it) (item_id item) then row else row_from rest item (row + 1)
  end.

Definition row (w : Widget) (item : Item) : Z := row_from (file_list w) item 0.

(** [l[i]] of Python: a negative index counts from the end; [None] is
    [IndexError]. *)
Definition py_index {A} (l : list A) (i : Z) : option A :=
  if (i <? 0)%Z then
    if (i + Z.of_nat (length l) <? 0)%Z then None
    else l !! Z.to_nat (i + Z.of_nat (length l))
  else l !! Z.to_nat i.

(** [l.remove(x)]: the first occurrence goes; [None] is [ValueError]. *)
Fixpoint py_remove (l : list str) (x : str) : option (list str) :=
  match l with
  | [] => None
  | y :: rest =>
    if str_eqb y x then Some rest
    else match py_remove rest x with
         | Some rest' => Some (y :: rest')
         | None => None
         end
  end.

(** [self.file_list.takeItem(row)]: the item of that row leaves the
    list widget; nothing happens for a row out of range. *)
Definition take_item (items : list Item) (row : Z) : list Item :=
  if (row <? 0)%Z then items else delete (Z.to_nat row) items.

(** The loop of [remove_selected_files]; [None] when an exception is
    raised. *)
Fixpoint remove_loop (selected_items : list Item) (w : Widget) : option Widget :=
  match selected_items with
  | [] => Some w
  | item :: rest =>
    let row := row w item in
    match py_index (selected_files w) row with
    | None => None
    | Some file_path =>
      match py_remove (selected_files w) file_path with
      | None => None
      | Some files =>
        remove_loop rest
          {| selected_files := files; file_list := take_item (file_list w) row;
             file_count_label := file_count_label w;
             items_made := items_made w; boxes := boxes w |}
      end
    end
  end.

(** [BatchConvertWidget.remove_selected_files(self)], the list widget
    having [selected_items] selected. *)
Definition remove_selected_files (selected_items : list Item) (w : Widget)
  : option Widget :=
  match selected_items with
  | [] => Some (show (warning (u "警告") (u "请先选择要移除的文件")) w)
  | _ :: _ =>
    match remove_loop selected_items w with
    | None => None
    | Some w =>
      let w := update_file_count w in
      Some (show (information (u "成功")
                    (u "已移除 " ++ str_of_Z (Z.of_nat (length selected_items))
                       ++ u " 个文件")) w)
    end
  end.

(** [BatchConvertWidget.clear_files(self)], the user answering [yes] to
    the question. *)
Definition clear_files (yes : bool) (w : Widget) : Widget :=
  match selected_files w with
  | [] => w
  | _ :: _ =>
    let w :=
      show (question (u "确认清除")
              (u "确定要清除所有 " ++ str_of_Z (Z.of_nat (length (selected_files w)))
                 ++ u " 个已选择的文件吗？")) w in
    if yes then
      let w := {| selected_files := []; file_list := [];
                  file_count_label := file_count_label w;
                  items_made := items_made w; boxes := boxes w |} in
      let w := update_file_count w in
      show (information (u "成功") (u "已清空文件列表")) w
    else w
  end.

(** *** Properties *)

(** The list widget and [selected_files] go together: row by row the
    tool tip of the item is the path, no path is there twice, and the
    items are distinct objects made by this widget. *)
Definition aligned (w : Widget) : Prop :=
  NoDup (selected_files w) ∧
  List.map tool_tip (file_list w) = selected_files w ∧
  NoDup (List.map item_id (file_list w)) ∧
  Forall (fun it => (item_id it < items_made w)%nat) (file_list w).

Lemma is_selected_In (w : Widget) (file_path : str) :
  is_selected w file_path = true <-> In file_path (selected_files w).
Proof.
  unfold is_selected. rewrite existsb_exists. split.
  - intros (x & Hin & Heq). unfold str_eqb in Heq.
    apply bool_decide_eq_true in Heq. subst x. exact Hin.
  - intros Hin. exists file_path. split; [ exact Hin | ].
    unfold str_eqb. apply bool_decide_eq_true. reflexivity.
Qed.

Lemma is_selected_not_In (w : Widget) (file_path : str) :
  is_selected w file_path = false <-> ¬ In file_path (selected_files w).
Proof.
  rewrite <- is_selected_In. destruct (is_selected w file_path); split; congruence.
Qed.

Lemma aligned_init : aligned init.
Proof. repeat split; cbn; constructor. Qed.

Lemma aligned_append (file_path display_name : str) (w : Widget) :
  aligned w -> ¬ In file_path (selected_files w) ->
  aligned (append_file file_path display_name w).
Proof.
  intros (Hnodup & Htips & Hids & Hmade) Hnew. unfold aligned. cbn.
  split; [ | split; [ | split ] ].
  - apply NoDup_app. split; [ exact Hnodup | ]. split.
    + intros x Hx Hin. apply list_elem_of_In in Hx. apply list_elem_of_In in Hin.
      destruct Hin as [<- | []]. exact (Hnew Hx).
    + apply NoDup_singleton.
  - rewrite List.map_app, Htips. reflexivity.
  - rewrite List.map_app. apply NoDup_app. split; [ exact Hids | ]. split.
    + intros x Hx Hin. apply list_elem_of_In in Hx. apply list_elem_of_In in Hin.
      destruct Hin as [<- | []].
      apply in_map_iff in Hx as (it & Hid & Hit).
      rewrite Forall_forall in Hmade.
      specialize (Hmade it (proj2 (list_elem_of_In _ _) Hit)). cbn in Hid, Hmade. lia.
    + apply NoDup_singleton.
  - apply Forall_app. split.
    + eapply Forall_impl; [ exact Hmade | ]. cbn. intros. lia.
    + constructor; [ cbn; lia | constructor ].
Qed.

Lemma aligned_update_file_count (w : Widget) : aligned w -> aligned (update_file_count w).
Proof. intros H. exact H. Qed.

Lemma aligned_show (box : Box) (w : Widget) : aligned w -> aligned (show box w).
Proof. intros H. exact H. Qed.

Section AddFilesProperties.

Variable os_path_basename : str -> str.

Local Abbreviation add_files_loop' := (add_files_loop os_path_basename).
Local Abbreviation add_files' := (add_files os_path_basename).

(** What the loop of [add_files] does to [selected_files]: the paths
    that were not selected are appended, each once, in the order in
    which they first occur; their number is what is added to the
    count. *)
Lemma add_files_loop_spec (file_paths : list str) :
  ∀ (w : Widget) (added_count : Z),
    ∃ new,
      selected_files (fst (add_files_loop' file_paths w added_count))
      = selected_files w ++ new ∧
      snd (add_files_loop' file_paths w added_count)
      = (added_count + Z.of_nat (length new))%Z ∧
      NoDup new ∧
      (∀ p, In p new <-> In p file_paths ∧ ¬ In p (selected_files w)) ∧
      (aligned w -> aligned (fst (add_files_loop' file_paths w added_count))) ∧
      boxes (fst (add_files_loop' file_paths w added_count)) = boxes w ∧
      (new = [] -> fst (add_files_loop' file_paths w added_count) = w).
Proof.
  induction file_paths as [ | file_path rest IH]; intros w added_count; cbn [add_files_loop].
  - exists []. cbn. rewrite app_nil_r, Z.add_0_r.
    split; [ reflexivity | ]. split; [ reflexivity | ]. split; [ constructor | ].
    split; [ intros p; tauto | ]. auto.
  - destruct (is_selected w file_path) eqn:Hsel; cbn [negb].
    + apply is_selected_In in Hsel.
      destruct (IH w added_count) as (new & Hfiles & Hcount & Hnodup & Hnew & Hal & Hbox & Hsame).
      exists new.
      split; [ exact Hfiles | ]. split; [ exact Hcount | ]. split; [ exact Hnodup | ].
      split.
      { intros p. rewrite Hnew. split.
        - intros [Hp Hnot]. split; [ right; exact Hp | exact Hnot ].
        - intros [[<- | Hp] Hnot]; [ contradiction | auto ]. }
      split; [ exact Hal | ]. split; [ exact Hbox | exact Hsame ].
    + apply is_selected_not_In in Hsel.
      destruct (IH (append_file file_path (os_path_basename file_path) w) (added_count + 1)%Z)
        as (new & Hfiles & Hcount & Hnodup & Hnew & Hal & Hbox & Hsame).
      cbn [append_file selected_files] in Hfiles, Hnew.
      exists (file_path :: new).
      split; [ rewrite Hfiles, <- app_assoc; reflexivity | ].
      split; [ rewrite Hcount; cbn [length]; lia | ].
      split.
      { apply NoDup_cons. split; [ | exact Hnodup ].
        intros Hin. apply list_elem_of_In, Hnew in Hin as [_ Hnot].
        apply Hnot, in_or_app. right. left. reflexivity. }
      split.
      { intros p. split.
        - intros [<- | Hp]; [ split; [ left; reflexivity | exact Hsel ] | ].
          apply Hnew in Hp as [Hp Hnot]. split; [ right; exact Hp | ].
          intros Hin. apply Hnot, in_or_app. left. exact Hin.
        - intros [[<- | Hp] Hnot]; [ left; reflexivity | ].
          destruct (decide (p = file_path)) as [-> | Hne]; [ left; reflexivity | ].
          right. apply Hnew. split; [ exact Hp | ].
          intros Hin. apply in_app_or in Hin as [Hin | [Hin | []]]; congruence. }
      split; [ intros Hw; apply Hal, aligned_append; assumption | ].
      split; [ exact Hbox | discriminate ].
Qed.

Lemma add_files_keeps_rows_aligned_aux (file_paths : list str) (w : Widget) :
  aligned w -> aligned (add_files' file_paths w).
Proof.
  intros Hw. unfold add_files.
  destruct file_paths as [ | file_path rest]; [ exact Hw | ].
  destruct (add_files_loop_spec (file_path :: rest) w 0)
    as (new & _ & _ & _ & _ & Hal & _).
  destruct (add_files_loop' (file_path :: rest) w 0) as [w' added_count].
  cbn [fst] in Hal.
  destruct (added_count >? 0)%Z; auto using aligned_show, aligned_update_file_count.
Qed.

(** [add_files] keeps the list widget and [selected_files] together,
    from any widget where they are. *)
Theorem add_files_keeps_rows_aligned (file_paths : list str) (w : Widget) :
  aligned w -> aligned (add_files' file_paths w).
Proof. apply add_files_keeps_rows_aligned_aux. Qed.

Lemma add_files_spec (file_paths : list str) (w : Widget) :
  ∃ new,
    selected_files (add_files' file_paths w) = selected_files w ++ new ∧
    NoDup new ∧
    (∀ p, In p new <-> In p file_paths ∧ ¬ In p (selected_files w)) ∧
    match new with
    | [] => add_files' file_paths w = w
    | _ :: _ =>
      file_count_label (add_files' file_paths w)
      = u "已选择 " ++ str_of_Z (Z.of_nat (length (selected_files w ++ new)))
          ++ u " 个文件" ∧
      boxes (add_files' file_paths w)
      = boxes w ++ [information (u "成功")
                      (u "已添加 " ++ str_of_Z (Z.of_nat (length new)) ++ u " 个新文件")]
    end.
Proof.
  unfold add_files.
  destruct file_paths as [ | file_path rest].
  { exists []. rewrite app_nil_r. split; [ reflexivity | ]. split; [ constructor | ].
    split; [ intros p; cbn; tauto | reflexivity ]. }
  destruct (add_files_loop_spec (file_path :: rest) w 0)
    as (new & Hfiles & Hcount & Hnodup & Hnew & _ & Hbox & Hsame).
  destruct (add_files_loop' (file_path :: rest) w 0) as [w' added_count].
  cbn [fst snd] in *. subst added_count. exists new.
  destruct new as [ | p new].
  - rewrite (Hsame eq_refl), app_nil_r.
    change (0 + Z.of_nat (length (@nil str)) >? 0)%Z with false.
    split; [ reflexivity | ]. split; [ exact Hnodup | ]. split; [ exact Hnew | reflexivity ].
  - assert (Hpos : (0 + Z.of_nat (length (p :: new)) >? 0)%Z = true).
    { cbn [length]. apply Z.gtb_lt. lia. }
    rewrite Hpos. cbn [show update_file_count selected_files boxes file_count_label].
    rewrite Hfiles, Hbox, Z.add_0_l.
    split; [ reflexivity | ]. split; [ exact Hnodup | ]. split; [ exact Hnew | ].
    split; reflexivity.
Qed.

(** [add_files] appends to [selected_files] the chosen paths that were
    not in it, each once, and changes nothing else of the list; when
    there is such a path the count label follows and one box tells how
    many were added; when there is none, nothing changes and no box is
    shown. *)
Theorem add_files_appends_new_paths (file_paths : list str) (w : Widget) :
  ∃ new,
    selected_files (add_files' file_paths w) = selected_files w ++ new ∧
    NoDup new ∧
    (∀ p, In p new <-> In p file_paths ∧ ¬ In p (selected_files w)) ∧
    match new with
    | [] => add_files' file_paths w = w
    | _ :: _ =>
      file_count_label (add_files' file_paths w)
      = u "已选择 " ++ str_of_Z (Z.of_nat (length (selected_files w ++ new)))
          ++ u " 个文件" ∧
      boxes (add_files' file_paths w)
      = boxes w ++ [information (u "成功")
                      (u "已添加 " ++ str_of_Z (Z.of_nat (length new)) ++ u " 个新文件")]
    end.
Proof. apply add_files_spec. Qed.

(** Choosing the same files a second time changes nothing: nothing is
    added, and no box is shown. *)
Theorem add_files_again_changes_nothing (file_paths : list str) (w : Widget) :
  add_files' file_paths (add_files' file_paths w) = add_files' file_paths w.
Proof.
  destruct (add_files_spec file_paths w) as (new1 & Hfiles1 & _ & Hnew1 & _).
  destruct (add_files_spec file_paths (add_files' file_paths w))
    as (new2 & _ & _ & Hnew2 & Hcase).
  destruct new2 as [ | p new2]; [ exact Hcase | exfalso ].
  destruct (proj1 (Hnew2 p) (or_introl eq_refl)) as [Hp Hnot].
  apply Hnot. rewrite Hfiles1. apply in_or_app.
  destruct (decide (p ∈ selected_files w)) as [Hin | Hout].
  - left. apply list_elem_of_In. exact Hin.
  - right. apply Hnew1. split; [ exact Hp | ].
    intros Hin. apply Hout, list_elem_of_In. exact Hin.
Qed.

End AddFilesProperties.

Section AddFolderProperties.

Variable os_path_basename : str -> str.
Variable os_path_join : str -> str -> str.
Variable os_path_relpath : str -> str -> str.
Variable is_md : str -> bool.
Variable os_walk : str -> list (str * list str).

Local Abbreviation add_folder_loop' := (add_folder_loop os_path_basename os_path_relpath).
Local Abbreviation add_folder' :=
  (add_folder os_path_basename os_path_join os_path_relpath is_md os_walk).

(** The loop of [add_folder]: as the loop of [add_files], and the two
    counts add up to the number of files found. *)
Lemma add_folder_loop_spec (folder_path : str) (md_files : list str) :
  ∀ (w : Widget) (added_count skipped_count : Z),
    let result := add_folder_loop' folder_path md_files w added_count skipped_count in
    ∃ new,
      selected_files (fst (fst result)) = selected_files w ++ new ∧
      snd (fst result) = (added_count + Z.of_nat (length new))%Z ∧
      snd result
      = (skipped_count + (Z.of_nat (length md_files) - Z.of_nat (length new)))%Z ∧
      NoDup new ∧
      (∀ p, In p new <-> In p md_files ∧ ¬ In p (selected_files w)) ∧
      (aligned w -> aligned (fst (fst result))) ∧
      boxes (fst (fst result)) = boxes w.
Proof.
  induction md_files as [ | file_path rest IH]; intros w added_count skipped_count;
    cbv zeta; cbn [add_folder_loop].
  - exists []. cbn. rewrite app_nil_r.
    split; [ reflexivity | ]. split; [ lia | ]. split; [ lia | ].
    split; [ constructor | ]. split; [ intros p; tauto | ]. auto.
  - destruct (is_selected w file_path) eqn:Hsel; cbn [negb].
    + apply is_selected_In in Hsel.
      destruct (IH w added_count (skipped_count + 1)%Z)
        as (new & Hfiles & Hadded & Hskipped & Hnodup & Hnew & Hal & Hbox).
      exists new.
      split; [ exact Hfiles | ]. split; [ exact Hadded | ].
      split; [ rewrite Hskipped; cbn [length]; lia | ].
      split; [ exact Hnodup | ].
      split.
      { intros p. rewrite Hnew. split.
        - intros [Hp Hnot]. split; [ right; exact Hp | exact Hnot ].
        - intros [[<- | Hp] Hnot]; [ contradiction | auto ]. }
      split; [ exact Hal | exact Hbox ].
    + apply is_selected_not_In in Hsel.
      match goal with
      | |- context [append_file file_path ?name w] =>
        destruct (IH (append_file file_path name w) (added_count + 1)%Z skipped_count)
          as (new & Hfiles & Hadded & Hskipped & Hnodup & Hnew & Hal & Hbox)
      end.
      cbn [append_file selected_files] in Hfiles, Hnew.
      exists (file_path :: new).
      split; [ rewrite Hfiles, <- app_assoc; reflexivity | ].
      split; [ rewrite Hadded; cbn [length]; lia | ].
      split; [ rewrite Hskipped; cbn [length]; lia | ].
      split.
      { apply NoDup_cons. split; [ | exact Hnodup ].
        intros Hin. apply list_elem_of_In, Hnew in Hin as [_ Hnot].
        apply Hnot, in_or_app. right. left. reflexivity. }
      split.
      { intros p. split.
        - intros [<- | Hp]; [ split; [ left; reflexivity | exact Hsel ] | ].
          apply Hnew in Hp as [Hp Hnot]. split; [ right; exact Hp | ].
          intros Hin. apply Hnot, in_or_app. left. exact Hin.
        - intros [[<- | Hp] Hnot]; [ left; reflexivity | ].
          destruct (decide (p = file_path)) as [-> | Hne]; [ left; reflexivity | ].
          right. apply Hnew. split; [ exact Hp | ].
          intros Hin. apply in_app_or in Hin as [Hin | [Hin | []]]; congruence. }
      split; [ intros Hw; apply Hal, aligned_append; assumption | exact Hbox ].
Qed.

(** The box that ends [add_folder], for [found] files of which
    [added_count] were added. *)
Definition folder_report (folder_path : str) (found added_count : Z) : Box :=
  let skipped_count := (found - added_count)%Z in
  let message :=
    u "从文件夹 " ++ dq ++ os_path_basename folder_path ++ dq ++ u " 中找到 "
      ++ str_of_Z found ++ u " 个Markdown文件" ++ nl in
  let message := message ++ u "已添加: " ++ str_of_Z added_count ++ u " 个文件" in
  information (u "文件夹添加完成")
    (if (skipped_count >? 0)%Z
     then message ++ nl ++ u "已存在: " ++ str_of_Z skipped_count ++ u " 个文件（已跳过）"
     else message).

(** [add_folder] on a folder that holds Markdown files: the files found
    that were not selected are appended to [selected_files], each once;
    the rows stay aligned; and the box that ends the call reports the
    number found, the number added and, when it is not zero, the number
    skipped, which is the rest of those found. *)
Theorem add_folder_adds_and_reports (folder_path : str) (w : Widget) :
  folder_path ≠ [] ->
  md_files_of os_path_join is_md os_walk folder_path ≠ [] ->
  let md_files := md_files_of os_path_join is_md os_walk folder_path in
  ∃ new,
    selected_files (add_folder' folder_path w) = selected_files w ++ new ∧
    NoDup new ∧
    (∀ p, In p new <-> In p md_files ∧ ¬ In p (selected_files w)) ∧
    (aligned w -> aligned (add_folder' folder_path w)) ∧
    boxes (add_folder' folder_path w)
    = boxes w ++ [folder_report folder_path (Z.of_nat (length md_files))
                                (Z.of_nat (length new))].
Proof.
  intros Hfolder Hfound md_files. subst md_files. unfold add_folder.
  destruct folder_path as [ | c folder]; [ congruence | ]. cbn [nonempty]. cbv zeta.
  destruct (md_files_of os_path_join is_md os_walk (c :: folder)) as [ | f found];
    [ congruence | ].
  destruct (add_folder_loop_spec (c :: folder) (f :: found) w 0 0)
    as (new & Hfiles & Hadded & Hskipped & Hnodup & Hnew & Hal & Hbox).
  destruct (add_folder_loop' (c :: folder) (f :: found) w 0 0)
    as [[w' added_count] skipped_count].
  cbn [fst snd] in *. subst added_count skipped_count. exists new.
  split; [ exact Hfiles | ]. split; [ exact Hnodup | ]. split; [ exact Hnew | ].
  split; [ intros Hw; apply aligned_show, aligned_update_file_count, Hal, Hw | ].
  cbn [show update_file_count boxes]. rewrite Hbox. unfold folder_report. cbv zeta.
  rewrite !Z.add_0_l. reflexivity.
Qed.

End AddFolderProperties.

(** *** Removing rows *)

Lemma row_from_middle (l1 : list Item) (item : Item) (l2 : list Item) (k : Z) :
  ¬ In (item_id item) (List.map item_id l1) ->
  row_from (l1 ++ item :: l2) item k = (k + Z.of_nat (length l1))%Z.
Proof.
  revert k. induction l1 as [ | it l1 IH]; intros k Hout; cbn [app row_from].
  - rewrite Nat.eqb_refl. cbn. lia.
  - destruct (Nat.eqb_spec (item_id it) (item_id item)) as [Heq | _].
    + exfalso. apply Hout. left. exact Heq.
    + rewrite IH; [ cbn [length]; lia | ]. intros Hin. apply Hout. right. exact Hin.
Qed.

Lemma py_index_middle {A} (l1 : list A) (x : A) (l2 : list A) (n : nat) :
  n = length l1 -> py_index (l1 ++ x :: l2) (Z.of_nat n) = Some x.
Proof.
  intros ->. unfold py_index. destruct (Z.ltb_spec (Z.of_nat (length l1)) 0) as [H | _]; [ lia | ].
  rewrite Nat2Z.id. apply list_lookup_middle. reflexivity.
Qed.

Lemma py_remove_middle (l1 : list str) (x : str) (l2 : list str) :
  ¬ In x l1 -> py_remove (l1 ++ x :: l2) x = Some (l1 ++ l2).
Proof.
  induction l1 as [ | y l1 IH]; intros Hout; cbn [app py_remove].
  - unfold str_eqb. rewrite bool_decide_eq_true_2 by reflexivity. reflexivity.
  - unfold str_eqb at 1. rewrite bool_decide_eq_false_2.
    + rewrite IH; [ reflexivity | ]. intros Hin. apply Hout. right. exact Hin.
    + intros ->. apply Hout. left. reflexivity.
Qed.

Lemma take_item_middle (l1 : list Item) (x : Item) (l2 : list Item) :
  take_item (l1 ++ x :: l2) (Z.of_nat (length l1)) = l1 ++ l2.
Proof.
  unfold take_item. destruct (Z.ltb_spec (Z.of_nat (length l1)) 0) as [H | _]; [ lia | ].
  rewrite Nat2Z.id. apply delete_middle.
Qed.

(** The rows that stay when the items with the identities [ids] go. *)
Definition stays (ids : list nat) (it : Item) : bool :=
  negb (existsb (Nat.eqb (item_id it)) ids).

Lemma filter_stays_nil (l : list Item) : List.filter (stays []) l = l.
Proof.
  induction l as [ | it l IH]; [ reflexivity | ].
  cbn [List.filter]. unfold stays at 1. cbn [existsb negb]. rewrite IH. reflexivity.
Qed.

Lemma filter_stays_cons (i : nat) (ids : list nat) (l : list Item) :
  List.filter (stays (i :: ids)) l
  = List.filter (stays ids) (List.filter (fun it => negb (Nat.eqb (item_id it) i)) l).
Proof.
  induction l as [ | it l IH]; [ reflexivity | ].
  cbn [List.filter]. unfold stays at 1. cbn [existsb]. rewrite negb_orb.
  destruct (Nat.eqb (item_id it) i); cbn [negb andb List.filter].
  - exact IH.
  - fold (stays ids it). destruct (stays ids it); rewrite IH; reflexivity.
Qed.

Lemma filter_other_ids (l : list Item) (i : nat) :
  ¬ In i (List.map item_id l) ->
  List.filter (fun it => negb (Nat.eqb (item_id it) i)) l = l.
Proof.
  induction l as [ | it l IH]; intros Hout; [ reflexivity | ].
  cbn [List.filter]. destruct (Nat.eqb_spec (item_id it) i) as [Heq | _].
  - exfalso. apply Hout. left. exact Heq.
  - cbn [negb]. rewrite IH; [ reflexivity | ]. intros Hin. apply Hout. right. exact Hin.
Qed.

Lemma filter_middle (l1 : list Item) (item : Item) (l2 : list Item) :
  NoDup (List.map item_id (l1 ++ item :: l2)) ->
  List.filter (fun it => negb (Nat.eqb (item_id it) (item_id item))) (l1 ++ item :: l2)
  = l1 ++ l2.
Proof.
  intros Hids. rewrite List.map_app in Hids. cbn [List.map] in Hids.
  apply NoDup_app in Hids as (_ & Hcross & Hright).
  apply NoDup_cons in Hright as [Hnot2 _].
  rewrite List.filter_app. cbn [List.filter]. rewrite Nat.eqb_refl. cbn [negb].
  rewrite !filter_other_ids; [ reflexivity | | ].
  - intros Hin. apply Hnot2, list_elem_of_In. exact Hin.
  - intros Hin. apply (Hcross (item_id item)); [ apply list_elem_of_In; exact Hin | ].
    left.
Qed.

(** One turn of the loop of [remove_selected_files], for an item of the
    list widget of an aligned widget: its row and its path go, and
    nothing else. *)
Lemma remove_loop_spec (selected_items : list Item) :
  ∀ w,
    aligned w ->
    NoDup (List.map item_id selected_items) ->
    (∀ it, In it selected_items -> In it (file_list w)) ->
    ∃ w',
      remove_loop selected_items w = Some w' ∧
      aligned w' ∧
      file_list w' = List.filter (stays (List.map item_id selected_items)) (file_list w) ∧
      boxes w' = boxes w ∧
      items_made w' = items_made w.
Proof.
  induction selected_items as [ | item rest IH]; intros w Hw Hsel Hin.
  - exists w. split; [ reflexivity | ]. split; [ exact Hw | ].
    split; [ | auto ].
    cbn [List.map]. rewrite filter_stays_nil. reflexivity.
  - cbn [List.map] in Hsel. apply NoDup_cons in Hsel as [Hfresh Hsel].
    destruct Hw as (Hnodup & Htips & Hids & Hmade).
    destruct (in_split item (file_list w) (Hin item (or_introl eq_refl)))
      as (l1 & l2 & Hsplit).
    assert (Hout1 : ¬ In (item_id item) (List.map item_id l1)).
    { rewrite Hsplit, List.map_app in Hids. cbn [List.map] in Hids.
      apply NoDup_app in Hids as (_ & Hcross & _).
      intros H. apply (Hcross (item_id item)); [ apply list_elem_of_In; exact H | left ]. }
    assert (Hfiles : selected_files w
                     = List.map tool_tip l1 ++ tool_tip item :: List.map tool_tip l2).
    { rewrite <- Htips, Hsplit, List.map_app. reflexivity. }
    assert (Hout2 : ¬ In (tool_tip item) (List.map tool_tip l1)).
    { rewrite Hfiles in Hnodup. apply NoDup_app in Hnodup as (_ & Hcross & _).
      intros H. apply (Hcross (tool_tip item)); [ apply list_elem_of_In; exact H | left ]. }
    cbn [remove_loop]. unfold row. rewrite Hsplit, (row_from_middle _ _ _ 0 Hout1).
    rewrite Z.add_0_l, Hfiles.
    rewrite (py_index_middle _ _ _ (length l1)) by (rewrite length_map; reflexivity).
    rewrite (py_remove_middle _ _ _ Hout2), take_item_middle.
    match goal with
    | |- ∃ w', remove_loop rest ?w1 = _ ∧ _ => destruct (IH w1) as (w' & Hrun & Hw' & Hlist & Hbox & Hmade')
    end.
    + unfold aligned. cbn.
      split.
      { rewrite Hfiles in Hnodup. apply NoDup_app in Hnodup as (H1 & Hcross & H2).
        apply NoDup_cons in H2 as [Hnot2 H2].
        apply NoDup_app. split; [ exact H1 | ]. split; [ | exact H2 ].
        intros x Hx Hx2. apply (Hcross x Hx). right. exact Hx2. }
      split; [ rewrite List.map_app; reflexivity | ].
      split.
      { rewrite Hsplit, List.map_app in Hids. cbn [List.map] in Hids.
        apply NoDup_app in Hids as (H1 & Hcross & H2).
        apply NoDup_cons in H2 as [Hnot2 H2].
        rewrite List.map_app. apply NoDup_app. split; [ exact H1 | ]. split; [ | exact H2 ].
        intros x Hx Hx2. apply (Hcross x Hx). right. exact Hx2. }
      rewrite Hsplit in Hmade. apply Forall_app in Hmade as [H1 H2].
      apply Forall_cons in H2 as [_ H2]. apply Forall_app. auto.
    + exact Hsel.
    + intros it Hit. cbn.
      specialize (Hin it (or_intror Hit)). rewrite Hsplit in Hin.
      apply in_app_or in Hin as [Hin | [Heq | Hin]]; apply in_or_app; auto.
      exfalso. subst it. apply Hfresh, list_elem_of_In, in_map. exact Hit.
    + exists w'. split; [ exact Hrun | ]. split; [ exact Hw' | ].
      split; [ | auto ].
      rewrite Hlist. cbn [file_list List.map]. rewrite filter_stays_cons.
      rewrite filter_middle; [ reflexivity | rewrite <- Hsplit; exact Hids ].
Qed.

(** [remove_selected_files] on a widget whose rows are aligned, for a
    selection of distinct items of its list widget: no exception is
    raised; exactly the selected rows go, and with each its path; the
    rows stay aligned; the count label follows, and the box tells how
    many were removed. *)
Theorem remove_selected_files_removes_the_rows
        (selected_items : list Item) (w : Widget) :
  aligned w ->
  selected_items ≠ [] ->
  NoDup (List.map item_id selected_items) ->
  (∀ it, In it selected_items -> In it (file_list w)) ->
  ∃ w',
    remove_selected_files selected_items w = Some w' ∧
    aligned w' ∧
    file_list w' = List.filter (stays (List.map item_id selected_items)) (file_list w) ∧
    selected_files w' = List.map tool_tip (file_list w') ∧
    file_count_label w'
    = u "已选择 " ++ str_of_Z (Z.of_nat (length (selected_files w'))) ++ u " 个文件" ∧
    boxes w'
    = boxes w ++ [information (u "成功")
                    (u "已移除 " ++ str_of_Z (Z.of_nat (length selected_items))
                       ++ u " 个文件")].
Proof.
  intros Hw Hne Hsel Hin.
  destruct (remove_loop_spec selected_items w Hw Hsel Hin)
    as (w1 & Hrun & Hw1 & Hlist & Hbox & _).
  unfold remove_selected_files.
  destruct selected_items as [ | item rest]; [ congruence | ].
  rewrite Hrun. eexists. split; [ reflexivity | ].
  split; [ exact Hw1 | ].
  cbn [show update_file_count file_list selected_files file_count_label boxes].
  split; [ exact Hlist | ].
  split; [ symmetry; apply Hw1 | ].
  split; [ reflexivity | rewrite Hbox; reflexivity ].
Qed.

(** With nothing selected, [remove_selected_files] only warns. *)
Example remove_nothing (w : Widget) :
  remove_selected_files [] w
  = Some (show (warning (u "警告") (u "请先选择要移除的文件")) w).
Proof. reflexivity. Qed.

End BatchWidget.

(** *** The widget at a concrete folder *)

Module WidgetDemo.

Definition os_path_relpath (path start : str) : str := drop (S (length start)) path.
Definition is_md (file : str) : bool :=
  str_eqb (drop (length file - 3) file) (u ".md")
  || str_eqb (drop (length file - 3) file) (u ".MD").
Definition os_walk (folder_path : str) : list (str * list str) :=
  [ (folder_path, [u "b.md"; u "notes.txt"; u "c.MD"]) ].

Definition add_files : list str -> BatchWidget.Widget -> BatchWidget.Widget :=
  BatchWidget.add_files Demo.os_path_basename.

Definition add_folder : str -> BatchWidget.Widget -> BatchWidget.Widget :=
  BatchWidget.add_folder Demo.os_path_basename Demo.os_path_join os_path_relpath
                         is_md os_walk.

(** The widget after [/in/a.md] and [/in/b.md] were added. *)
Definition two_files : BatchWidget.Widget :=
  add_files [u "/in/a.md"; u "/in/b.md"] BatchWidget.init.

Definition first_row : BatchWidget.Item :=
  {| BatchWidget.item_id := 0; BatchWidget.text := u "a.md";
     BatchWidget.tool_tip := u "/in/a.md" |}.

End WidgetDemo.

Lemma add_files_keeps_rows_aligned_witness :
  BatchWidget.aligned BatchWidget.init ∧
  BatchWidget.aligned (WidgetDemo.add_files [u "/in/a.md"; u "/in/b.md"] BatchWidget.init).
Proof.
  split; [ exact BatchWidget.aligned_init | ].
  exact (BatchWidget.add_files_keeps_rows_aligned
           Demo.os_path_basename [u "/in/a.md"; u "/in/b.md"] BatchWidget.init
           BatchWidget.aligned_init).
Defined.

Lemma demo_folder_found :
  BatchWidget.md_files_of Demo.os_path_join WidgetDemo.is_md WidgetDemo.os_walk (u "/in")
  = [u "/in/b.md"; u "/in/c.MD"].
Proof. vm_compute. reflexivity. Qed.

Lemma add_folder_witness :
  let md_files :=
    BatchWidget.md_files_of Demo.os_path_join WidgetDemo.is_md WidgetDemo.os_walk
                            (u "/in") in
  u "/in" ≠ [] ∧
  md_files ≠ [] ∧
  ∃ new,
    BatchWidget.selected_files (WidgetDemo.add_folder (u "/in") WidgetDemo.two_files)
    = BatchWidget.selected_files WidgetDemo.two_files ++ new ∧
    NoDup new ∧
    (∀ p, In p new
          <-> In p md_files ∧ ¬ In p (BatchWidget.selected_files WidgetDemo.two_files)) ∧
    (BatchWidget.aligned WidgetDemo.two_files ->
     BatchWidget.aligned (WidgetDemo.add_folder (u "/in") WidgetDemo.two_files)) ∧
    BatchWidget.boxes (WidgetDemo.add_folder (u "/in") WidgetDemo.two_files)
    = BatchWidget.boxes WidgetDemo.two_files
        ++ [BatchWidget.folder_report Demo.os_path_basename (u "/in")
              (Z.of_nat (length md_files)) (Z.of_nat (length new))].
Proof.
  assert (Hfolder : u "/in" ≠ []) by (vm_compute; discriminate).
  assert (Hfound : BatchWidget.md_files_of Demo.os_path_join WidgetDemo.is_md
                     WidgetDemo.os_walk (u "/in") ≠ [])
    by (rewrite demo_folder_found; discriminate).
  split; [ exact Hfolder | ]. split; [ exact Hfound | ].
  exact (BatchWidget.add_folder_adds_and_reports
           Demo.os_path_basename Demo.os_path_join WidgetDemo.os_path_relpath
           WidgetDemo.is_md WidgetDemo.os_walk (u "/in") WidgetDemo.two_files
           Hfolder Hfound).
Defined.

(** In that folder one file is new and one is skipped. *)
Example add_folder_skips_selected :
  let w := WidgetDemo.add_folder (u "/in") WidgetDemo.two_files in
  BatchWidget.selected_files w = [u "/in/a.md"; u "/in/b.md"; u "/in/c.MD"] ∧
  last (BatchWidget.boxes w)
  = Some (BatchWidget.information (u "文件夹添加完成")
            (u "从文件夹 " ++ dq ++ u "in" ++ dq ++ u " 中找到 2 个Markdown文件" ++ nl
               ++ u "已添加: 1 个文件" ++ nl ++ u "已存在: 1 个文件（已跳过）")).
Proof. vm_compute. split; reflexivity. Qed.

Lemma demo_two_files_aligned : BatchWidget.aligned WidgetDemo.two_files.
Proof.
  exact (BatchWidget.add_files_keeps_rows_aligned_aux
           Demo.os_path_basename [u "/in/a.md"; u "/in/b.md"] BatchWidget.init
           BatchWidget.aligned_init).
Qed.

Lemma remove_selected_files_witness :
  BatchWidget.aligned WidgetDemo.two_files ∧
  [WidgetDemo.first_row] ≠ [] ∧
  NoDup (List.map BatchWidget.item_id [WidgetDemo.first_row]) ∧
  (∀ it, In it [WidgetDemo.first_row] ->
         In it (BatchWidget.file_list WidgetDemo.two_files)) ∧
  ∃ w',
    BatchWidget.remove_selected_files [WidgetDemo.first_row] WidgetDemo.two_files
    = Some w' ∧
    BatchWidget.aligned w' ∧
    BatchWidget.file_list w'
    = List.filter (BatchWidget.stays (List.map BatchWidget.item_id [WidgetDemo.first_row]))
                  (BatchWidget.file_list WidgetDemo.two_files) ∧
    BatchWidget.selected_files w'
    = List.map BatchWidget.tool_tip (BatchWidget.file_list w') ∧
    BatchWidget.file_count_label w'
    = u "已选择 " ++ str_of_Z (Z.of_nat (length (BatchWidget.selected_files w')))
        ++ u " 个文件" ∧
    BatchWidget.boxes w'
    = BatchWidget.boxes WidgetDemo.two_files
        ++ [BatchWidget.information (u "成功")
              (u "已移除 " ++ str_of_Z (Z.of_nat (length [WidgetDemo.first_row]))
                 ++ u " 个文件")].
Proof.
  assert (Hne : [WidgetDemo.first_row] ≠ []) by discriminate.
  assert (Hsel : NoDup (List.map BatchWidget.item_id [WidgetDemo.first_row]))
    by (apply NoDup_singleton).
  assert (Hin : ∀ it, In it [WidgetDemo.first_row] ->
                      In it (BatchWidget.file_list WidgetDemo.two_files)).
  { intros it [<- | []]. vm_compute. left. reflexivity. }
  split; [ exact demo_two_files_aligned | ]. split; [ exact Hne | ].
  split; [ exact Hsel | ]. split; [ exact Hin | ].
  exact (BatchWidget.remove_selected_files_removes_the_rows
           [WidgetDemo.first_row] WidgetDemo.two_files
           demo_two_files_aligned Hne Hsel Hin).
Defined.

(** After the removal only [/in/b.md] is left. *)
Example remove_first_row :
  BatchWidget.selected_files
    <$> BatchWidget.remove_selected_files [WidgetDemo.first_row] WidgetDemo.two_files
  = Some [u "/in/b.md"].
Proof. vm_compute. reflexivity. Qed.

(** * The test suite of the engine: [WkhtmltopdfComprehensiveTester] *)

Module Tester.

(** An entry of [self.test_results], without its time stamp. *)
Record Result : Type := {
  name : str;
  success : bool;
  message : str;
  severity : str
}.

(** The tester object: [self.wkhtmltopdf_path], [self.test_results],
    and the lines printed so far. *)
Record State : Type := {
  wkhtmltopdf_path : option str;
  test_results : list Result;
  printed : list str
}.

(** [WkhtmltopdfComprehensiveTester.__init__] *)
Definition init : State :=
  {| wkhtmltopdf_path := None; test_results := []; printed := [] |}.

Definition print (line : str) (st : State) : State :=
  {| wkhtmltopdf_path := wkhtmltopdf_path st; test_results := test_results st;
     printed := printed st ++ [line] |}.

Definition set_path (path : option str) (st : State) : State :=
  {| wkhtmltopdf_path := path; test_results := test_results st;
     printed := printed st |}.

(** The two dictionaries of [log_result], as [dict.get] reads them. *)
Definition status_symbols (key : str) : option str :=
  if str_eqb key (u "pass") then Some (u "✅")
  else if str_eqb key (u "fail") then Some (u "❌")
  else if str_eqb key (u "warn") then Some (u "⚠️")
  else if str_eqb key (u "info") then Some (u "ℹ️")
  else None.

Definition status_texts (key : str) : option str :=
  if str_eqb key (u "pass") then Some (u "通过")
  else if str_eqb key (u "fail") then Some (u "失败")
  else if str_eqb key (u "warn") then Some (u "警告")
  else if str_eqb key (u "info") then Some (u "信息")
  else None.

(** [log_result(self, test_name, success, message, severity)]; the
    defaults of the source are [message = ""] and [severity = "info"]. *)
Definition log_result (test_name : str) (success : bool) (message severity : str)
           (st : State) : State :=
  let key := if negb success then severity else u "pass" in
  let symbol := default (u "✅") (status_symbols key) in
  let text := default (u "通过") (status_texts key) in
  let result := symbol ++ u " " ++ test_name ++ u " - " ++ text in
  let result :=
    if nonempty message then result ++ u " (" ++ message ++ u ")" else result in
  print result
    {| wkhtmltopdf_path := wkhtmltopdf_path st;
       test_results := test_results st
                         ++ [{| name := test_name; success := success;
                                message := message; severity := severity |}];
       printed := printed st |}.

(** What a test does: it returns a truth value or raises. *)
Inductive Outcome : Type :=
| Returned (b : bool)
| Raised (e : Exception).

Definition Test : Type := State -> Outcome * State.

Section Suite.

(** The five places [find_wkhtmltopdf_comprehensive] looks at, each with
    the path it finds there if any: [_check_program_bin],
    [_check_program_root], [_check_environment_path],
    [_check_common_locations], [_check_registry]. *)
Variable check_program_bin check_program_root check_environment_path
         check_common_locations check_registry : option str.

(** [platform]: the four entries of [system_info], or the exception
    raised while they are collected; and whether
    [platform.system().lower()] is [windows]. *)
Variable system_info : Exc (list (str * str)).
Variable is_windows : bool.

(** The tests that need the engine, after their guard, given the path. *)
Variable file_integrity version_information help_documentation
         simple_html_conversion complex_html_conversion performance_benchmark
  : str -> Test.

Definition search_methods : list (str * option str) :=
  [ (u "程序目录bin文件夹", check_program_bin);
    (u "程序根目录", check_program_root);
    (u "环境变量PATH", check_environment_path);
    (u "常见安装位置", check_common_locations);
    (u "注册表查找", check_registry) ].

(** The loop of [find_wkhtmltopdf_comprehensive]. *)
Fixpoint search (methods : list (str * option str)) (st : State) : option str * State :=
  match methods with
  | [] => (None, print (u "  💥 未在任何位置找到wkhtmltopdf") st)
  | (method_name, found) :: rest =>
    let st := print (u "  检查" ++ method_name ++ u "...") st in
    if truthy found then
      (found,
       print (u "  ✅ 在" ++ method_name ++ u "中找到: " ++ default [] found) st)
    else search rest (print (u "  ❌ " ++ method_name ++ u "中未找到") st)
  end.

(** [find_wkhtmltopdf_comprehensive(self)] *)
Definition find_wkhtmltopdf_comprehensive (st : State) : option str * State :=
  search search_methods (print (nl ++ u "🔍 正在全面查找wkhtmltopdf...") st).

(** The loop of [test_system_information] over [system_info.items()]. *)
Fixpoint log_system_info (entries : list (str * str)) (st : State) : State :=
  match entries with
  | [] => st
  | (key, value) :: rest =>
    log_system_info rest (log_result (u "系统" ++ key) true value (u "info") st)
  end.

(** [test_system_information(self)] *)
Definition test_system_information : Test := fun st =>
  let st := print (nl ++ u "📋 测试1: 系统环境信息") st in
  match system_info with
  | Ok entries =>
    let st := log_system_info entries st in
    if negb is_windows then
      (Returned false,
       log_result (u "系统兼容性") false (u "当前测试针对Windows系统设计") (u "warn") st)
    else
      (Returned true, log_result (u "系统兼容性") true (u "Windows系统兼容") (u "info") st)
  | Raise e =>
    (Returned false,
     log_result (u "系统信息收集") false (u "收集异常: " ++ e) (u "info") st)
  end.

(** [test_basic_installation(self)] *)
Definition test_basic_installation : Test := fun st =>
  let st := print (nl ++ u "📋 测试2: 基本安装检测") st in
  let '(path, st) := find_wkhtmltopdf_comprehensive st in
  let st := set_path path st in
  match path with
  | None =>
    (Returned false,
     log_result (u "基本安装检测") false (u "未找到wkhtmltopdf可执行文件") (u "info") st)
  | Some p =>
    (Returned true, log_result (u "基本安装检测") true (u "找到路径: " ++ p) (u "info") st)
  end.

(** The guard at the head of the six tests that need the engine:
    [if not self.wkhtmltopdf_path: self.log_result(..); return False]. *)
Definition guarded (heading test_name : str) (body : str -> Test) : Test := fun st =>
  let st := print heading st in
  if negb (truthy (wkhtmltopdf_path st)) then
    (Returned false,
     log_result test_name false (u "没有找到wkhtmltopdf路径") (u "info") st)
  else body (default [] (wkhtmltopdf_path st)) st.

Definition test_file_integrity : Test :=
  guarded (nl ++ u "📋 测试3: 文件完整性验证") (u "文件完整性验证") file_integrity.
Definition test_version_information : Test :=
  guarded (nl ++ u "📋 测试4: 版本信息验证") (u "版本信息验证") version_information.
Definition test_help_documentation : Test :=
  guarded (nl ++ u "📋 测试5: 帮助文档验证") (u "帮助文档验证") help_documentation.
Definition test_simple_html_conversion : Test :=
  guarded (nl ++ u "📋 测试6: 简单HTML转换测试") (u "HTML转换测试") simple_html_conversion.
Definition test_complex_html_conversion : Test :=
  guarded (nl ++ u "📋 测试7: 复杂HTML转换测试") (u "复杂HTML转换测试")
          complex_html_conversion.
Definition test_performance_benchmark : Test :=
  guarded (nl ++ u "📋 测试8: 性能基准测试") (u "性能基准测试") performance_benchmark.

(** [test_suite] of [run_all_tests]: each test with its weight, and with
    the name the handler of the loop gives it
    ([__name__.replace('test_', '').replace('_', ' ').title()]). *)
Definition test_suite : list (str * Test * Z) :=
  [ (u "System Information", test_system_information, 10%Z);
    (u "Basic Installation", test_basic_installation, 15%Z);
    (u "File Integrity", test_file_integrity, 10%Z);
    (u "Version Information", test_version_information, 10%Z);
    (u "Help Documentation", test_help_documentation, 5%Z);
    (u "Simple Html Conversion", test_simple_html_conversion, 15%Z);
    (u "Complex Html Conversion", test_complex_html_conversion, 20%Z);
    (u "Performance Benchmark", test_performance_benchmark, 15%Z) ].

(** The loop of [run_all_tests]. *)
Fixpoint run_suite (suite : list (str * Test * Z)) (st : State)
         (passed_tests earned_points : Z) : Z * Z * State :=
  match suite with
  | [] => (passed_tests, earned_points, st)
  | (test_name, test_func, weight) :: rest =>
    match test_func st with
    | (Returned true, st) => run_suite rest st (passed_tests + 1) (earned_points + weight)
    | (Returned false, st) => run_suite rest st passed_tests earned_points
    | (Raised e, st) =>
      run_suite rest (log_result test_name false (u "测试执行异常: " ++ e) (u "info") st)
                passed_tests earned_points
    end
  end.

(** The three lines printed at the head of [run_all_tests]. *)
Definition opening (st : State) : State :=
  print (List.repeat 61 70)
    (print (u "🚀 开始wkhtmltopdf综合完整性测试") (print (List.repeat 61 70) st)).

(** [x >= n] on a float and an integer. *)
Definition float_ge (x : spec_float) (n : Z) : bool :=
  match SFcompare x (Float.of_int n) with
  | Some Gt | Some Eq => true
  | _ => false
  end.

(** [(earned_points / total_weight) * 100 if total_weight > 0 else 0] *)
Definition score_percentage (earned_points total_weight : Z) : spec_float :=
  if (total_weight >? 0)%Z
  then Float.mul_int (Float.truediv earned_points total_weight) 100
  else Float.of_int 0.

(** The summary of the report of [run_all_tests], without the times. *)
Record Summary : Type := {
  total_tests : Z;
  passed_count : Z;
  failed_tests : Z;
  success_rate : spec_float;
  score : spec_float
}.

(** [run_all_tests(self)]: the verdict and the summary. *)
Definition run_all_tests (st : State) : (bool * Summary) * State :=
  let st := opening st in
  let total_weight := fold_right (fun entry acc => (snd entry + acc)%Z) 0%Z test_suite in
  let '(passed_tests, earned_points, st) := run_suite test_suite st 0 0 in
  let count := Z.of_nat (length test_suite) in
  let rate :=
    if (count >? 0)%Z then Float.mul_int (Float.truediv passed_tests count) 100
    else Float.of_int 0 in
  let score_value := score_percentage earned_points total_weight in
  ((float_ge score_value 70,
    {| total_tests := count; passed_count := passed_tests;
       failed_tests := (count - passed_tests)%Z;
       success_rate := rate; score := score_value |}), st).

(** *** Properties *)

Definition weights (suite : list (str * Test * Z)) : Z :=
  fold_right (fun entry acc => (snd entry + acc)%Z) 0%Z suite.





Lemma suite_weights : weights test_suite = 100%Z.
Proof. reflexivity. Qed.



(** The entry that the guard of a test logs when no path is set. *)
Definition guard_failure (test_name : str) : Result :=
  {| name := test_name; success := false;
     message := u "没有找到wkhtmltopdf路径"; severity := u "info" |}.

Lemma search_finds_nothing (methods : list (str * option str)) (st : State) :
  Forall (fun method => truthy (snd method) = false) methods ->
  fst (search methods st) = None ∧
  wkhtmltopdf_path (snd (search methods st)) = wkhtmltopdf_path st ∧
  test_results (snd (search methods st)) = test_results st.
Proof.
  intros Hall. revert st.
  induction Hall as [ | [method_name found] methods Hfound _ IH]; intros st;
    cbn [search].
  - auto.
  - cbn [snd] in Hfound. rewrite Hfound.
    destruct (IH (print (u "  ❌ " ++ method_name ++ u "中未找到")
                        (print (u "  检查" ++ method_name ++ u "...") st)))
      as (H1 & H2 & H3).
    auto.
Qed.

Lemma guarded_without_path (heading test_name : str) (body : str -> Test) (st : State) :
  wkhtmltopdf_path st = None ->
  guarded heading test_name body st
  = (Returned false,
     log_result test_name false (u "没有找到wkhtmltopdf路径") (u "info")
                (print heading st)).
Proof. intros Hpath. unfold guarded. cbn [print wkhtmltopdf_path]. rewrite Hpath. reflexivity. Qed.

Lemma run_suite_cons (test_name : str) (test_func : Test) (weight : Z)
      (rest : list (str * Test * Z)) (st : State) (passed_tests earned_points : Z) :
  run_suite ((test_name, test_func, weight) :: rest) st passed_tests earned_points
  = match test_func st with
    | (Returned true, st) => run_suite rest st (passed_tests + 1) (earned_points + weight)
    | (Returned false, st) => run_suite rest st passed_tests earned_points
    | (Raised e, st) =>
      run_suite rest (log_result test_name false (u "测试执行异常: " ++ e) (u "info") st)
                passed_tests earned_points
    end.
Proof. reflexivity. Qed.

Lemma run_suite_guard_step (title heading test_name : str) (body : str -> Test)
      (weight : Z) (rest : list (str * Test * Z)) (st : State)
      (passed_tests earned_points : Z) :
  wkhtmltopdf_path st = None ->
  run_suite ((title, guarded heading test_name body, weight) :: rest) st
            passed_tests earned_points
  = run_suite rest
              (log_result test_name false (u "没有找到wkhtmltopdf路径") (u "info")
                          (print heading st))
              passed_tests earned_points.
Proof.
  intros Hpath. rewrite run_suite_cons, (guarded_without_path _ _ _ _ Hpath).
  reflexivity.
Qed.

(** When none of the five places holds the engine, the suite fails,
    whatever the first test says and whatever the tests after their
    guards would do: the second test fails, each of the six tests that
    need the engine stops at its guard and logs its failure (printed
    with the sign and the word of [info], the default severity), at most
    one test passes, and at most 10 points of 100 are earned. *)
Theorem missing_engine_fails_suite (st : State) :
  Forall (fun method => truthy (snd method) = false) search_methods ->
  let verdict := fst (fst (run_all_tests st)) in
  let summary := snd (fst (run_all_tests st)) in
  let st' := snd (run_all_tests st) in
  verdict = false ∧
  wkhtmltopdf_path st' = None ∧
  (passed_count summary <= 1)%Z ∧
  (score summary = score_percentage 0 100 ∨ score summary = score_percentage 10 100) ∧
  Forall (fun test_name => In (guard_failure test_name) (test_results st'))
         [ u "文件完整性验证"; u "版本信息验证"; u "帮助文档验证"; u "HTML转换测试";
           u "复杂HTML转换测试"; u "性能基准测试" ] ∧
  In (u "ℹ️ 文件完整性验证 - 信息 (没有找到wkhtmltopdf路径)") (printed st').
Proof.
  intros Hnone. cbv zeta.
  unfold run_all_tests. cbv zeta. fold (weights test_suite). rewrite suite_weights.
  unfold test_suite, test_file_integrity, test_version_information,
         test_help_documentation, test_simple_html_conversion,
         test_complex_html_conversion, test_performance_benchmark.
  rewrite run_suite_cons.
  destruct (test_system_information (opening st)) as [first st1] eqn:Hfirst.
  assert (Hreturned : ∃ b, first = Returned b).
  { unfold test_system_information in Hfirst. cbv zeta in Hfirst.
    destruct system_info; [ destruct is_windows | ]; cbn [negb] in Hfirst;
      injection Hfirst as <- _; eauto. }
  destruct Hreturned as [b ->].
  assert (Hsecond : ∀ st1, ∃ st2,
             test_basic_installation st1 = (Returned false, st2) ∧
             wkhtmltopdf_path st2 = None).
  { intros s1. unfold test_basic_installation, find_wkhtmltopdf_comprehensive. cbv zeta.
    destruct (search_finds_nothing search_methods
                (print (nl ++ u "🔍 正在全面查找wkhtmltopdf...")
                       (print (nl ++ u "📋 测试2: 基本安装检测") s1)) Hnone)
      as (Hpath & _ & _).
    destruct (search search_methods _) as [path s2]. cbn [fst] in Hpath. subst path.
    eexists. split; reflexivity. }
  assert (Htail : ∀ st2 passed_tests earned_points,
             wkhtmltopdf_path st2 = None ->
             ∃ st',
               run_suite
                 [ (u "File Integrity",
                    guarded (nl ++ u "📋 测试3: 文件完整性验证") (u "文件完整性验证")
                            file_integrity, 10%Z);
                   (u "Version Information",
                    guarded (nl ++ u "📋 测试4: 版本信息验证") (u "版本信息验证")
                            version_information, 10%Z);
                   (u "Help Documentation",
                    guarded (nl ++ u "📋 测试5: 帮助文档验证") (u "帮助文档验证")
                            help_documentation, 5%Z);
                   (u "Simple Html Conversion",
                    guarded (nl ++ u "📋 测试6: 简单HTML转换测试") (u "HTML转换测试")
                            simple_html_conversion, 15%Z);
                   (u "Complex Html Conversion",
                    guarded (nl ++ u "📋 测试7: 复杂HTML转换测试") (u "复杂HTML转换测试")
                            complex_html_conversion, 20%Z);
                   (u "Performance Benchmark",
                    guarded (nl ++ u "📋 测试8: 性能基准测试") (u "性能基准测试")
                            performance_benchmark, 15%Z) ]
                 st2 passed_tests earned_points
               = (passed_tests, earned_points, st') ∧
               wkhtmltopdf_path st' = None ∧
               Forall (fun test_name => In (guard_failure test_name) (test_results st'))
                      [ u "文件完整性验证"; u "版本信息验证"; u "帮助文档验证";
                        u "HTML转换测试"; u "复杂HTML转换测试"; u "性能基准测试" ] ∧
               In (u "ℹ️ 文件完整性验证 - 信息 (没有找到wkhtmltopdf路径)") (printed st')).
  { intros s2 p e Hpath.
    rewrite !run_suite_guard_step by exact Hpath. cbn [run_suite].
    eexists. split; [ reflexivity | ]. split; [ exact Hpath | ].
    split.
    - cbn [test_results log_result print]. unfold guard_failure.
      rewrite <- !app_assoc. cbn [app].
      apply List.Forall_cons; [ apply in_or_app; right; left; reflexivity | ].
      apply List.Forall_cons; [ apply in_or_app; right; right; left; reflexivity | ].
      apply List.Forall_cons;
        [ apply in_or_app; right; right; right; left; reflexivity | ].
      apply List.Forall_cons;
        [ apply in_or_app; right; right; right; right; left; reflexivity | ].
      apply List.Forall_cons;
        [ apply in_or_app; right; right; right; right; right; left; reflexivity | ].
      apply List.Forall_cons;
        [ apply in_or_app; right; right; right; right; right; right; left; reflexivity | ].
      apply List.Forall_nil.
    - cbn [printed log_result print]. rewrite <- !app_assoc.
      apply in_or_app. right. right. left. vm_compute. reflexivity. }
  destruct b.
  - rewrite run_suite_cons. destruct (Hsecond st1) as (st2 & -> & Hpath).
    destruct (Htail st2 (0 + 1)%Z (0 + 10)%Z Hpath) as (st' & -> & Hnone' & Hresults & Hline).
    cbn [fst snd score passed_count].
    split; [ vm_compute; reflexivity | ]. split; [ exact Hnone' | ]. split; [ lia | ].
    split; [ right; reflexivity | ]. split; [ exact Hresults | exact Hline ].
  - rewrite run_suite_cons. destruct (Hsecond st1) as (st2 & -> & Hpath).
    destruct (Htail st2 0%Z 0%Z Hpath) as (st' & -> & Hnone' & Hresults & Hline).
    cbn [fst snd score passed_count].
    split; [ vm_compute; reflexivity | ]. split; [ exact Hnone' | ]. split; [ lia | ].
    split; [ left; reflexivity | ]. split; [ exact Hresults | exact Hline ].
Qed.

End Suite.

End Tester.

(** *** The suite on a machine without the engine *)

Module TesterDemo.

Definition system_info : Exc (list (str * str)) :=
  Ok [ (u "os", u "Windows 10"); (u "architecture", u "64bit");
       (u "python_version", u "3.11.4"); (u "processor", u "Unknown") ].

(** A body that would pass, were it reached. *)
Definition passing (_ : str) : Tester.Test := fun st => (Tester.Returned true, st).

Definition run_all_tests : Tester.State -> (bool * Tester.Summary) * Tester.State :=
  Tester.run_all_tests None None None None None system_info true
                       passing passing passing passing passing passing.

End TesterDemo.

Lemma missing_engine_witness :
  Forall (fun method => truthy (snd method) = false)
         (Tester.search_methods None None None None None) ∧
  let verdict := fst (fst (TesterDemo.run_all_tests Tester.init)) in
  let summary := snd (fst (TesterDemo.run_all_tests Tester.init)) in
  let st' := snd (TesterDemo.run_all_tests Tester.init) in
  verdict = false ∧
  Tester.wkhtmltopdf_path st' = None ∧
  (Tester.passed_count summary <= 1)%Z ∧
  (Tester.score summary = Tester.score_percentage 0 100
   ∨ Tester.score summary = Tester.score_percentage 10 100) ∧
  Forall (fun test_name =>
            In (Tester.guard_failure test_name) (Tester.test_results st'))
         [ u "文件完整性验证"; u "版本信息验证"; u "帮助文档验证"; u "HTML转换测试";
           u "复杂HTML转换测试"; u "性能基准测试" ] ∧
  In (u "ℹ️ 文件完整性验证 - 信息 (没有找到wkhtmltopdf路径)") (Tester.printed st').
Proof.
  assert (H : Forall (fun method => truthy (snd method) = false)
                     (Tester.search_methods None None None None None))
    by (repeat constructor).
  split; [ exact H | ].
  exact (Tester.missing_engine_fails_suite
           None None None None None TesterDemo.system_info true
           TesterDemo.passing TesterDemo.passing TesterDemo.passing
           TesterDemo.passing TesterDemo.passing TesterDemo.passing
           Tester.init H).
Defined.

(** There the first test passes and nothing else: 10 points of 100. *)
Example suite_without_engine :
  let summary := snd (fst (TesterDemo.run_all_tests Tester.init)) in
  fst (fst (TesterDemo.run_all_tests Tester.init)) = false ∧
  Tester.passed_count summary = 1%Z ∧
  Tester.failed_tests summary = 7%Z ∧
  Tester.score summary = Tester.score_percentage 10 100.
Proof. vm_compute. repeat split; reflexivity. Qed.
